(** * tinyos3: pipes, sockets, threads and process exit

    A shallow embedding of [kernel_pipe.c], [kernel_socket.c],
    [kernel_threads.c] and the exit path of [kernel_proc.c].

    The kernel runs under one global mutex, so a system call is a sequence
    of atomic segments separated by the suspension points [kernel_wait],
    [kernel_timedwait] and [kernel_sleep].  Every segment is a function
    from the kernel state to an [outcome]: it returns, it suspends on a
    condition variable, or it hits undefined behaviour.  A call that can
    suspend comes with the function that runs when the thread is woken
    (the loop head the C code jumps back to). *)

From Stdlib Require Import ZArith Lia Strings.Byte.
From stdpp Require Import gmap list.

Local Open Scope Z_scope.

Abbreviation ptr := positive.

(** ** Constants of [tinyos.h] and [kernel_streams.h]

    The two headers are not among the sources; the sizes are parameters of
    the development. *)
Class KernelConfig := {
  MAX_PORT : Z;
  MAX_FILEID : Z;
  MAX_PROC : Z;
  PIPE_BUFFER_SIZE : Z
}.

(** Modelled from the spec: the failure sentinels of [tinyos.h], "[-1],
    [NOFILE], [NOPROC] denote failure" and "0 = [NOPORT] sentinel". *)
Definition NOFILE : Z := -1.
Definition NOPROC : Z := -1.
Definition NOPORT : Z := 0.

(** ** Machine integers

    Values of type [int] are integers of [Z]: the code never relies on
    signed overflow, which C leaves undefined. *)

(** [uint] arithmetic wraps modulo [2^32]. *)
Definition UINT_MOD : Z := 4294967296.
Definition uint (z : Z) : Z := z mod UINT_MOD.
(** Conversion of an [unsigned int] to [int]. *)
Definition to_int (z : Z) : Z := (z + 2147483648) mod UINT_MOD - 2147483648.

(** A C array indexed by a signed integer: [None] is an access outside
    the array. *)
Definition array_get {A} (l : list A) (i : Z) : option A :=
  if i <? 0 then None else l !! Z.to_nat i.
Definition array_set {A} (l : list A) (i : Z) (x : A) : option (list A) :=
  if (i <? 0) || (Z.of_nat (length l) <=? i) then None
  else Some (<[Z.to_nat i := x]> l).

(** ** Data model *)

(** The object behind [FCB.streamobj] (a [void*] in C). *)
Inductive stream_object :=
| PipeObj (p : ptr)
| SocketObj (p : ptr)
| InfoObj (p : ptr).

(** The four [file_ops] tables of the sources. *)
Inductive file_ops :=
| reader_file_ops
| writer_file_ops
| socket_fileops
| procinfo_file_ops.

Module FCB.
Record t := mk {
  refcount : Z;
  streamobj : option stream_object;
  streamfunc : option file_ops
}.
End FCB.

Module pipe_cb.
Record t := mk {
  reader : option ptr;
  writer : option ptr;
  BUFFER : list byte;
  w_position : Z;
  r_position : Z;
  counter : Z
}.
End pipe_cb.

Inductive socket_type := SOCKET_LISTENER | SOCKET_UNBOUND | SOCKET_PEER.

#[global] Instance socket_type_eq_dec : EqDecision socket_type.
Proof. solve_decision. Defined.

(** The members of the anonymous union are kept side by side: [queue]
    is [listener_s.queue] (the pending requests, oldest first), the last
    three fields are [peer_s]. *)
Module socket_cb.
Record t := mk {
  refcount : Z;
  fcb : option ptr;
  type : socket_type;
  port : Z;
  queue : list ptr;
  peer : option ptr;
  write_pipe : option ptr;
  read_pipe : option ptr
}.
End socket_cb.

Module connection_request.
Record t := mk {
  admitted : Z;
  peer : option ptr
}.
End connection_request.

Inductive pid_state := FREE | ALIVE | ZOMBIE.

#[global] Instance pid_state_eq_dec : EqDecision pid_state.
Proof. solve_decision. Defined.

(** A [PCB*] is the index of the slot in [PT].

    Modelled from the spec: the intrusive list library ([rlnode],
    [rlist_push_front], [rlist_pop_front], [rlist_append], ... of [util.h])
    is not among the sources.  A list head is the list of the objects
    whose node is linked in it, front first: "a list of living children; a
    list of exited (ZOMBIE) children; a list of per-thread join handles";
    the request queue of a listener is popped in insertion order. *)
Module PCB.
Record t := mk {
  pstate : pid_state;
  parent : option Z;
  exitval : Z;
  main_thread : option ptr;
  argl : Z;
  args : option (list byte);
  children_list : list Z;
  exited_list : list Z;
  FIDT : list (option ptr);
  ptcb_list : list ptr;
  thread_count : Z
}.
End PCB.

Module PTCB.
Record t := mk {
  tcb : option ptr;
  argl : Z;
  exitval : Z;
  exited : Z;
  detached : Z;
  refcount : Z
}.
End PTCB.

(** Condition variables are named by the object that embeds them. *)
Inductive CondVar :=
| has_space (p : ptr)
| has_data (p : ptr)
| req_available (s : ptr)
| connected_cv (r : ptr)
| exit_cv (t : ptr)
| child_exit (pid : Z).

#[global] Instance CondVar_eq_dec : EqDecision CondVar.
Proof. solve_decision. Defined.

Inductive event :=
| Signal (cv : CondVar)
| Broadcast (cv : CondVar).

#[global] Instance event_eq_dec : EqDecision event.
Proof. solve_decision. Defined.

(** The kernel state.  [infos] holds the [PCB_cursor] of each
    [procinfo_CB].  [CURPROC] and [cur_thread_ptcb] are what the
    scheduler reports for the running thread; [trace] records the calls
    of [kernel_signal] and [kernel_broadcast], oldest first. *)
Record kernel := mkKernel {
  PT : list PCB.t;
  CURPROC : Z;
  cur_thread_ptcb : option ptr;
  ptcbs : gmap positive PTCB.t;
  FT : gmap positive FCB.t;
  sockets : gmap positive socket_cb.t;
  pipes : gmap positive pipe_cb.t;
  requests : gmap positive connection_request.t;
  infos : gmap positive Z;
  PORT_MAP : list (option ptr);
  trace : list event
}.

Definition with_cur_thread (me : option ptr) (s : kernel) : kernel :=
  mkKernel (PT s) (CURPROC s) me (ptcbs s) (FT s)
    (sockets s) (pipes s) (requests s) (infos s) (PORT_MAP s) (trace s).
Definition with_PT (f : list PCB.t -> list PCB.t) (s : kernel) : kernel :=
  mkKernel (f (PT s)) (CURPROC s) (cur_thread_ptcb s) (ptcbs s) (FT s)
    (sockets s) (pipes s) (requests s) (infos s) (PORT_MAP s) (trace s).
Definition with_ptcbs (f : gmap positive PTCB.t -> gmap positive PTCB.t)
    (s : kernel) : kernel :=
  mkKernel (PT s) (CURPROC s) (cur_thread_ptcb s) (f (ptcbs s)) (FT s)
    (sockets s) (pipes s) (requests s) (infos s) (PORT_MAP s) (trace s).
Definition with_FT (f : gmap positive FCB.t -> gmap positive FCB.t)
    (s : kernel) : kernel :=
  mkKernel (PT s) (CURPROC s) (cur_thread_ptcb s) (ptcbs s) (f (FT s))
    (sockets s) (pipes s) (requests s) (infos s) (PORT_MAP s) (trace s).
Definition with_sockets
    (f : gmap positive socket_cb.t -> gmap positive socket_cb.t)
    (s : kernel) : kernel :=
  mkKernel (PT s) (CURPROC s) (cur_thread_ptcb s) (ptcbs s) (FT s)
    (f (sockets s)) (pipes s) (requests s) (infos s) (PORT_MAP s) (trace s).
Definition with_pipes (f : gmap positive pipe_cb.t -> gmap positive pipe_cb.t)
    (s : kernel) : kernel :=
  mkKernel (PT s) (CURPROC s) (cur_thread_ptcb s) (ptcbs s) (FT s)
    (sockets s) (f (pipes s)) (requests s) (infos s) (PORT_MAP s) (trace s).
Definition with_requests
    (f : gmap positive connection_request.t ->
         gmap positive connection_request.t)
    (s : kernel) : kernel :=
  mkKernel (PT s) (CURPROC s) (cur_thread_ptcb s) (ptcbs s) (FT s)
    (sockets s) (pipes s) (f (requests s)) (infos s) (PORT_MAP s) (trace s).
Definition with_infos (f : gmap positive Z -> gmap positive Z) (s : kernel)
    : kernel :=
  mkKernel (PT s) (CURPROC s) (cur_thread_ptcb s) (ptcbs s) (FT s)
    (sockets s) (pipes s) (requests s) (f (infos s)) (PORT_MAP s) (trace s).
Definition with_PORT_MAP (f : list (option ptr) -> list (option ptr))
    (s : kernel) : kernel :=
  mkKernel (PT s) (CURPROC s) (cur_thread_ptcb s) (ptcbs s) (FT s)
    (sockets s) (pipes s) (requests s) (infos s) (f (PORT_MAP s)) (trace s).
Definition with_trace (f : list event -> list event) (s : kernel) : kernel :=
  mkKernel (PT s) (CURPROC s) (cur_thread_ptcb s) (ptcbs s) (FT s)
    (sockets s) (pipes s) (requests s) (infos s) (PORT_MAP s) (f (trace s)).

(** ** Field updates *)

Definition PCB_set_pstate (x : pid_state) (r : PCB.t) : PCB.t :=
  PCB.mk x (PCB.parent r) (PCB.exitval r) (PCB.main_thread r) (PCB.argl r)
    (PCB.args r) (PCB.children_list r) (PCB.exited_list r) (PCB.FIDT r)
    (PCB.ptcb_list r) (PCB.thread_count r).
Definition PCB_set_parent (x : option Z) (r : PCB.t) : PCB.t :=
  PCB.mk (PCB.pstate r) x (PCB.exitval r) (PCB.main_thread r) (PCB.argl r)
    (PCB.args r) (PCB.children_list r) (PCB.exited_list r) (PCB.FIDT r)
    (PCB.ptcb_list r) (PCB.thread_count r).
Definition PCB_set_main_thread (x : option ptr) (r : PCB.t) : PCB.t :=
  PCB.mk (PCB.pstate r) (PCB.parent r) (PCB.exitval r) x (PCB.argl r)
    (PCB.args r) (PCB.children_list r) (PCB.exited_list r) (PCB.FIDT r)
    (PCB.ptcb_list r) (PCB.thread_count r).
Definition PCB_set_args (x : option (list byte)) (r : PCB.t) : PCB.t :=
  PCB.mk (PCB.pstate r) (PCB.parent r) (PCB.exitval r) (PCB.main_thread r)
    (PCB.argl r) x (PCB.children_list r) (PCB.exited_list r) (PCB.FIDT r)
    (PCB.ptcb_list r) (PCB.thread_count r).
Definition PCB_set_children_list (x : list Z) (r : PCB.t) : PCB.t :=
  PCB.mk (PCB.pstate r) (PCB.parent r) (PCB.exitval r) (PCB.main_thread r)
    (PCB.argl r) (PCB.args r) x (PCB.exited_list r) (PCB.FIDT r)
    (PCB.ptcb_list r) (PCB.thread_count r).
Definition PCB_set_exited_list (x : list Z) (r : PCB.t) : PCB.t :=
  PCB.mk (PCB.pstate r) (PCB.parent r) (PCB.exitval r) (PCB.main_thread r)
    (PCB.argl r) (PCB.args r) (PCB.children_list r) x (PCB.FIDT r)
    (PCB.ptcb_list r) (PCB.thread_count r).
Definition PCB_set_FIDT (x : list (option ptr)) (r : PCB.t) : PCB.t :=
  PCB.mk (PCB.pstate r) (PCB.parent r) (PCB.exitval r) (PCB.main_thread r)
    (PCB.argl r) (PCB.args r) (PCB.children_list r) (PCB.exited_list r) x
    (PCB.ptcb_list r) (PCB.thread_count r).
Definition PCB_set_ptcb_list (x : list ptr) (r : PCB.t) : PCB.t :=
  PCB.mk (PCB.pstate r) (PCB.parent r) (PCB.exitval r) (PCB.main_thread r)
    (PCB.argl r) (PCB.args r) (PCB.children_list r) (PCB.exited_list r)
    (PCB.FIDT r) x (PCB.thread_count r).
Definition PCB_set_thread_count (x : Z) (r : PCB.t) : PCB.t :=
  PCB.mk (PCB.pstate r) (PCB.parent r) (PCB.exitval r) (PCB.main_thread r)
    (PCB.argl r) (PCB.args r) (PCB.children_list r) (PCB.exited_list r)
    (PCB.FIDT r) (PCB.ptcb_list r) x.

Definition socket_cb_set_refcount (x : Z) (r : socket_cb.t) : socket_cb.t :=
  socket_cb.mk x (socket_cb.fcb r) (socket_cb.type r) (socket_cb.port r)
    (socket_cb.queue r) (socket_cb.peer r) (socket_cb.write_pipe r)
    (socket_cb.read_pipe r).
Definition socket_cb_set_type (x : socket_type) (r : socket_cb.t) : socket_cb.t :=
  socket_cb.mk (socket_cb.refcount r) (socket_cb.fcb r) x
    (socket_cb.port r) (socket_cb.queue r) (socket_cb.peer r)
    (socket_cb.write_pipe r) (socket_cb.read_pipe r).
Definition socket_cb_set_queue (x : list ptr) (r : socket_cb.t) : socket_cb.t :=
  socket_cb.mk (socket_cb.refcount r) (socket_cb.fcb r) (socket_cb.type r)
    (socket_cb.port r) x (socket_cb.peer r) (socket_cb.write_pipe r)
    (socket_cb.read_pipe r).
Definition socket_cb_set_peer (x : option ptr) (r : socket_cb.t) : socket_cb.t :=
  socket_cb.mk (socket_cb.refcount r) (socket_cb.fcb r) (socket_cb.type r)
    (socket_cb.port r) (socket_cb.queue r) x (socket_cb.write_pipe r)
    (socket_cb.read_pipe r).
Definition socket_cb_set_write_pipe (x : option ptr) (r : socket_cb.t) : socket_cb.t :=
  socket_cb.mk (socket_cb.refcount r) (socket_cb.fcb r) (socket_cb.type r)
    (socket_cb.port r) (socket_cb.queue r) (socket_cb.peer r) x
    (socket_cb.read_pipe r).
Definition socket_cb_set_read_pipe (x : option ptr) (r : socket_cb.t) : socket_cb.t :=
  socket_cb.mk (socket_cb.refcount r) (socket_cb.fcb r) (socket_cb.type r)
    (socket_cb.port r) (socket_cb.queue r) (socket_cb.peer r)
    (socket_cb.write_pipe r) x.

Definition PTCB_set_exitval (x : Z) (r : PTCB.t) : PTCB.t :=
  PTCB.mk (PTCB.tcb r) (PTCB.argl r) x (PTCB.exited r) (PTCB.detached r)
    (PTCB.refcount r).
Definition PTCB_set_exited (x : Z) (r : PTCB.t) : PTCB.t :=
  PTCB.mk (PTCB.tcb r) (PTCB.argl r) (PTCB.exitval r) x (PTCB.detached r)
    (PTCB.refcount r).
Definition PTCB_set_detached (x : Z) (r : PTCB.t) : PTCB.t :=
  PTCB.mk (PTCB.tcb r) (PTCB.argl r) (PTCB.exitval r) (PTCB.exited r) x
    (PTCB.refcount r).
Definition PTCB_set_refcount (x : Z) (r : PTCB.t) : PTCB.t :=
  PTCB.mk (PTCB.tcb r) (PTCB.argl r) (PTCB.exitval r) (PTCB.exited r)
    (PTCB.detached r) x.

(** ** Outcomes and the kernel monad *)

Inductive fault :=
| NullDeref
| Dangling
| OutOfBounds
| BadCast
| AssertFailed.

Inductive suspension :=
| KWait (cv : CondVar)
| KTimedWait (cv : CondVar) (timeout : Z)
| KSleepExited.

Inductive outcome (A : Type) :=
| Return (a : A) (s : kernel)
| Suspended (w : suspension) (s : kernel)
| Fault (f : fault).
Arguments Return {A} a s.
Arguments Suspended {A} w s.
Arguments Fault {A} f.

Definition K (A : Type) : Type := kernel -> outcome A.

Definition ret {A} (a : A) : K A := fun s => Return a s.
Definition raise {A} (f : fault) : K A := fun _ => Fault f.
(** A suspension inside [bind] drops the rest: it is only used where the
    suspending call is in tail position. *)
Definition bind {A B} (m : K A) (k : A -> K B) : K B :=
  fun s =>
    match m s with
    | Return a s' => k a s'
    | Suspended w s' => Suspended w s'
    | Fault f => Fault f
    end.

Notation "'let*' x := m 'in' k" := (bind m (fun x => k))
  (at level 10, x name, m at level 100, k at level 200).
Notation "m ;; k" := (bind m (fun _ => k))
  (at level 100, k at level 200, right associativity).

Definition gets {A} (f : kernel -> A) : K A := fun s => Return (f s) s.
Definition modify (f : kernel -> kernel) : K unit := fun s => Return tt (f s).
Definition deref {A} (f : fault) (o : option A) : K A :=
  match o with Some a => ret a | None => raise f end.

Definition kernel_wait {A} (cv : CondVar) : K A :=
  fun s => Suspended (KWait cv) s.
Definition kernel_timedwait {A} (cv : CondVar) (timeout : Z) : K A :=
  fun s => Suspended (KTimedWait cv timeout) s.
Definition kernel_sleep_EXITED {A} : K A :=
  fun s => Suspended KSleepExited s.
Definition kernel_signal (cv : CondVar) : K unit :=
  modify (with_trace (fun t => t ++ [Signal cv])).
Definition kernel_broadcast (cv : CondVar) : K unit :=
  modify (with_trace (fun t => t ++ [Broadcast cv])).

(** Typed heaps: reading a freed object is [Dangling]. *)
Definition load_pipe (p : ptr) : K pipe_cb.t :=
  fun s => deref Dangling (pipes s !! p) s.
Definition store_pipe (p : ptr) (cb : pipe_cb.t) : K unit :=
  modify (with_pipes (insert p cb)).
Definition free_pipe (p : ptr) : K unit :=
  modify (with_pipes (delete p)).

Definition load_socket (p : ptr) : K socket_cb.t :=
  fun s => deref Dangling (sockets s !! p) s.
Definition store_socket (p : ptr) (cb : socket_cb.t) : K unit :=
  modify (with_sockets (insert p cb)).
Definition free_socket (p : ptr) : K unit :=
  modify (with_sockets (delete p)).

Definition load_request (p : ptr) : K connection_request.t :=
  fun s => deref Dangling (requests s !! p) s.
Definition store_request (p : ptr) (r : connection_request.t) : K unit :=
  modify (with_requests (insert p r)).
Definition free_request (p : ptr) : K unit :=
  modify (with_requests (delete p)).

Definition load_ptcb (p : ptr) : K PTCB.t :=
  fun s => deref Dangling (ptcbs s !! p) s.
Definition store_ptcb (p : ptr) (t : PTCB.t) : K unit :=
  modify (with_ptcbs (insert p t)).
Definition free_ptcb (p : ptr) : K unit :=
  modify (with_ptcbs (delete p)).

Definition load_FCB (p : ptr) : K FCB.t :=
  fun s => deref Dangling (FT s !! p) s.
Definition store_FCB (p : ptr) (f : FCB.t) : K unit :=
  modify (with_FT (insert p f)).

Definition load_PCB (pid : Z) : K PCB.t :=
  fun s => deref OutOfBounds (array_get (PT s) pid) s.
Definition store_PCB (pid : Z) (pcb : PCB.t) : K unit :=
  fun s =>
    match array_set (PT s) pid pcb with
    | Some pt => Return tt (with_PT (fun _ => pt) s)
    | None => Fault OutOfBounds
    end.

(** [xmalloc]: an address no live object of that type has. *)
Definition xmalloc {V} (heap : gmap positive V) : ptr := fresh (dom heap).

(** ** Pipes ([kernel_pipe.c]) *)

Section Pipe.
Context `{KernelConfig}.

(** [(w_position+1) % PIPE_BUFFER_SIZE == r_position]; [%] is C's
    remainder. *)
Definition ring_full (cb : pipe_cb.t) : bool :=
  Z.rem (pipe_cb.w_position cb + 1) PIPE_BUFFER_SIZE =? pipe_cb.r_position cb.
Definition ring_empty (cb : pipe_cb.t) : bool :=
  pipe_cb.w_position cb =? pipe_cb.r_position cb.

(** [pos++; if (pos >= PIPE_BUFFER_SIZE) pos = 0;] *)
Definition advance (pos : Z) : Z :=
  if PIPE_BUFFER_SIZE <=? pos + 1 then 0 else pos + 1.

(** The copy loop of [pipe_write].  [todo] is [n - written_data], the
    variant of the loop; reading [buf] or writing [BUFFER] outside their
    bounds is a fault. *)
Fixpoint pipe_write_loop (todo : nat) (buf : list byte) (written_data : Z)
    (cb : pipe_cb.t) : fault + (Z * pipe_cb.t) :=
  match todo with
  | O => inr (written_data, cb)
  | S todo' =>
      if ring_full cb then inr (written_data, cb)
      else
        match array_get buf written_data with
        | None => inl OutOfBounds
        | Some b =>
            match array_set (pipe_cb.BUFFER cb) (pipe_cb.w_position cb) b with
            | None => inl OutOfBounds
            | Some buffer =>
                pipe_write_loop todo' buf (written_data + 1)
                  (pipe_cb.mk (pipe_cb.reader cb) (pipe_cb.writer cb) buffer
                     (advance (pipe_cb.w_position cb))
                     (pipe_cb.r_position cb)
                     (uint (pipe_cb.counter cb + 1)))
            end
        end
  end.

(** [if (counter == n-1) counter = 0;] with [n-1] computed in
    [unsigned int]. *)
Definition reset_counter_write (n : Z) (cb : pipe_cb.t) : pipe_cb.t :=
  if pipe_cb.counter cb =? uint (n - 1)
  then pipe_cb.mk (pipe_cb.reader cb) (pipe_cb.writer cb) (pipe_cb.BUFFER cb)
         (pipe_cb.w_position cb) (pipe_cb.r_position cb) 0
  else cb.

(** [pipe_write] from the head of its waiting loop: where the call
    starts after the entry checks and where it continues when woken from
    [kernel_wait(&has_space)]. *)
Definition pipe_write_wait (p : ptr) (buf : list byte) (n : Z) : K Z :=
  let* cb := load_pipe p in
  if ring_full cb && bool_decide (pipe_cb.reader cb <> None)
  then kernel_wait (has_space p)
  else if bool_decide (pipe_cb.reader cb = None) then ret (-1)
  else
    match pipe_write_loop (Z.to_nat n) buf 0 cb with
    | inl f => raise f
    | inr (written_data, cb') =>
        store_pipe p (reset_counter_write n cb') ;;
        kernel_broadcast (has_data p) ;;
        ret written_data
    end.

Definition pipe_write (pipecb_t : option ptr) (buf : list byte) (n : Z)
    : K Z :=
  match pipecb_t with
  | None => ret (-1)
  | Some p =>
      let* cb := load_pipe p in
      if bool_decide (pipe_cb.writer cb = None)
         || bool_decide (pipe_cb.reader cb = None)
      then ret (-1)
      else pipe_write_wait p buf n
  end.

(** The copy loop of [pipe_read]; [todo] is [n - byte_num] and [out] the
    bytes stored in [buf] so far. *)
Fixpoint pipe_read_loop (todo : nat) (out : list byte) (cb : pipe_cb.t)
    : fault + (list byte * pipe_cb.t) :=
  match todo with
  | O => inr (out, cb)
  | S todo' =>
      if ring_empty cb then inr (out, cb)
      else
        match array_get (pipe_cb.BUFFER cb) (pipe_cb.r_position cb) with
        | None => inl OutOfBounds
        | Some b =>
            pipe_read_loop todo' (out ++ [b])
              (pipe_cb.mk (pipe_cb.reader cb) (pipe_cb.writer cb)
                 (pipe_cb.BUFFER cb) (pipe_cb.w_position cb)
                 (advance (pipe_cb.r_position cb))
                 (uint (pipe_cb.counter cb + 1)))
        end
  end.

Definition reset_counter_read (n : Z) (cb : pipe_cb.t) : pipe_cb.t :=
  if pipe_cb.counter cb =? n
  then pipe_cb.mk (pipe_cb.reader cb) (pipe_cb.writer cb) (pipe_cb.BUFFER cb)
         (pipe_cb.w_position cb) (pipe_cb.r_position cb) 0
  else cb.

(** [pipe_read] from the head of its waiting loop.  The result is the
    returned [int] and the bytes stored in [buf]. *)
Definition pipe_read_wait (p : ptr) (n : Z) : K (Z * list byte) :=
  let* cb := load_pipe p in
  if ring_empty cb && bool_decide (pipe_cb.writer cb <> None)
  then kernel_wait (has_data p)
  else
    match pipe_read_loop (Z.to_nat n) [] cb with
    | inl f => raise f
    | inr (out, cb') =>
        store_pipe p (reset_counter_read n cb') ;;
        kernel_broadcast (has_space p) ;;
        ret (to_int (Z.of_nat (length out)), out)
    end.

Definition pipe_read (pipecb_t : option ptr) (n : Z) : K (Z * list byte) :=
  match pipecb_t with
  | None => ret (-1, [])
  | Some p =>
      let* cb := load_pipe p in
      if bool_decide (pipe_cb.reader cb = None) then ret (-1, [])
      else pipe_read_wait p n
  end.

Definition pipe_writer_close (_pipecb : option ptr) : K Z :=
  match _pipecb with
  | None => ret (-1)
  | Some p =>
      let* cb := load_pipe p in
      store_pipe p (pipe_cb.mk (pipe_cb.reader cb) None (pipe_cb.BUFFER cb)
                    (pipe_cb.w_position cb) (pipe_cb.r_position cb)
                    (pipe_cb.counter cb)) ;;
      (if bool_decide (pipe_cb.reader cb = None) then free_pipe p
       else kernel_broadcast (has_data p)) ;;
      ret 0
  end.

Definition pipe_reader_close (_pipecb : option ptr) : K Z :=
  match _pipecb with
  | None => ret (-1)
  | Some p =>
      let* cb := load_pipe p in
      store_pipe p (pipe_cb.mk None (pipe_cb.writer cb) (pipe_cb.BUFFER cb)
                    (pipe_cb.w_position cb) (pipe_cb.r_position cb)
                    (pipe_cb.counter cb)) ;;
      (if bool_decide (pipe_cb.writer cb = None) then free_pipe p
       else kernel_broadcast (has_space p)) ;;
      ret 0
  end.

End Pipe.

(** ** Descriptors *)

Section Streams.
Context `{KernelConfig}.

(** Modelled from the spec: [get_fcb] of [kernel_streams.c], which is not
    among the sources.  "Invalid handle: fid out of range, FCB empty":
    the result is [NULL] for a fid outside [0, MAX_FILEID) and the entry
    of the current process's descriptor table otherwise. *)
Definition get_fcb (fid : Z) : K (option ptr) :=
  if (fid <? 0) || (MAX_FILEID <=? fid) then ret None
  else
    let* cur := gets CURPROC in
    let* pcb := load_PCB cur in
    deref OutOfBounds (array_get (PCB.FIDT pcb) fid).

(** The indices of the free entries of a descriptor table, from [i]. *)
Fixpoint free_fids (fidt : list (option ptr)) (i : Z) : list Z :=
  match fidt with
  | [] => []
  | None :: rest => i :: free_fids rest (i + 1)
  | Some _ :: rest => free_fids rest (i + 1)
  end.

Fixpoint bind_fcbs (fids : list Z) : K (list (Z * ptr)) :=
  match fids with
  | [] => ret []
  | fid :: rest =>
      let* ft := gets FT in
      let f := xmalloc ft in
      store_FCB f (FCB.mk 1 None None) ;;
      let* cur := gets CURPROC in
      let* pcb := load_PCB cur in
      let* fidt := deref OutOfBounds (array_set (PCB.FIDT pcb) fid (Some f)) in
      store_PCB cur (PCB_set_FIDT fidt pcb) ;;
      let* r := bind_fcbs rest in
      ret ((fid, f) :: r)
  end.

(** Modelled from the spec: [FCB_reserve(n, *fids, *fcbs)] of
    [kernel_streams.c], "a small interface for reserving descriptors":
    it takes the [n] lowest free fids of the current process, binds a new
    FCB (held once) to each, and fails without any change when fewer than
    [n] fids are free ("resource exhaustion: ... no free fid").  The pool
    of FCBs itself is not bounded here. *)
Definition FCB_reserve (num : nat) : K (option (list (Z * ptr))) :=
  let* cur := gets CURPROC in
  let* pcb := load_PCB cur in
  let fids := take num (free_fids (PCB.FIDT pcb) 0) in
  if (length fids <? num)%nat then ret None
  else let* r := bind_fcbs fids in ret (Some r).

(** The casts of [FCB.streamobj] to the type an operation expects. *)
Definition as_pipe (o : option stream_object) : K (option ptr) :=
  match o with
  | None => ret None
  | Some (PipeObj p) => ret (Some p)
  | Some _ => raise BadCast
  end.
Definition as_socket (o : option stream_object) : K (option ptr) :=
  match o with
  | None => ret None
  | Some (SocketObj p) => ret (Some p)
  | Some _ => raise BadCast
  end.
Definition as_info (o : option stream_object) : K (option ptr) :=
  match o with
  | None => ret None
  | Some (InfoObj p) => ret (Some p)
  | Some _ => raise BadCast
  end.

Definition set_streams (f : ptr) (o : stream_object) (ops : file_ops)
    : K unit :=
  let* fcb := load_FCB f in
  store_FCB f (FCB.mk (FCB.refcount fcb) (Some o) (Some ops)).

Definition new_pipe (reader writer : option ptr) : pipe_cb.t :=
  pipe_cb.mk reader writer
    (replicate (Z.to_nat PIPE_BUFFER_SIZE) x00) 0 0 0.

(** [sys_Pipe]: the result is the returned [int] and the two fids stored
    in [*pipe]. *)
Definition sys_Pipe : K (Z * option (Z * Z)) :=
  let* r := FCB_reserve 2 in
  match r with
  | Some [(fid0, fcb0); (fid1, fcb1)] =>
      let* ps := gets pipes in
      let P_CB := xmalloc ps in
      store_pipe P_CB (new_pipe (Some fcb0) (Some fcb1)) ;;
      set_streams fcb0 (PipeObj P_CB) reader_file_ops ;;
      set_streams fcb1 (PipeObj P_CB) writer_file_ops ;;
      ret (0, Some (fid0, fid1))
  | _ => ret (-1, None)
  end.

(** ** Sockets ([kernel_socket.c]) *)

Definition port_map_get (port : Z) : K (option ptr) :=
  fun s => deref OutOfBounds (array_get (PORT_MAP s) port) s.
Definition port_map_set (port : Z) (v : option ptr) : K unit :=
  fun s =>
    match array_set (PORT_MAP s) port v with
    | Some pm => Return tt (with_PORT_MAP (fun _ => pm) s)
    | None => Fault OutOfBounds
    end.

Definition update_socket (p : ptr) (f : socket_cb.t -> socket_cb.t)
    : K unit :=
  let* cb := load_socket p in store_socket p (f cb).

Definition socket_read (socket_cb_t : option ptr) (n : Z)
    : K (Z * list byte) :=
  match socket_cb_t with
  | None => ret (-1, [])
  | Some p =>
      let* cb := load_socket p in
      if bool_decide (socket_cb.read_pipe cb = None)
         || bool_decide (socket_cb.type cb <> SOCKET_PEER)
      then ret (-1, [])
      else pipe_read (socket_cb.read_pipe cb) n
  end.

Definition socket_write (socket_cb_t : option ptr) (buf : list byte) (n : Z)
    : K Z :=
  match socket_cb_t with
  | None => ret (-1)
  | Some p =>
      let* cb := load_socket p in
      if bool_decide (socket_cb.write_pipe cb = None)
         || bool_decide (socket_cb.type cb <> SOCKET_PEER)
      then ret (-1)
      else pipe_write (socket_cb.write_pipe cb) buf n
  end.

(** [if (pipe != NULL) { close(pipe); pipe = NULL; }] for the two pipes
    of a peer socket. *)
Definition shut_read (p : ptr) : K unit :=
  let* cb := load_socket p in
  if bool_decide (socket_cb.read_pipe cb <> None)
  then pipe_reader_close (socket_cb.read_pipe cb) ;;
       update_socket p (socket_cb_set_read_pipe None)
  else ret tt.
Definition shut_write (p : ptr) : K unit :=
  let* cb := load_socket p in
  if bool_decide (socket_cb.write_pipe cb <> None)
  then pipe_writer_close (socket_cb.write_pipe cb) ;;
       update_socket p (socket_cb_set_write_pipe None)
  else ret tt.

Definition socket_close (socket_cb_t : option ptr) : K Z :=
  match socket_cb_t with
  | None => ret (-1)
  | Some p =>
      let* cb := load_socket p in
      match socket_cb.type cb with
      | SOCKET_LISTENER =>
          port_map_set (socket_cb.port cb) None ;;
          kernel_broadcast (req_available p)
      | SOCKET_PEER => shut_read p ;; shut_write p
      | SOCKET_UNBOUND => ret tt
      end ;;
      let* cb := load_socket p in
      let refcount := uint (socket_cb.refcount cb - 1) in
      store_socket p (socket_cb_set_refcount refcount cb) ;;
      (if refcount =? 0 then free_socket p else ret tt) ;;
      ret 0
  end.

Definition sys_Socket (port : Z) : K Z :=
  if (MAX_PORT <? port) || (port <? 0) then ret NOFILE
  else if 0 =? NOFILE then ret NOFILE
  else
    let* r := FCB_reserve 1 in
    match r with
    | Some [(fid, fcb)] =>
        let* ss := gets sockets in
        let s_cb := xmalloc ss in
        store_socket s_cb
          (socket_cb.mk 0 (Some fcb) SOCKET_UNBOUND port [] None None None) ;;
        set_streams fcb (SocketObj s_cb) socket_fileops ;;
        ret fid
    | _ => ret NOFILE
    end.

Definition sys_Listen (sock : Z) : K Z :=
  let* CUR_FCB := get_fcb sock in
  match CUR_FCB with
  | None => ret (-1)
  | Some f =>
      if sock =? NOFILE then ret (-1)
      else
        let* fcb := load_FCB f in
        let* so := as_socket (FCB.streamobj fcb) in
        match so with
        | None => ret (-1)
        | Some s_cb =>
            let* cb := load_socket s_cb in
            if (socket_cb.port cb <? 0) || (MAX_PORT <? socket_cb.port cb)
            then ret (-1)
            else
              let* bound := port_map_get (socket_cb.port cb) in
              if bool_decide (bound <> None) then ret (-1)
              else if socket_cb.port cb =? NOPORT then ret (-1)
              else if bool_decide (socket_cb.type cb <> SOCKET_UNBOUND)
              then ret (-1)
              else
                port_map_set (socket_cb.port cb) (Some s_cb) ;;
                store_socket s_cb
                  (socket_cb_set_queue [] (socket_cb_set_type SOCKET_LISTENER cb)) ;;
                ret 0
        end
  end.

(** The part of [sys_Accept] after its waiting loop.  [rlist_pop_front]
    on an empty queue yields the list head, whose [connection_request]
    is [NULL]: reading [this_request->peer] is then a null dereference. *)
Definition sys_Accept_admit (this_socket : ptr) : K Z :=
  let* cb := load_socket this_socket in
  let* bound := port_map_get (socket_cb.port cb) in
  if bool_decide (bound = None) then ret NOFILE
  else
    match socket_cb.queue cb with
    | [] => raise NullDeref
    | this_request :: rest =>
        store_socket this_socket (socket_cb_set_queue rest cb) ;;
        let* req := load_request this_request in
        match connection_request.peer req with
        | None => ret NOFILE
        | Some socket_cb1 =>
            let* cb1 := load_socket socket_cb1 in
            if bool_decide (socket_cb.type cb1 <> SOCKET_UNBOUND)
            then ret NOFILE
            else
              let* s1 := sys_Socket (socket_cb.port cb1) in
              let* S2 := get_fcb s1 in
              if s1 =? NOFILE then ret NOFILE
              else
                let* f2 := deref NullDeref S2 in
                let* fcb2 := load_FCB f2 in
                let* so := as_socket (FCB.streamobj fcb2) in
                match so with
                | None => ret NOFILE
                | Some socket_cb2 =>
                    update_socket socket_cb1 (socket_cb_set_type SOCKET_PEER) ;;
                    update_socket socket_cb2 (socket_cb_set_type SOCKET_PEER) ;;
                    let* cb1 := load_socket socket_cb1 in
                    let* cb2 := load_socket socket_cb2 in
                    let* ps := gets pipes in
                    let this_1st_Pipe := xmalloc ps in
                    store_pipe this_1st_Pipe
                      (new_pipe (socket_cb.fcb cb1) (socket_cb.fcb cb2)) ;;
                    let* ps := gets pipes in
                    let this_2nd_Pipe := xmalloc ps in
                    store_pipe this_2nd_Pipe
                      (new_pipe (socket_cb.fcb cb2) (socket_cb.fcb cb1)) ;;
                    update_socket socket_cb1
                      (fun cb =>
                         socket_cb_set_write_pipe (Some this_2nd_Pipe)
                           (socket_cb_set_read_pipe (Some this_1st_Pipe)
                              (socket_cb_set_peer (Some socket_cb2) cb))) ;;
                    update_socket socket_cb2
                      (fun cb =>
                         socket_cb_set_write_pipe (Some this_1st_Pipe)
                           (socket_cb_set_read_pipe (Some this_2nd_Pipe)
                              (socket_cb_set_peer (Some socket_cb1) cb))) ;;
                    let* req := load_request this_request in
                    store_request this_request
                      (connection_request.mk 1 (connection_request.peer req)) ;;
                    kernel_signal (connected_cv this_request) ;;
                    update_socket this_socket
                      (fun cb =>
                         socket_cb_set_refcount
                           (uint (socket_cb.refcount cb - 1)) cb) ;;
                    ret s1
                end
        end
    end.

(** [sys_Accept] from the head of its waiting loop: where the call
    continues when woken from [kernel_wait(&req_available)]. *)
Definition sys_Accept_wait (this_socket : ptr) : K Z :=
  let* cb := load_socket this_socket in
  if bool_decide (socket_cb.queue cb = [])
     && negb (socket_cb.refcount cb =? 0)
  then
    let* bound := port_map_get (socket_cb.port cb) in
    if bool_decide (bound = None) then ret NOFILE
    else kernel_wait (req_available this_socket)
  else sys_Accept_admit this_socket.

Definition sys_Accept (lsock : Z) : K Z :=
  let* fcb := get_fcb lsock in
  match fcb with
  | None => ret NOFILE
  | Some f =>
      let* fcb := load_FCB f in
      let* so := as_socket (FCB.streamobj fcb) in
      match so with
      | None => ret NOFILE
      | Some this_socket =>
          let* cb := load_socket this_socket in
          if (socket_cb.port cb <? 0) || (MAX_PORT <? socket_cb.port cb)
          then ret NOFILE
          else if bool_decide (socket_cb.type cb <> SOCKET_LISTENER)
          then ret NOFILE
          else
            store_socket this_socket
              (socket_cb_set_refcount (uint (socket_cb.refcount cb + 1)) cb) ;;
            sys_Accept_wait this_socket
      end
  end.

(** [sys_Connect] after [kernel_timedwait] has returned [signalled]
    (0 when the timeout expired).  [connect->admitted] is read by the C
    code after [free(connect)]; nothing is allocated in between, so the
    value read is the one the request held when it was freed. *)
Definition sys_Connect_wake (socket connect : ptr) (signalled : bool)
    : K Z :=
  if negb signalled then ret (-1)
  else
    let* req := load_request connect in
    free_request connect ;;
    let* cb := load_socket socket in
    if socket_cb.refcount cb =? 0 then free_socket socket ;; ret (-1)
    else
      store_socket socket
        (socket_cb_set_refcount (uint (socket_cb.refcount cb - 1)) cb) ;;
      if connection_request.admitted req =? 0 then ret (-1) else ret 0.

(** [sys_Connect] up to its suspension in [kernel_timedwait]; the
    request allocated is the one named by the condition variable. *)
Definition sys_Connect (sock port timeout : Z) : K Z :=
  let* curr := get_fcb sock in
  match curr with
  | None => ret (-1)
  | Some f =>
      let* fcb := load_FCB f in
      let* so := as_socket (FCB.streamobj fcb) in
      match so with
      | None => ret (-1)
      | Some socket =>
          let* cb := load_socket socket in
          if bool_decide (socket_cb.type cb <> SOCKET_UNBOUND) then ret (-1)
          else if (port <? 0) || (MAX_PORT <? port) then ret (-1)
          else
            let* bound := port_map_get port in
            match bound with
            | None => ret (-1)
            | Some listener =>
                store_socket socket
                  (socket_cb_set_refcount
                     (uint (socket_cb.refcount cb + 1)) cb) ;;
                let* rs := gets requests in
                let connect := xmalloc rs in
                store_request connect (connection_request.mk 0 (Some socket)) ;;
                update_socket listener
                  (fun l => socket_cb_set_queue (socket_cb.queue l ++ [connect]) l) ;;
                kernel_signal (req_available listener) ;;
                kernel_timedwait (connected_cv connect) timeout
            end
      end
  end.

Inductive shutdown_mode :=
| SHUTDOWN_READ
| SHUTDOWN_WRITE
| SHUTDOWN_BOTH
| SHUTDOWN_other (how : Z).

Definition sys_ShutDown (sock : Z) (how : shutdown_mode) : K Z :=
  let* fcb := get_fcb sock in
  match fcb with
  | None => ret (-1)
  | Some f =>
      if (sock <? 0) || (MAX_FILEID <? sock) then ret (-1)
      else
        let* fcb := load_FCB f in
        let* so := as_socket (FCB.streamobj fcb) in
        match so with
        | None => ret (-1)
        | Some socket =>
            let* cb := load_socket socket in
            if bool_decide (socket_cb.type cb <> SOCKET_PEER) then ret (-1)
            else
              match how with
              | SHUTDOWN_READ => shut_read socket ;; ret 0
              | SHUTDOWN_WRITE => shut_write socket ;; ret 0
              | SHUTDOWN_BOTH => shut_read socket ;; shut_write socket ;; ret 0
              | SHUTDOWN_other _ => ret (-1)
              end
        end
  end.

(** Modelled from the spec: [FCB_decref] of [kernel_streams.c],
    "[FCB_incref/decref] adjusts lifetime; when the stream vtable's
    [Close] is invoked and no other fid refers to that FCB, the
    descriptor slot is recycled": the count drops by one, and at zero the
    [Close] of the stream is called and the FCB released. *)
Definition FCB_decref (f : ptr) : K Z :=
  let* fcb := load_FCB f in
  let refcount := uint (FCB.refcount fcb - 1) in
  store_FCB f (FCB.mk refcount (FCB.streamobj fcb) (FCB.streamfunc fcb)) ;;
  if refcount =? 0 then
    let* retval :=
      match FCB.streamfunc fcb with
      | None => raise NullDeref
      | Some reader_file_ops =>
          let* o := as_pipe (FCB.streamobj fcb) in pipe_reader_close o
      | Some writer_file_ops =>
          let* o := as_pipe (FCB.streamobj fcb) in pipe_writer_close o
      | Some socket_fileops =>
          let* o := as_socket (FCB.streamobj fcb) in socket_close o
      | Some procinfo_file_ops =>
          let* o := as_info (FCB.streamobj fcb) in
          match o with
          | Some p => modify (with_infos (delete p)) ;; ret 0
          | None => ret (-1)
          end
      end in
    modify (with_FT (delete f)) ;;
    ret retval
  else ret 0.

End Streams.

(** ** Threads ([kernel_threads.c]) and the exit path *)

Section Threads.
Context `{KernelConfig}.

Definition update_ptcb (t : ptr) (f : PTCB.t -> PTCB.t) : K unit :=
  let* ptcb := load_ptcb t in store_ptcb t (f ptcb).
Definition update_PCB (pid : Z) (f : PCB.t -> PCB.t) : K unit :=
  let* pcb := load_PCB pid in store_PCB pid (f pcb).

(** [rlist_remove(&ptcb->ptcb_list_node)]: the node leaves the list it
    is linked in, whichever process owns it. *)
Definition rlist_remove_ptcb (t : ptr) : K unit :=
  modify (with_PT (map (fun pcb =>
    PCB_set_ptcb_list (filter (fun x => x <> t) (PCB.ptcb_list pcb)) pcb))).

(** [aquire_PTCB]; [owner] is [tcb->owner_pcb] and the result the new
    [tcb->ptcb]. *)
Definition aquire_PTCB (owner : Z) (tcb : option ptr) (argl : Z) : K ptr :=
  let* ts := gets ptcbs in
  let ptcb := xmalloc ts in
  store_ptcb ptcb (PTCB.mk tcb argl 0 0 0 0) ;;
  update_PCB owner
    (fun pcb => PCB_set_ptcb_list (PCB.ptcb_list pcb ++ [ptcb]) pcb) ;;
  ret ptcb.

Definition sys_ThreadSelf : K (option ptr) := gets cur_thread_ptcb.

(** [sys_ThreadJoin] from the head of its waiting loop: where the call
    continues when woken from [kernel_wait(&exit_cv)].  [exitval] tells
    whether the [int*] argument is non-null; the result is the returned
    [int] and the value stored through the pointer, if any. *)
Definition sys_ThreadJoin_wait (t : ptr) (exitval : bool)
    : K (Z * option Z) :=
  let* ptcb := load_ptcb t in
  if negb (PTCB.exited ptcb =? 1) && negb (PTCB.detached ptcb =? 1)
  then kernel_wait (exit_cv t)
  else
    let refcount := PTCB.refcount ptcb - 1 in
    store_ptcb t (PTCB_set_refcount refcount ptcb) ;;
    if PTCB.detached ptcb =? 1 then ret (-1, None)
    else
      (if refcount =? 0 then rlist_remove_ptcb t ;; free_ptcb t
       else ret tt) ;;
      ret (0, if exitval then Some (PTCB.exitval ptcb) else None).

(** [rlist_find] compares node keys, so a null [tid] is never found. *)
Definition sys_ThreadJoin (tid : option ptr) (exitval : bool)
    : K (Z * option Z) :=
  match tid with
  | None => ret (-1, None)
  | Some t =>
      let* cur := gets CURPROC in
      let* curproc := load_PCB cur in
      if bool_decide (t ∉ PCB.ptcb_list curproc) then ret (-1, None)
      else
        let* me := gets cur_thread_ptcb in
        if bool_decide (Some t = me) then ret (-1, None)
        else
          let* ptcb := load_ptcb t in
          if PTCB.detached ptcb =? 1 then ret (-1, None)
          else
            store_ptcb t (PTCB_set_refcount (PTCB.refcount ptcb + 1) ptcb) ;;
            sys_ThreadJoin_wait t exitval
  end.

Definition sys_ThreadDetach (tid : option ptr) : K Z :=
  match tid with
  | None => ret (-1)
  | Some t =>
      let* cur := gets CURPROC in
      let* curproc := load_PCB cur in
      if bool_decide (t ∉ PCB.ptcb_list curproc) then ret (-1)
      else
        let* temp := load_ptcb t in
        if PTCB.exited temp =? 1 then ret (-1)
        else
          store_ptcb t (PTCB_set_detached 1 temp) ;;
          kernel_broadcast (exit_cv t) ;;
          ret 0
  end.

(** [get_pcb] of [kernel_proc.c]: a [PCB*] is its pid. *)
Definition get_pcb (pid : Z) : K (option Z) :=
  let* pcb := load_PCB pid in
  ret (if bool_decide (PCB.pstate pcb = FREE) then None else Some pid).

(** The reparenting loop of [sys_ThreadExit]; [children] is the
    children list of [curproc] when the loop is entered, and every round
    pops its front. *)
Fixpoint reparent_children (curproc : Z) (initpcb : option Z)
    (children : list Z) : K unit :=
  match children with
  | [] => ret tt
  | child :: rest =>
      update_PCB curproc (PCB_set_children_list rest) ;;
      update_PCB child (PCB_set_parent initpcb) ;;
      let* init := deref NullDeref initpcb in
      update_PCB init
        (fun pcb => PCB_set_children_list (child :: PCB.children_list pcb) pcb) ;;
      reparent_children curproc initpcb rest
  end.

(** [for(int i=0;i<MAX_FILEID;i++)] over the descriptor table; [todo] is
    [MAX_FILEID - i]. *)
Fixpoint close_fids (curproc : Z) (todo : nat) (i : Z) : K unit :=
  match todo with
  | O => ret tt
  | S todo' =>
      let* pcb := load_PCB curproc in
      let* entry := deref OutOfBounds (array_get (PCB.FIDT pcb) i) in
      match entry with
      | Some f =>
          FCB_decref f ;;
          let* pcb := load_PCB curproc in
          let* fidt := deref OutOfBounds (array_set (PCB.FIDT pcb) i None) in
          store_PCB curproc (PCB_set_FIDT fidt pcb)
      | None => ret tt
      end ;;
      close_fids curproc todo' (i + 1)
  end.

(** The loop that pops and frees every PTCB of the exiting process. *)
Fixpoint free_ptcb_list (curproc : Z) (l : list ptr) : K unit :=
  match l with
  | [] => ret tt
  | temp :: rest =>
      update_PCB curproc (PCB_set_ptcb_list rest) ;;
      free_ptcb temp ;;
      free_ptcb_list curproc rest
  end.

Definition assert (b : bool) : K unit :=
  if b then ret tt else raise AssertFailed.

(** The block of [sys_ThreadExit] guarded by [get_pid(curproc)!=1]:
    the children go to the initial task, the exited children too, and the
    process enters its parent's exited list. *)
Definition hand_over_children (cur : Z) : K unit :=
  let* initpcb := get_pcb 1 in
  let* curproc := load_PCB cur in
  reparent_children cur initpcb (PCB.children_list curproc) ;;
  let* curproc := load_PCB cur in
  (if negb (bool_decide (PCB.exited_list curproc = [])) then
     let* init := deref NullDeref initpcb in
     update_PCB init
       (fun pcb =>
          PCB_set_exited_list
            (PCB.exited_list pcb ++ PCB.exited_list curproc) pcb) ;;
     update_PCB cur (PCB_set_exited_list []) ;;
     kernel_broadcast (child_exit init)
   else ret tt) ;;
  let* curproc := load_PCB cur in
  let* parent := deref NullDeref (PCB.parent curproc) in
  update_PCB parent
    (fun pcb => PCB_set_exited_list (cur :: PCB.exited_list pcb) pcb) ;;
  kernel_broadcast (child_exit parent).

(** The rest of the last-thread branch: the two assertions, then the
    arguments, the descriptors and the thread handles are released and the
    process becomes a zombie. *)
Definition release_process (cur : Z) : K unit :=
  let* curproc := load_PCB cur in
  assert (bool_decide (PCB.children_list curproc = [])) ;;
  assert (bool_decide (PCB.exited_list curproc = [])) ;;
  update_PCB cur (PCB_set_args None) ;;
  close_fids cur (Z.to_nat MAX_FILEID) 0 ;;
  let* curproc := load_PCB cur in
  free_ptcb_list cur (PCB.ptcb_list curproc) ;;
  update_PCB cur (PCB_set_main_thread None) ;;
  update_PCB cur (PCB_set_pstate ZOMBIE).

(** The branch of [sys_ThreadExit] taken by the last thread of a
    process. *)
Definition process_cleanup (cur : Z) : K unit :=
  (if negb (cur =? 1) then hand_over_children cur else ret tt) ;;
  release_process cur.

(** [sys_ThreadExit] does not return: it ends in
    [kernel_sleep(EXITED, SCHED_USER)]. *)
Definition sys_ThreadExit (exitval : Z) : K unit :=
  let* me := gets cur_thread_ptcb in
  let* ptcb := deref NullDeref me in
  update_ptcb ptcb (PTCB_set_exitval exitval) ;;
  update_ptcb ptcb (PTCB_set_exited 1) ;;
  let* cur := gets CURPROC in
  kernel_broadcast (exit_cv ptcb) ;;
  let* curproc := load_PCB cur in
  let thread_count := PCB.thread_count curproc - 1 in
  store_PCB cur (PCB_set_thread_count thread_count curproc) ;;
  (if thread_count =? 0 then process_cleanup cur else ret tt) ;;
  kernel_sleep_EXITED.

End Threads.

(** ** Processes ([kernel_proc.c]) *)

(** The two globals of [kernel_proc.c] beside [PT]: the head of the free
    list of PCBs and the [unsigned int process_count].  The functions that
    use them take their value and give back the new one. *)
Record proc_globals := mk_globals {
  pcb_freelist : option Z;
  process_count : Z
}.


Definition PCB_set_exitval (x : Z) (r : PCB.t) : PCB.t :=
  PCB.mk (PCB.pstate r) (PCB.parent r) x (PCB.main_thread r) (PCB.argl r)
    (PCB.args r) (PCB.children_list r) (PCB.exited_list r) (PCB.FIDT r)
    (PCB.ptcb_list r) (PCB.thread_count r).
Definition PCB_set_argl (x : Z) (r : PCB.t) : PCB.t :=
  PCB.mk (PCB.pstate r) (PCB.parent r) (PCB.exitval r) (PCB.main_thread r) x
    (PCB.args r) (PCB.children_list r) (PCB.exited_list r) (PCB.FIDT r)
    (PCB.ptcb_list r) (PCB.thread_count r).

Section Processes.
Context `{KernelConfig}.

(** Modelled from the spec: the scheduler's
    "[spawn_thread(pcb, entry) -> TCB]" of [kernel_sched.c], which is not
    among the sources; its result is some TCB, which may depend on the
    state and on the owner.  [wakeup(TCB)] acts on the scheduler queues
    only, which the kernel state does not hold. *)
Variable spawn_thread : kernel -> Z -> ptr.

(** [PROCINFO_MAX_ARGS_SIZE] of [tinyos.h]. *)
Variable PROCINFO_MAX_ARGS_SIZE : Z.

(** [pcb==NULL ? NOPROC : pcb-PT] *)
Definition get_pid (pcb : option Z) : Z :=
  match pcb with None => NOPROC | Some pid => pid end.

(** [for(int i=0;i<MAX_FILEID;i++) pcb->FIDT[i] = NULL;] with [todo]
    being [MAX_FILEID - i]. *)
Fixpoint clear_fids (todo : nat) (i : Z) (fidt : list (option ptr))
    : option (list (option ptr)) :=
  match todo with
  | O => Some fidt
  | S todo' =>
      match array_set fidt i None with
      | Some fidt' => clear_fids todo' (i + 1) fidt'
      | None => None
      end
  end.

(** [initialize_PCB(&PT[pid])]; the function pointer [main_task] apart,
    the fields it does not assign keep their value. *)
Definition initialize_PCB (pid : Z) : K unit :=
  let* pcb := load_PCB pid in
  let* fidt :=
    deref OutOfBounds (clear_fids (Z.to_nat MAX_FILEID) 0 (PCB.FIDT pcb)) in
  store_PCB pid
    (PCB.mk FREE (PCB.parent pcb) (PCB.exitval pcb) (PCB.main_thread pcb)
       0 None [] [] fidt [] 0).

(** [for(Pid_t p=0; p<MAX_PROC; p++) initialize_PCB(&PT[p]);] with [todo]
    being [MAX_PROC - p]. *)
Fixpoint initialize_PCBs (todo : nat) (p : Z) : K unit :=
  match todo with
  | O => ret tt
  | S todo' => initialize_PCB p ;; initialize_PCBs todo' (p + 1)
  end.

(** The loop that threads the free list through [parent], from
    [PT+MAX_PROC] down to [PT]; [todo] is [pcbiter - PT]. *)
Fixpoint build_freelist (todo : nat) (freelist : option Z) : K (option Z) :=
  match todo with
  | O => ret freelist
  | S todo' =>
      update_PCB (Z.of_nat todo') (PCB_set_parent freelist) ;;
      build_freelist todo' (Some (Z.of_nat todo'))
  end.

Definition acquire_PCB (g : proc_globals) : K (option Z * proc_globals) :=
  match pcb_freelist g with
  | Some pcb =>
      update_PCB pcb (PCB_set_pstate ALIVE) ;;
      let* p := load_PCB pcb in
      ret (Some pcb, mk_globals (PCB.parent p) (uint (process_count g + 1)))
  | None => ret (None, g)
  end.

Definition release_PCB (g : proc_globals) (pcb : Z) : K proc_globals :=
  update_PCB pcb (PCB_set_pstate FREE) ;;
  update_PCB pcb (PCB_set_parent (pcb_freelist g)) ;;
  ret (mk_globals (Some pcb) (uint (process_count g - 1))).

(** Modelled from the spec: [FCB_incref] of [kernel_streams.c],
    "[FCB_incref/decref] adjusts lifetime": one more holder of the
    FCB. *)
Definition FCB_incref (f : ptr) : K unit :=
  let* fcb := load_FCB f in
  store_FCB f (FCB.mk (uint (FCB.refcount fcb + 1)) (FCB.streamobj fcb)
                 (FCB.streamfunc fcb)).

(** The loop of [sys_Exec] that copies the descriptor table of the
    parent; [todo] is [MAX_FILEID - i]. *)
Fixpoint inherit_fids (curproc newproc : Z) (todo : nat) (i : Z) : K unit :=
  match todo with
  | O => ret tt
  | S todo' =>
      let* cur := load_PCB curproc in
      let* entry := deref OutOfBounds (array_get (PCB.FIDT cur) i) in
      let* new := load_PCB newproc in
      let* fidt := deref OutOfBounds (array_set (PCB.FIDT new) i entry) in
      store_PCB newproc (PCB_set_FIDT fidt new) ;;
      match entry with
      | Some f => FCB_incref f
      | None => ret tt
      end ;;
      inherit_fids curproc newproc todo' (i + 1)
  end.

(** [malloc(argl)] and [memcpy(newproc->args, args, argl)]: [argl] bytes
    are read from [args]. *)
Definition copy_args (args : list byte) (argl : Z) : option (list byte) :=
  if (argl <? 0) || (Z.of_nat (length args) <? argl) then None
  else Some (take (Z.to_nat argl) args).

(** [sys_Exec]; [call] is the task, [None] for a null pointer.  The
    result is the returned pid. *)
Definition sys_Exec (g : proc_globals) (call : option ptr) (argl : Z)
    (args : option (list byte)) : K (Z * proc_globals) :=
  let* acquired := acquire_PCB g in
  let (newproc, g') := acquired in
  match newproc with
  | None => ret (get_pid newproc, g')
  | Some new =>
      (if get_pid newproc <=? 1 then update_PCB new (PCB_set_parent None)
       else
         let* curproc := gets CURPROC in
         update_PCB new (PCB_set_parent (Some curproc)) ;;
         update_PCB curproc
           (fun pcb =>
              PCB_set_children_list (new :: PCB.children_list pcb) pcb) ;;
         inherit_fids curproc new (Z.to_nat MAX_FILEID) 0) ;;
      update_PCB new (PCB_set_argl argl) ;;
      match args with
      | Some bytes =>
          let* copy := deref OutOfBounds (copy_args bytes argl) in
          update_PCB new (PCB_set_args (Some copy))
      | None => update_PCB new (PCB_set_args None)
      end ;;
      match call with
      | Some _ =>
          let* s := gets (fun s => s) in
          let tcb := spawn_thread s new in
          update_PCB new (PCB_set_main_thread (Some tcb)) ;;
          aquire_PTCB new (Some tcb) argl ;;
          update_PCB new
            (fun pcb => PCB_set_thread_count (PCB.thread_count pcb + 1) pcb)
      | None => ret tt
      end ;;
      ret (get_pid newproc, g')
  end.

(** [initialize_processes]; the result is the globals it leaves.  [Exec]
    is the system call served by [sys_Exec], and [FATAL] aborts the
    kernel. *)
Definition initialize_processes : K proc_globals :=
  initialize_PCBs (Z.to_nat MAX_PROC) 0 ;;
  let* freelist := build_freelist (Z.to_nat MAX_PROC) None in
  let* r := sys_Exec (mk_globals freelist 0) None 0 None in
  if negb (fst r =? 0) then raise AssertFailed else ret (snd r).

(** [sys_CreateThread]; the result is the [Tid_t], the new PTCB. *)
Definition sys_CreateThread (argl : Z) : K ptr :=
  let* curproc := gets CURPROC in
  let* s := gets (fun s => s) in
  let new_thread := spawn_thread s curproc in
  let* ptcb := aquire_PTCB curproc (Some new_thread) argl in
  update_PCB curproc
    (fun pcb => PCB_set_thread_count (PCB.thread_count pcb + 1) pcb) ;;
  ret ptcb.

Definition sys_GetPid : K Z :=
  let* curproc := gets CURPROC in ret (get_pid (Some curproc)).

Definition sys_GetPPid : K Z :=
  let* curproc := gets CURPROC in
  let* pcb := load_PCB curproc in
  ret (get_pid (PCB.parent pcb)).

(** [rlist_remove] of the [children_node] and of the [exited_node] of a
    process: the node leaves the list it is linked in. *)
Definition rlist_remove_children_node (pid : Z) : K unit :=
  modify (with_PT (map (fun pcb =>
    PCB_set_children_list (filter (fun x => x <> pid) (PCB.children_list pcb))
      pcb))).
Definition rlist_remove_exited_node (pid : Z) : K unit :=
  modify (with_PT (map (fun pcb =>
    PCB_set_exited_list (filter (fun x => x <> pid) (PCB.exited_list pcb))
      pcb))).

(** [cleanup_zombie]; [status] tells whether the [int*] is non-null, and
    the result holds the value stored through it. *)
Definition cleanup_zombie (g : proc_globals) (pcb : Z) (status : bool)
    : K (option Z * proc_globals) :=
  let* p := load_PCB pcb in
  let out := if status then Some (PCB.exitval p) else None in
  rlist_remove_children_node pcb ;;
  rlist_remove_exited_node pcb ;;
  let* g' := release_PCB g pcb in
  ret (out, g').

(** [wait_for_specific_child] from the head of its waiting loop: where
    the call continues when woken from [kernel_wait(&child_exit)].  The
    result is the returned pid, the value stored in [*status] and the
    globals. *)
Definition wait_for_specific_child_wait (g : proc_globals) (cpid : Z)
    (status : bool) : K (Z * option Z * proc_globals) :=
  let* parent := gets CURPROC in
  let* child := load_PCB cpid in
  if bool_decide (PCB.pstate child = ALIVE)
  then kernel_wait (child_exit parent)
  else
    let* r := cleanup_zombie g cpid status in
    ret (cpid, fst r, snd r).

Definition wait_for_specific_child (g : proc_globals) (cpid : Z)
    (status : bool) : K (Z * option Z * proc_globals) :=
  if (cpid <? 0) || (MAX_PROC <=? cpid) then ret (NOPROC, None, g)
  else
    let* parent := gets CURPROC in
    let* child := get_pcb cpid in
    match child with
    | None => ret (NOPROC, None, g)
    | Some c =>
        let* pcb := load_PCB c in
        if bool_decide (PCB.parent pcb <> Some parent)
        then ret (NOPROC, None, g)
        else wait_for_specific_child_wait g cpid status
    end.

(** [wait_for_any_child]: the call starts at the head of its loop, and
    continues there when woken. *)
Definition wait_for_any_child (g : proc_globals) (status : bool)
    : K (Z * option Z * proc_globals) :=
  let* cur := gets CURPROC in
  let* parent := load_PCB cur in
  if bool_decide (PCB.children_list parent = []) then ret (NOPROC, None, g)
  else
    match PCB.exited_list parent with
    | [] => kernel_wait (child_exit cur)
    | child :: _ =>
        let* pcb := load_PCB child in
        assert (bool_decide (PCB.pstate pcb = ZOMBIE)) ;;
        let* r := cleanup_zombie g child status in
        ret (get_pid (Some child), fst r, snd r)
    end.

Definition sys_WaitChild (g : proc_globals) (cpid : Z) (status : bool)
    : K (Z * option Z * proc_globals) :=
  if negb (cpid =? NOPROC) then wait_for_specific_child g cpid status
  else wait_for_any_child g status.

(** [while(sys_WaitChild(NOPROC,NULL)!=NOPROC);] of [sys_Exit], from the
    call of [sys_WaitChild]: where the loop starts and where it continues
    when the call is woken.  [fuel] bounds the rounds, and the result is
    [None] when it does not suffice; otherwise it is the globals and the
    outcome of the loop. *)
Fixpoint sys_Exit_reap (fuel : nat) (g : proc_globals) (s : kernel)
    : option (proc_globals * outcome unit) :=
  match sys_WaitChild g NOPROC false s with
  | Return (cpid, _, g') s' =>
      if cpid =? NOPROC then Some (g', Return tt s')
      else
        match fuel with
        | O => None
        | S fuel' => sys_Exit_reap fuel' g' s'
        end
  | Suspended w s' => Some (g, Suspended w s')
  | Fault f => Some (g, Fault f)
  end.

(** [sys_Exit] from the loop of the initial process on: where the call
    continues when the initial process is woken in its loop. *)
Definition sys_Exit_loop (fuel : nat) (g : proc_globals) (exitval : Z)
    (s : kernel) : option (proc_globals * outcome unit) :=
  match sys_Exit_reap fuel g s with
  | Some (g', Return _ s') => Some (g', sys_ThreadExit exitval s')
  | r => r
  end.

(** [sys_Exit] does not return: it ends in [sys_ThreadExit]. *)
Definition sys_Exit (fuel : nat) (g : proc_globals) (exitval : Z)
    (s : kernel) : option (proc_globals * outcome unit) :=
  match (let* curproc := gets CURPROC in
         update_PCB curproc (PCB_set_exitval exitval) ;;
         ret curproc) s with
  | Return curproc s1 =>
      if get_pid (Some curproc) =? 1 then sys_Exit_loop fuel g exitval s1
      else Some (g, sys_ThreadExit exitval s1)
  | Suspended w s1 => Some (g, Suspended w s1)
  | Fault f => Some (g, Fault f)
  end.

(** [sys_OpenInfo]. *)
Definition sys_OpenInfo : K Z :=
  let* r := FCB_reserve 1 in
  match r with
  | Some [(fid, fcb)] =>
      let* heap := gets infos in
      let info_proc := xmalloc heap in
      modify (with_infos (insert info_proc 0)) ;;
      set_streams fcb (InfoObj info_proc) procinfo_file_ops ;;
      ret fid
  | _ => ret (-1)
  end.



Definition procinfo_close (this : option ptr) : K Z :=
  match this with
  | Some proc => modify (with_infos (delete proc)) ;; ret 0
  | None => ret (-1)
  end.

End Processes.

(** * Properties *)

(** ** A small configuration and boot state for the concrete runs *)

Definition small_config : KernelConfig :=
  {| MAX_PORT := 1023; MAX_FILEID := 16; MAX_PROC := 8;
     PIPE_BUFFER_SIZE := 8 |}.

Definition empty_PCB (st : pid_state) (parent : option Z) (threads : Z)
    : PCB.t :=
  PCB.mk st parent 0 None 0 None [] [] (replicate 16 None) [] threads.

(** Pids 0 and 1 alive and parentless, every other slot free, no open
    descriptor, no port bound; the running thread belongs to [cur]. *)
Definition boot (cur : Z) (me : option ptr) : kernel :=
  mkKernel
    (empty_PCB ALIVE None 1 :: empty_PCB ALIVE None 1
       :: replicate 6 (empty_PCB FREE None 0))
    cur me ∅ ∅ ∅ ∅ ∅ ∅ (replicate 1023 None) [].

(** The state an outcome leaves, when it leaves one. *)
Definition state_of {A} (o : outcome A) : option kernel :=
  match o with
  | Return _ s => Some s
  | Suspended _ s => Some s
  | Fault _ => None
  end.

(** ** Pipes: the ring discipline *)

Section PipeFacts.
Context `{KernelConfig}.
Hypothesis buffer_size_pos : 0 < PIPE_BUFFER_SIZE.

Definition ring_ok (cb : pipe_cb.t) : Prop :=
  0 <= pipe_cb.r_position cb < PIPE_BUFFER_SIZE /\
  0 <= pipe_cb.w_position cb < PIPE_BUFFER_SIZE.

(** The number of bytes written and not yet read. *)
Definition ring_used (cb : pipe_cb.t) : Z :=
  (pipe_cb.w_position cb - pipe_cb.r_position cb) mod PIPE_BUFFER_SIZE.

Lemma ring_used_cases cb :
  ring_ok cb ->
  ring_used cb =
    if pipe_cb.r_position cb <=? pipe_cb.w_position cb
    then pipe_cb.w_position cb - pipe_cb.r_position cb
    else pipe_cb.w_position cb - pipe_cb.r_position cb + PIPE_BUFFER_SIZE.
Proof.
  intros [Hr Hw]. unfold ring_used.
  destruct (Z.leb_spec (pipe_cb.r_position cb) (pipe_cb.w_position cb)).
  - apply Z.mod_small. lia.
  - symmetry. apply (Z.mod_unique _ _ (-1)); lia.
Qed.

Lemma succ_mod_cases x :
  0 <= x < PIPE_BUFFER_SIZE ->
  (x + 1) mod PIPE_BUFFER_SIZE = if PIPE_BUFFER_SIZE <=? x + 1 then 0 else x + 1.
Proof.
  intros Hx. destruct (Z.leb_spec PIPE_BUFFER_SIZE (x + 1)).
  - symmetry. apply (Z.mod_unique _ _ 1); lia.
  - apply Z.mod_small. lia.
Qed.

Lemma advance_mod x :
  0 <= x < PIPE_BUFFER_SIZE -> advance x = (x + 1) mod PIPE_BUFFER_SIZE.
Proof. intros Hx. unfold advance. now rewrite succ_mod_cases. Qed.

Lemma advance_range x :
  0 <= x < PIPE_BUFFER_SIZE -> 0 <= advance x < PIPE_BUFFER_SIZE.
Proof. intros Hx. unfold advance. destruct (Z.leb_spec PIPE_BUFFER_SIZE (x + 1)); lia. Qed.

Lemma ring_used_range cb :
  ring_ok cb -> 0 <= ring_used cb <= PIPE_BUFFER_SIZE - 1.
Proof.
  intros Hok. pose proof (Z.mod_pos_bound
    (pipe_cb.w_position cb - pipe_cb.r_position cb) PIPE_BUFFER_SIZE
    buffer_size_pos). unfold ring_used. lia.
Qed.

(** The code's test for a full ring, against the count of held bytes. *)
Lemma ring_full_spec cb :
  ring_ok cb ->
  ring_full cb = true <-> ring_used cb = PIPE_BUFFER_SIZE - 1.
Proof.
  intros Hok. pose proof Hok as [Hr Hw].
  unfold ring_full. rewrite Z.rem_mod_nonneg by lia.
  rewrite succ_mod_cases by lia. rewrite ring_used_cases by assumption.
  rewrite Z.eqb_eq.
  destruct (Z.leb_spec PIPE_BUFFER_SIZE (pipe_cb.w_position cb + 1));
    destruct (Z.leb_spec (pipe_cb.r_position cb) (pipe_cb.w_position cb));
    lia.
Qed.

Lemma ring_empty_spec cb :
  ring_ok cb -> ring_empty cb = true <-> ring_used cb = 0.
Proof.
  intros Hok. pose proof Hok as [Hr Hw].
  unfold ring_empty. rewrite ring_used_cases by assumption.
  rewrite Z.eqb_eq.
  destruct (Z.leb_spec (pipe_cb.r_position cb) (pipe_cb.w_position cb));
    lia.
Qed.

(** One byte stored: the write index advances and one more byte is
    held. *)
Lemma ring_used_push cb buffer c :
  ring_ok cb -> ring_full cb = false ->
  let cb' := pipe_cb.mk (pipe_cb.reader cb) (pipe_cb.writer cb) buffer
               (advance (pipe_cb.w_position cb)) (pipe_cb.r_position cb) c in
  ring_ok cb' /\ ring_used cb' = ring_used cb + 1.
Proof.
  intros Hok Hfull. pose proof Hok as [Hr Hw]. simpl.
  assert (Hok' : ring_ok (pipe_cb.mk (pipe_cb.reader cb) (pipe_cb.writer cb)
            buffer (advance (pipe_cb.w_position cb)) (pipe_cb.r_position cb) c)).
  { split; simpl; [assumption | now apply advance_range]. }
  split; [assumption |].
  apply not_true_iff_false in Hfull. rewrite ring_full_spec in Hfull by assumption.
  rewrite !ring_used_cases in * by assumption. simpl.
  unfold advance.
  destruct (Z.leb_spec PIPE_BUFFER_SIZE (pipe_cb.w_position cb + 1));
    destruct (Z.leb_spec (pipe_cb.r_position cb) (pipe_cb.w_position cb));
    destruct (Z.leb_spec (pipe_cb.r_position cb) 0);
    destruct (Z.leb_spec (pipe_cb.r_position cb) (pipe_cb.w_position cb + 1));
    lia.
Qed.

(** One byte taken: the read index advances and one byte less is held. *)
Lemma ring_used_pop cb c :
  ring_ok cb -> ring_empty cb = false ->
  let cb' := pipe_cb.mk (pipe_cb.reader cb) (pipe_cb.writer cb)
               (pipe_cb.BUFFER cb) (pipe_cb.w_position cb)
               (advance (pipe_cb.r_position cb)) c in
  ring_ok cb' /\ ring_used cb' = ring_used cb - 1.
Proof.
  intros Hok Hempty. pose proof Hok as [Hr Hw]. simpl.
  assert (Hok' : ring_ok (pipe_cb.mk (pipe_cb.reader cb) (pipe_cb.writer cb)
            (pipe_cb.BUFFER cb) (pipe_cb.w_position cb)
            (advance (pipe_cb.r_position cb)) c)).
  { split; simpl; [now apply advance_range | assumption]. }
  split; [assumption |].
  apply not_true_iff_false in Hempty.
  rewrite ring_empty_spec in Hempty by assumption.
  rewrite !ring_used_cases in * by assumption. simpl.
  unfold advance.
  destruct (Z.leb_spec PIPE_BUFFER_SIZE (pipe_cb.r_position cb + 1));
    destruct (Z.leb_spec (pipe_cb.r_position cb) (pipe_cb.w_position cb));
    destruct (Z.leb_spec 0 (pipe_cb.w_position cb));
    destruct (Z.leb_spec (pipe_cb.r_position cb + 1) (pipe_cb.w_position cb));
    lia.
Qed.

Lemma pipe_write_loop_spec todo buf : forall written cb written' cb',
  ring_ok cb ->
  pipe_write_loop todo buf written cb = inr (written', cb') ->
  ring_ok cb' /\ written <= written' /\
  ring_used cb' = ring_used cb + (written' - written) /\
  pipe_cb.reader cb' = pipe_cb.reader cb /\
  pipe_cb.writer cb' = pipe_cb.writer cb.
Proof.
  induction todo as [|todo IH]; intros written cb written' cb' Hok Hrun;
    simpl in Hrun.
  - injection Hrun as <- <-. repeat split; try apply Hok; lia.
  - destruct (ring_full cb) eqn:Hfull.
    + injection Hrun as <- <-. repeat split; try apply Hok; lia.
    + destruct (array_get buf written) as [b|]; [|discriminate].
      destruct (array_set (pipe_cb.BUFFER cb) (pipe_cb.w_position cb) b)
        as [buffer|]; [|discriminate].
      destruct (ring_used_push cb buffer (uint (pipe_cb.counter cb + 1)) Hok Hfull)
        as [Hok1 Hused1].
      destruct (IH _ _ _ _ Hok1 Hrun) as (Hok' & Hle & Hused & Hrd & Hwr).
      simpl in Hrd, Hwr. repeat split; try apply Hok'; try assumption; lia.
Qed.

Lemma pipe_read_loop_spec todo : forall out cb out' cb',
  ring_ok cb ->
  pipe_read_loop todo out cb = inr (out', cb') ->
  ring_ok cb' /\ (length out <= length out')%nat /\
  ring_used cb' = ring_used cb - (Z.of_nat (length out') - Z.of_nat (length out)) /\
  pipe_cb.reader cb' = pipe_cb.reader cb /\
  pipe_cb.writer cb' = pipe_cb.writer cb.
Proof.
  induction todo as [|todo IH]; intros out cb out' cb' Hok Hrun;
    simpl in Hrun.
  - injection Hrun as <- <-. repeat split; try apply Hok; lia.
  - destruct (ring_empty cb) eqn:Hempty.
    + injection Hrun as <- <-. repeat split; try apply Hok; lia.
    + destruct (array_get (pipe_cb.BUFFER cb) (pipe_cb.r_position cb))
        as [b|]; [|discriminate].
      destruct (ring_used_pop cb (uint (pipe_cb.counter cb + 1)) Hok Hempty)
        as [Hok1 Hused1].
      destruct (IH _ _ _ _ Hok1 Hrun) as (Hok' & Hle & Hused & Hrd & Hwr).
      rewrite length_app in Hle, Hused. simpl in Hle, Hused, Hrd, Hwr.
      repeat split; try apply Hok'; try assumption; lia.
Qed.

(** Bytes a write segment added to the ring and bytes a read segment
    took from it, read off the outcome. *)
Definition written_of (o : outcome Z) : Z :=
  match o with Return v _ => Z.max v 0 | _ => 0 end.
Definition read_of (o : outcome (Z * list byte)) : Z :=
  match o with Return (_, out) _ => Z.of_nat (length out) | _ => 0 end.

(** The states a pipe control block [p] goes through, with the number of
    bytes it holds: from its creation on, every segment of [pipe_write] and
    [pipe_read] (from the entry or from a wake-up; to a return or to a
    suspension), the two closes, and anything else the kernel does that
    leaves the block alone. *)
Inductive pipe_reach (p : ptr) : kernel -> Z -> Prop :=
| reach_created s rd wr :
    pipes s !! p = Some (new_pipe rd wr) -> pipe_reach p s 0
| reach_write s k buf n o s' :
    pipe_reach p s k ->
    o = pipe_write (Some p) buf n s \/ o = pipe_write_wait p buf n s ->
    state_of o = Some s' ->
    pipe_reach p s' (k + written_of o)
| reach_read s k n o s' :
    pipe_reach p s k ->
    o = pipe_read (Some p) n s \/ o = pipe_read_wait p n s ->
    state_of o = Some s' ->
    pipe_reach p s' (k - read_of o)
| reach_close s k o s' :
    pipe_reach p s k ->
    o = pipe_writer_close (Some p) s \/ o = pipe_reader_close (Some p) s ->
    state_of o = Some s' ->
    pipe_reach p s' k
| reach_frame s k s' :
    pipe_reach p s k -> pipes s' !! p = pipes s !! p -> pipe_reach p s' k.

Lemma reset_counter_write_ring n cb :
  pipe_cb.r_position (reset_counter_write n cb) = pipe_cb.r_position cb /\
  pipe_cb.w_position (reset_counter_write n cb) = pipe_cb.w_position cb /\
  pipe_cb.reader (reset_counter_write n cb) = pipe_cb.reader cb /\
  pipe_cb.writer (reset_counter_write n cb) = pipe_cb.writer cb /\
  pipe_cb.BUFFER (reset_counter_write n cb) = pipe_cb.BUFFER cb.
Proof. unfold reset_counter_write. destruct (_ =? _); simpl; auto. Qed.

Lemma reset_counter_read_ring n cb :
  pipe_cb.r_position (reset_counter_read n cb) = pipe_cb.r_position cb /\
  pipe_cb.w_position (reset_counter_read n cb) = pipe_cb.w_position cb /\
  pipe_cb.reader (reset_counter_read n cb) = pipe_cb.reader cb /\
  pipe_cb.writer (reset_counter_read n cb) = pipe_cb.writer cb /\
  pipe_cb.BUFFER (reset_counter_read n cb) = pipe_cb.BUFFER cb.
Proof. unfold reset_counter_read. destruct (_ =? _); simpl; auto. Qed.

Lemma ring_same_indices cb cb' :
  pipe_cb.r_position cb' = pipe_cb.r_position cb ->
  pipe_cb.w_position cb' = pipe_cb.w_position cb ->
  ring_ok cb -> ring_ok cb' /\ ring_used cb' = ring_used cb.
Proof. unfold ring_ok, ring_used. intros -> ->. auto. Qed.

Definition ring_state (p : ptr) (s : kernel) (k : Z) : Prop :=
  forall cb, pipes s !! p = Some cb -> ring_ok cb /\ ring_used cb = k.

Lemma pipe_write_wait_ring p buf n s s' k :
  ring_state p s k ->
  state_of (pipe_write_wait p buf n s) = Some s' ->
  ring_state p s' (k + written_of (pipe_write_wait p buf n s)).
Proof.
  intros Hst. unfold pipe_write_wait, bind, load_pipe.
  destruct (pipes s !! p) as [cb|] eqn:Hp; simpl; [|discriminate].
  destruct (Hst cb Hp) as [Hok Hused].
  destruct (ring_full cb && bool_decide (pipe_cb.reader cb <> None)); simpl.
  { intros [= <-]. rewrite Z.add_0_r. assumption. }
  destruct (bool_decide (pipe_cb.reader cb = None)); simpl.
  { intros [= <-]. rewrite Z.add_0_r. assumption. }
  destruct (pipe_write_loop (Z.to_nat n) buf 0 cb) as [f|[written cb']] eqn:Hloop;
    simpl; [discriminate|].
  intros [= <-] cb2. simpl. rewrite lookup_insert_eq. intros [= <-].
  destruct (pipe_write_loop_spec _ _ _ _ _ _ Hok Hloop)
    as (Hok' & Hle & Hused' & _).
  destruct (reset_counter_write_ring n cb') as (Hr & Hw & _).
  destruct (ring_same_indices cb' _ Hr Hw Hok') as [Hok2 Hused2].
  split; [assumption|]. lia.
Qed.

Lemma pipe_write_ring p buf n s s' k :
  ring_state p s k ->
  state_of (pipe_write (Some p) buf n s) = Some s' ->
  ring_state p s' (k + written_of (pipe_write (Some p) buf n s)).
Proof.
  intros Hst. unfold pipe_write, bind, load_pipe.
  destruct (pipes s !! p) as [cb|] eqn:Hp; simpl; [|discriminate].
  destruct (bool_decide (pipe_cb.writer cb = None)
            || bool_decide (pipe_cb.reader cb = None)); simpl.
  { intros [= <-]. rewrite Z.add_0_r. assumption. }
  now apply pipe_write_wait_ring.
Qed.

Lemma pipe_read_wait_ring p n s s' k :
  ring_state p s k ->
  state_of (pipe_read_wait p n s) = Some s' ->
  ring_state p s' (k - read_of (pipe_read_wait p n s)).
Proof.
  intros Hst. unfold pipe_read_wait, bind, load_pipe.
  destruct (pipes s !! p) as [cb|] eqn:Hp; simpl; [|discriminate].
  destruct (Hst cb Hp) as [Hok Hused].
  destruct (ring_empty cb && bool_decide (pipe_cb.writer cb <> None)); simpl.
  { intros [= <-]. rewrite Z.sub_0_r. assumption. }
  destruct (pipe_read_loop (Z.to_nat n) [] cb) as [f|[out cb']] eqn:Hloop;
    simpl; [discriminate|].
  intros [= <-] cb2. simpl. rewrite lookup_insert_eq. intros [= <-].
  destruct (pipe_read_loop_spec _ _ _ _ _ Hok Hloop)
    as (Hok' & Hle & Hused' & _).
  destruct (reset_counter_read_ring n cb') as (Hr & Hw & _).
  destruct (ring_same_indices cb' _ Hr Hw Hok') as [Hok2 Hused2].
  split; [assumption|]. simpl in Hused'. lia.
Qed.

Lemma pipe_read_ring p n s s' k :
  ring_state p s k ->
  state_of (pipe_read (Some p) n s) = Some s' ->
  ring_state p s' (k - read_of (pipe_read (Some p) n s)).
Proof.
  intros Hst. unfold pipe_read, bind, load_pipe.
  destruct (pipes s !! p) as [cb|] eqn:Hp; simpl; [|discriminate].
  destruct (bool_decide (pipe_cb.reader cb = None)); simpl.
  { intros [= <-]. rewrite Z.sub_0_r. assumption. }
  now apply pipe_read_wait_ring.
Qed.

Lemma pipe_close_ring p s s' k o :
  ring_state p s k ->
  o = pipe_writer_close (Some p) s \/ o = pipe_reader_close (Some p) s ->
  state_of o = Some s' ->
  ring_state p s' k.
Proof.
  intros Hst [-> | ->];
    unfold pipe_writer_close, pipe_reader_close, bind, load_pipe;
    (destruct (pipes s !! p) as [cb|] eqn:Hp; simpl; [|discriminate]);
    destruct (Hst cb Hp) as [Hok Hused];
    (destruct (bool_decide _); simpl; intros [= <-] cb2; simpl;
     [rewrite lookup_delete_eq; discriminate
     |rewrite lookup_insert_eq; intros [= <-];
      unfold ring_ok, ring_used in *; simpl; auto]).
Qed.

Lemma pipe_reach_ring_state p s k : pipe_reach p s k -> ring_state p s k.
Proof.
  induction 1 as [s rd wr Hnew | s k buf n o s' _ IH [-> | ->] Hs'
                 | s k n o s' _ IH [-> | ->] Hs'
                 | s k o s' _ IH Ho Hs'
                 | s k s' _ IH Hsame].
  - intros cb. rewrite Hnew. intros [= <-].
    unfold ring_ok, ring_used, new_pipe. simpl.
    rewrite Z.mod_0_l by lia. lia.
  - now apply pipe_write_ring.
  - now apply pipe_write_wait_ring.
  - now apply pipe_read_ring.
  - now apply pipe_read_wait_ring.
  - eapply pipe_close_ring; eauto.
  - intros cb. rewrite Hsame. apply IH.
Qed.

(** What the spec says of the ring, for a block [cb] holding [k] bytes. *)
Definition ring_discipline (cb : pipe_cb.t) (k : Z) : Prop :=
  (0 <= pipe_cb.r_position cb < PIPE_BUFFER_SIZE) /\
  (0 <= pipe_cb.w_position cb < PIPE_BUFFER_SIZE) /\
  (0 <= k <= PIPE_BUFFER_SIZE - 1) /\
  (k = 0 <-> pipe_cb.r_position cb = pipe_cb.w_position cb) /\
  (k = PIPE_BUFFER_SIZE - 1 <->
   (pipe_cb.w_position cb + 1) mod PIPE_BUFFER_SIZE = pipe_cb.r_position cb).

(** C6: every pipe control block reached from its creation by segments of
    [pipe_write] and [pipe_read] has both indices in
    [0, PIPE_BUFFER_SIZE) at each suspension and each return; it holds no
    byte iff [r_position = w_position], and [PIPE_BUFFER_SIZE - 1] bytes
    (it is full) iff [(w_position + 1) mod PIPE_BUFFER_SIZE = r_position]. *)
Theorem ring_index_invariant p s k cb :
  pipe_reach p s k -> pipes s !! p = Some cb -> ring_discipline cb k.
Proof.
  intros Hreach Hp.
  destruct (pipe_reach_ring_state p s k Hreach cb Hp) as [Hok Hused].
  pose proof (ring_used_range cb Hok) as Hrange.
  pose proof (ring_empty_spec cb Hok) as Hempty.
  pose proof (ring_full_spec cb Hok) as Hfull.
  pose proof Hok as [Hr Hw].
  unfold ring_empty in Hempty. unfold ring_full in Hfull.
  rewrite Z.rem_mod_nonneg in Hfull by lia.
  rewrite Z.eqb_eq in Hempty, Hfull. rewrite Hused in *.
  unfold ring_discipline. repeat split; try lia; try tauto.
Qed.

End PipeFacts.

(** The state an outcome leaves, or [s0] after a fault. *)
Definition after {A} (o : outcome A) (s0 : kernel) : kernel :=
  default s0 (state_of o).

(** A pipe made by [sys_Pipe] in the boot state (control block 1, reader
    FCB 1, writer FCB 2), the same pipe after "hello" was written and two
    bytes read, and the pipe filled with seven bytes. *)
Definition pipe_fresh : kernel :=
  after (sys_Pipe (H := small_config) (boot 1 None)) (boot 1 None).
Definition pipe_hello : kernel :=
  after (pipe_write (H := small_config) (Some 1%positive)
           [x68; x65; x6c; x6c; x6f] 5 pipe_fresh) pipe_fresh.
Definition pipe_hello_read : kernel :=
  after (pipe_read (H := small_config) (Some 1%positive) 2 pipe_hello)
    pipe_hello.
Definition pipe_filled : kernel :=
  after (pipe_write (H := small_config) (Some 1%positive)
           [x01; x02; x03; x04; x05; x06; x07] 7 pipe_fresh) pipe_fresh.

Lemma ring_index_invariant_witness :
  ring_discipline (H := small_config)
    (pipe_cb.mk (Some 1%positive) (Some 2%positive)
       [x68; x65; x6c; x6c; x6f; x00; x00; x00] 5 2 7) 3.
Proof.
  apply (ring_index_invariant (H := small_config) eq_refl 1%positive
           pipe_hello_read 3).
  - apply (reach_read 1%positive pipe_hello 5 2
             (pipe_read (H := small_config) (Some 1%positive) 2 pipe_hello)
             pipe_hello_read); [|left; reflexivity|reflexivity].
    apply (reach_write 1%positive pipe_fresh 0 [x68; x65; x6c; x6c; x6f] 5
             (pipe_write (H := small_config) (Some 1%positive)
                [x68; x65; x6c; x6c; x6f] 5 pipe_fresh)
             pipe_hello); [|left; reflexivity|reflexivity].
    apply (reach_created 1%positive pipe_fresh (Some 1%positive)
             (Some 2%positive)).
    reflexivity.
  - reflexivity.
Defined.

(** ** Pipes: zero-length transfers and half-close *)

Section PipeCalls.
Context `{KernelConfig}.

Lemma pipe_read_loop_empty todo out cb :
  ring_empty cb = true -> pipe_read_loop todo out cb = inr (out, cb).
Proof. intros Hempty. destruct todo; simpl; [|rewrite Hempty]; reflexivity. Qed.

(** The state [pipe_write] leaves when it returns after copying up to
    the block [cb']. *)
Definition written_state (p : ptr) (n : Z) (cb' : pipe_cb.t) (s : kernel)
    : kernel :=
  with_trace (fun t => t ++ [Broadcast (has_data p)])
    (with_pipes (insert p (reset_counter_write n cb')) s).
Definition read_state (p : ptr) (n : Z) (cb' : pipe_cb.t) (s : kernel)
    : kernel :=
  with_trace (fun t => t ++ [Broadcast (has_space p)])
    (with_pipes (insert p (reset_counter_read n cb')) s).

(** C4 (amended): on a pipe with both ends open, [pipe_write] with
    [n = 0] returns 0 without reaching [kernel_wait] when the ring is not
    full and suspends in [kernel_wait(&has_space)] when it is full;
    [pipe_read] with [n = 0] returns 0 without reaching [kernel_wait] when
    the ring is not empty and suspends in [kernel_wait(&has_data)] when it
    is empty.  Neither index moves. *)
Theorem zero_length_io p s cb buf :
  pipes s !! p = Some cb ->
  pipe_cb.reader cb <> None ->
  pipe_cb.writer cb <> None ->
  pipe_write (Some p) buf 0 s =
    (if ring_full cb then Suspended (KWait (has_space p)) s
     else Return 0 (written_state p 0 cb s)) /\
  pipe_read (Some p) 0 s =
    (if ring_empty cb then Suspended (KWait (has_data p)) s
     else Return (0, []) (read_state p 0 cb s)).
Proof.
  intros Hp Hrd Hwr. split.
  - unfold pipe_write, pipe_write_wait, bind, load_pipe. rewrite Hp. simpl.
    rewrite !bool_decide_eq_false_2 by assumption. simpl. rewrite Hp. simpl.
    rewrite bool_decide_eq_true_2 by assumption.
    rewrite bool_decide_eq_false_2 by assumption.
    destruct (ring_full cb); reflexivity.
  - unfold pipe_read, pipe_read_wait, bind, load_pipe. rewrite Hp. simpl.
    rewrite bool_decide_eq_false_2 by assumption. rewrite Hp. simpl.
    rewrite bool_decide_eq_true_2 by assumption.
    destruct (ring_empty cb); reflexivity.
Qed.

(** C5: with the writer closed and the ring drained, [pipe_read] returns
    0, called through the open reader end or woken from its wait; with
    the reader closed, [pipe_write] returns -1, called or woken from its
    wait. *)
Theorem half_close_returns p s cb buf n :
  pipes s !! p = Some cb ->
  (pipe_cb.writer cb = None ->
   pipe_cb.r_position cb = pipe_cb.w_position cb ->
   pipe_read_wait p n s = Return (0, []) (read_state p n cb s) /\
   (pipe_cb.reader cb <> None ->
    pipe_read (Some p) n s = Return (0, []) (read_state p n cb s))) /\
  (pipe_cb.reader cb = None ->
   pipe_write (Some p) buf n s = Return (-1) s /\
   pipe_write_wait p buf n s = Return (-1) s).
Proof.
  intros Hp. split.
  - intros Hwr Hdrained.
    assert (Hempty : ring_empty cb = true).
    { unfold ring_empty. rewrite Hdrained. apply Z.eqb_refl. }
    assert (Hwait : pipe_read_wait p n s = Return (0, []) (read_state p n cb s)).
    { unfold pipe_read_wait, bind, load_pipe. rewrite Hp. simpl.
      rewrite Hempty, (bool_decide_eq_false_2 _ (fun Hne => Hne Hwr)). simpl.
      rewrite pipe_read_loop_empty by assumption. reflexivity. }
    split; [assumption|]. intros Hrd.
    unfold pipe_read, bind, load_pipe. rewrite Hp. simpl.
    rewrite bool_decide_eq_false_2 by assumption. assumption.
  - intros Hrd. split.
    + unfold pipe_write, bind, load_pipe. rewrite Hp. simpl.
      rewrite (bool_decide_eq_true_2 _ Hrd), orb_true_r. reflexivity.
    + unfold pipe_write_wait, bind, load_pipe. rewrite Hp. simpl.
      rewrite (bool_decide_eq_false_2 _ (fun Hne => Hne Hrd)), andb_false_r.
      rewrite (bool_decide_eq_true_2 _ Hrd). reflexivity.
Qed.

End PipeCalls.

Lemma zero_length_io_witness :
  pipe_write (H := small_config) (Some 1%positive) [] 0 pipe_hello =
    Return 0
      (written_state 1%positive 0
         (pipe_cb.mk (Some 1%positive) (Some 2%positive)
            [x68; x65; x6c; x6c; x6f; x00; x00; x00] 5 0 5) pipe_hello) /\
  pipe_read (H := small_config) (Some 1%positive) 0 pipe_hello =
    Return (0, [])
      (read_state 1%positive 0
         (pipe_cb.mk (Some 1%positive) (Some 2%positive)
            [x68; x65; x6c; x6c; x6f; x00; x00; x00] 5 0 5) pipe_hello).
Proof.
  apply (zero_length_io (H := small_config) 1%positive pipe_hello
           (pipe_cb.mk (Some 1%positive) (Some 2%positive)
              [x68; x65; x6c; x6c; x6f; x00; x00; x00] 5 0 5) []).
  - reflexivity.
  - discriminate.
  - discriminate.
Defined.

(** With both ends open, a zero-length write on the full ring and a
    zero-length read on the empty ring reach [kernel_wait]. *)
Lemma zero_length_io_blocks :
  pipes pipe_filled !! 1%positive =
    Some (pipe_cb.mk (Some 1%positive) (Some 2%positive)
            [x01; x02; x03; x04; x05; x06; x07; x00] 7 0 7) /\
  pipe_write (H := small_config) (Some 1%positive) [] 0 pipe_filled =
    Suspended (KWait (has_space 1%positive)) pipe_filled /\
  pipes pipe_fresh !! 1%positive =
    Some (pipe_cb.mk (Some 1%positive) (Some 2%positive)
            [x00; x00; x00; x00; x00; x00; x00; x00] 0 0 0) /\
  pipe_read (H := small_config) (Some 1%positive) 0 pipe_fresh =
    Suspended (KWait (has_data 1%positive)) pipe_fresh.
Proof. repeat split; reflexivity. Qed.

(** The fresh pipe after its writer end, resp. its reader end, was
    closed. *)
Definition pipe_writer_gone : kernel :=
  after (pipe_writer_close (Some 1%positive) pipe_fresh) pipe_fresh.
Definition pipe_reader_gone : kernel :=
  after (pipe_reader_close (Some 1%positive) pipe_hello) pipe_hello.

Lemma half_close_returns_witness :
  (pipe_read_wait (H := small_config) 1%positive 4 pipe_writer_gone =
     Return (0, [])
       (read_state 1%positive 4
          (pipe_cb.mk (Some 1%positive) None
             [x00; x00; x00; x00; x00; x00; x00; x00] 0 0 0)
          pipe_writer_gone) /\
   pipe_read (H := small_config) (Some 1%positive) 4 pipe_writer_gone =
     Return (0, [])
       (read_state 1%positive 4
          (pipe_cb.mk (Some 1%positive) None
             [x00; x00; x00; x00; x00; x00; x00; x00] 0 0 0)
          pipe_writer_gone)) /\
  (pipe_write (H := small_config) (Some 1%positive) [x21] 1 pipe_reader_gone =
     Return (-1) pipe_reader_gone /\
   pipe_write_wait (H := small_config) 1%positive [x21] 1 pipe_reader_gone =
     Return (-1) pipe_reader_gone).
Proof.
  split.
  - destruct (half_close_returns (H := small_config) 1%positive
                pipe_writer_gone
                (pipe_cb.mk (Some 1%positive) None
                   [x00; x00; x00; x00; x00; x00; x00; x00] 0 0 0)
                [] 4 eq_refl) as [Hread _].
    destruct (Hread eq_refl eq_refl) as [Hwoken Hcalled].
    split; [exact Hwoken | apply Hcalled; discriminate].
  - destruct (half_close_returns (H := small_config) 1%positive
                pipe_reader_gone
                (pipe_cb.mk None (Some 2%positive)
                   [x68; x65; x6c; x6c; x6f; x00; x00; x00] 5 0 5)
                [x21] 1 eq_refl) as [_ Hwrite].
    exact (Hwrite eq_refl).
Defined.

(** ** Sockets: shutdown *)

Section SocketFacts.
Context `{KernelConfig}.

(** What the descriptor lookup of a socket call reads. *)
Definition same_descriptors (s s' : kernel) : Prop :=
  PT s' = PT s /\ CURPROC s' = CURPROC s /\ FT s' = FT s.

Definition read_shut (p : ptr) (s : kernel) : Prop :=
  exists cb, sockets s !! p = Some cb /\ socket_cb.read_pipe cb = None.
Definition write_shut (p : ptr) (s : kernel) : Prop :=
  exists cb, sockets s !! p = Some cb /\ socket_cb.write_pipe cb = None.

Lemma pipe_reader_close_sockets o s v s' :
  pipe_reader_close o s = Return v s' ->
  same_descriptors s s' /\ sockets s' = sockets s.
Proof.
  unfold pipe_reader_close, bind, load_pipe. destruct o as [p|]; simpl.
  - destruct (pipes s !! p) as [cb|]; simpl; [|discriminate].
    destruct (bool_decide _); simpl; intros [= <- <-]; repeat split.
  - intros [= <- <-]. repeat split.
Qed.

Lemma pipe_writer_close_sockets o s v s' :
  pipe_writer_close o s = Return v s' ->
  same_descriptors s s' /\ sockets s' = sockets s.
Proof.
  unfold pipe_writer_close, bind, load_pipe. destruct o as [p|]; simpl.
  - destruct (pipes s !! p) as [cb|]; simpl; [|discriminate].
    destruct (bool_decide _); simpl; intros [= <- <-]; repeat split.
  - intros [= <- <-]. repeat split.
Qed.

Lemma shut_read_spec p s s' :
  shut_read p s = Return tt s' ->
  same_descriptors s s' /\
  exists cb, sockets s !! p = Some cb /\
    sockets s' = <[p := socket_cb_set_read_pipe None cb]> (sockets s).
Proof.
  unfold shut_read, bind, load_socket.
  destruct (sockets s !! p) as [cb|] eqn:Hp; simpl; [|discriminate].
  destruct (bool_decide_reflect (socket_cb.read_pipe cb <> None)) as [Hne|He].
  - destruct (pipe_reader_close (socket_cb.read_pipe cb) s) as [v s1| |] eqn:Hclose;
      try discriminate.
    destruct (pipe_reader_close_sockets _ _ _ _ Hclose) as [Hd Hs].
    unfold update_socket, bind, load_socket. rewrite Hs, Hp. simpl.
    intros [= <-]. split; [exact Hd|]. exists cb. simpl. rewrite Hs. auto.
  - intros [= <-]. split; [repeat split|]. exists cb. split; [reflexivity|].
    apply dec_stable in He. symmetry. apply insert_id. rewrite Hp.
    f_equal. destruct cb; simpl in *; subst; reflexivity.
Qed.

Lemma shut_write_spec p s s' :
  shut_write p s = Return tt s' ->
  same_descriptors s s' /\
  exists cb, sockets s !! p = Some cb /\
    sockets s' = <[p := socket_cb_set_write_pipe None cb]> (sockets s).
Proof.
  unfold shut_write, bind, load_socket.
  destruct (sockets s !! p) as [cb|] eqn:Hp; simpl; [|discriminate].
  destruct (bool_decide_reflect (socket_cb.write_pipe cb <> None)) as [Hne|He].
  - destruct (pipe_writer_close (socket_cb.write_pipe cb) s) as [v s1| |] eqn:Hclose;
      try discriminate.
    destruct (pipe_writer_close_sockets _ _ _ _ Hclose) as [Hd Hs].
    unfold update_socket, bind, load_socket. rewrite Hs, Hp. simpl.
    intros [= <-]. split; [exact Hd|]. exists cb. simpl. rewrite Hs. auto.
  - intros [= <-]. split; [repeat split|]. exists cb. split; [reflexivity|].
    apply dec_stable in He. symmetry. apply insert_id. rewrite Hp.
    f_equal. destruct cb; simpl in *; subst; reflexivity.
Qed.

Lemma shut_read_done p s cb :
  sockets s !! p = Some cb -> socket_cb.read_pipe cb = None ->
  shut_read p s = Return tt s.
Proof.
  intros Hp Hnone. unfold shut_read, bind, load_socket. rewrite Hp. simpl.
  rewrite bool_decide_eq_false_2; [reflexivity|]. intros Hne. now apply Hne.
Qed.

Lemma shut_write_done p s cb :
  sockets s !! p = Some cb -> socket_cb.write_pipe cb = None ->
  shut_write p s = Return tt s.
Proof.
  intros Hp Hnone. unfold shut_write, bind, load_socket. rewrite Hp. simpl.
  rewrite bool_decide_eq_false_2; [reflexivity|]. intros Hne. now apply Hne.
Qed.

(** The result of [sys_ShutDown] in terms of the socket the descriptor
    names: its checks read the descriptor table, the FCB and the type of
    the socket only. *)
Definition peer_of_fid (sock : Z) (s : kernel) : option ptr :=
  match state_of (get_fcb sock s), get_fcb sock s with
  | Some _, Return (Some f) _ =>
      if (sock <? 0) || (MAX_FILEID <? sock) then None
      else
        match FT s !! f with
        | Some fcb =>
            match FCB.streamobj fcb with
            | Some (SocketObj p) =>
                match sockets s !! p with
                | Some cb =>
                    if bool_decide (socket_cb.type cb = SOCKET_PEER)
                    then Some p else None
                | None => None
                end
            | _ => None
            end
        | None => None
        end
  | _, _ => None
  end.

Lemma get_fcb_state sock s o s' : get_fcb sock s = Return o s' -> s' = s.
Proof.
  unfold get_fcb, bind, gets, load_PCB, deref, ret, raise.
  destruct ((sock <? 0) || (MAX_FILEID <=? sock)); [now intros [= _ <-]|].
  destruct (array_get (PT s) (CURPROC s)) as [pcb|]; simpl; [|discriminate].
  destruct (array_get (PCB.FIDT pcb) sock); simpl; [|discriminate].
  now intros [= _ <-].
Qed.

Lemma get_fcb_same sock s s' :
  same_descriptors s s' -> get_fcb sock s' =
    match get_fcb sock s with
    | Return o _ => Return o s'
    | Suspended w _ => Suspended w s'
    | Fault f => Fault f
    end.
Proof.
  intros (Hpt & Hcur & _).
  unfold get_fcb, bind, gets, load_PCB, deref, ret, raise.
  destruct ((sock <? 0) || (MAX_FILEID <=? sock)); [reflexivity|].
  rewrite Hpt, Hcur.
  destruct (array_get (PT s) (CURPROC s)) as [pcb|]; simpl; [|reflexivity].
  destruct (array_get (PCB.FIDT pcb) sock); reflexivity.
Qed.

Lemma sys_ShutDown_peer sock how s v s' :
  sys_ShutDown sock how s = Return v s' -> v = 0 ->
  exists p,
    peer_of_fid sock s = Some p /\
    match how with
    | SHUTDOWN_READ => shut_read p s = Return tt s'
    | SHUTDOWN_WRITE => shut_write p s = Return tt s'
    | SHUTDOWN_BOTH =>
        exists s1, shut_read p s = Return tt s1 /\ shut_write p s1 = Return tt s'
    | SHUTDOWN_other _ => False
    end.
Proof.
  unfold sys_ShutDown, peer_of_fid. unfold bind at 1.
  destruct (get_fcb sock s) as [o s0| |] eqn:Hfcb; try discriminate.
  apply get_fcb_state in Hfcb as ->. simpl.
  destruct o as [f|]; [|intros [= <- <-]; discriminate].
  destruct ((sock <? 0) || (MAX_FILEID <? sock)); [intros [= <- <-]; discriminate|].
  unfold bind, load_FCB, as_socket, load_socket, deref, ret, raise.
  destruct (FT s !! f) as [fcb|]; simpl; [|discriminate].
  destruct (FCB.streamobj fcb) as [[q|p|q]|]; simpl; try discriminate;
    [|intros [= <- <-]; discriminate].
  destruct (sockets s !! p) as [cb|]; simpl; [|discriminate].
  destruct (bool_decide_reflect (socket_cb.type cb = SOCKET_PEER)) as [Hpeer|Hne].
  - rewrite bool_decide_eq_false_2 by (intros Hne; now apply Hne).
    intros Hrun ->. exists p. split; [reflexivity|].
    destruct how as [| | |raw].
    + destruct (shut_read p s) as [[] s1| |]; try discriminate.
      now injection Hrun as <-.
    + destruct (shut_write p s) as [[] s1| |]; try discriminate.
      now injection Hrun as <-.
    + destruct (shut_read p s) as [[] s1| |]; try discriminate.
      destruct (shut_write p s1) as [[] s2| |] eqn:Hw; try discriminate.
      exists s1. injection Hrun as <-. auto.
    + discriminate.
  - rewrite bool_decide_eq_true_2 by assumption. intros [= <- <-]. discriminate.
Qed.

Definition shutdown_body (p : ptr) (how : shutdown_mode) : K Z :=
  match how with
  | SHUTDOWN_READ => shut_read p ;; ret 0
  | SHUTDOWN_WRITE => shut_write p ;; ret 0
  | SHUTDOWN_BOTH => shut_read p ;; shut_write p ;; ret 0
  | SHUTDOWN_other _ => ret (-1)
  end.

Lemma sys_ShutDown_run sock how s p :
  peer_of_fid sock s = Some p ->
  sys_ShutDown sock how s = shutdown_body p how s.
Proof.
  unfold sys_ShutDown, peer_of_fid. unfold bind at 1.
  destruct (get_fcb sock s) as [o s0| |] eqn:Hfcb; try discriminate.
  apply get_fcb_state in Hfcb as ->. simpl.
  destruct o as [f|]; [|discriminate].
  destruct ((sock <? 0) || (MAX_FILEID <? sock)); [discriminate|].
  unfold bind at 1, load_FCB, deref.
  destruct (FT s !! f) as [fcb|]; simpl; [|discriminate].
  unfold bind at 1, as_socket.
  destruct (FCB.streamobj fcb) as [[q|q|q]|]; simpl; try discriminate.
  unfold bind at 1, load_socket, deref.
  destruct (sockets s !! q) as [cb|]; simpl; [|discriminate].
  destruct (bool_decide_reflect (socket_cb.type cb = SOCKET_PEER)) as [Hpeer|Hne];
    [|discriminate].
  intros [= ->].
  rewrite bool_decide_eq_false_2 by (intros Hne; now apply Hne).
  destruct how; reflexivity.
Qed.

Definition same_types (s s' : kernel) : Prop :=
  forall q, socket_cb.type <$> sockets s' !! q = socket_cb.type <$> sockets s !! q.

Lemma peer_of_fid_same sock s s' :
  same_descriptors s s' -> same_types s s' ->
  peer_of_fid sock s' = peer_of_fid sock s.
Proof.
  intros Hd Hty. unfold peer_of_fid. rewrite (get_fcb_same sock s s' Hd).
  destruct (get_fcb sock s) as [o s0| |]; simpl; try reflexivity.
  destruct o as [f|]; [|reflexivity].
  destruct ((sock <? 0) || (MAX_FILEID <? sock)); [reflexivity|].
  destruct Hd as (_ & _ & ->).
  destruct (FT s !! f) as [fcb|]; [|reflexivity].
  destruct (FCB.streamobj fcb) as [[q|q|q]|]; try reflexivity.
  specialize (Hty q).
  destruct (sockets s' !! q) as [cb'|], (sockets s !! q) as [cb|];
    simpl in Hty; try discriminate; [|reflexivity].
  injection Hty as ->. reflexivity.
Qed.

Lemma insert_same_types p cb cb' s s' :
  sockets s !! p = Some cb ->
  socket_cb.type cb' = socket_cb.type cb ->
  sockets s' = <[p := cb']> (sockets s) ->
  same_types s s'.
Proof.
  intros Hp Hty Hs q. rewrite Hs. destruct (decide (p = q)) as [<-|Hne].
  - rewrite lookup_insert_eq, Hp. simpl. now rewrite Hty.
  - now rewrite lookup_insert_ne.
Qed.

Lemma same_descriptors_trans s1 s2 s3 :
  same_descriptors s1 s2 -> same_descriptors s2 s3 -> same_descriptors s1 s3.
Proof. unfold same_descriptors. intros (-> & -> & ->) (-> & -> & ->). auto. Qed.

Lemma same_types_trans s1 s2 s3 :
  same_types s1 s2 -> same_types s2 s3 -> same_types s1 s3.
Proof. intros H12 H23 q. now rewrite H23, H12. Qed.

(** C10: a second [sys_ShutDown] with the same mode, after one that
    returned 0, returns 0 and changes nothing: the pipe pointer is already
    null, so no pipe is closed again. *)
Theorem shutdown_idempotent sock how s s1 :
  sys_ShutDown sock how s = Return 0 s1 ->
  sys_ShutDown sock how s1 = Return 0 s1.
Proof.
  intros Hfirst.
  destruct (sys_ShutDown_peer _ _ _ _ _ Hfirst eq_refl) as (p & Hpeer & Hbody).
  assert (Hkeep : same_descriptors s s1 /\ same_types s s1 /\
            match how with
            | SHUTDOWN_READ => read_shut p s1
            | SHUTDOWN_WRITE => write_shut p s1
            | SHUTDOWN_BOTH => read_shut p s1 /\ write_shut p s1
            | SHUTDOWN_other _ => False
            end).
  { destruct how as [| | |raw]; [| | |contradiction].
    - destruct (shut_read_spec _ _ _ Hbody) as (Hd & cb & Hp & Hs).
      split; [exact Hd|]. split; [eapply insert_same_types; [exact Hp| |exact Hs]; reflexivity|].
      eexists. rewrite Hs, lookup_insert_eq. split; reflexivity.
    - destruct (shut_write_spec _ _ _ Hbody) as (Hd & cb & Hp & Hs).
      split; [exact Hd|]. split; [eapply insert_same_types; [exact Hp| |exact Hs]; reflexivity|].
      eexists. rewrite Hs, lookup_insert_eq. split; reflexivity.
    - destruct Hbody as (s0 & Hr & Hw).
      destruct (shut_read_spec _ _ _ Hr) as (Hd & cb & Hp & Hs).
      destruct (shut_write_spec _ _ _ Hw) as (Hd' & cb' & Hp' & Hs').
      split; [now apply (same_descriptors_trans s s0 s1)|].
      split.
      { apply (same_types_trans s s0 s1).
        - eapply insert_same_types; [exact Hp| |exact Hs]; reflexivity.
        - eapply insert_same_types; [exact Hp'| |exact Hs']; reflexivity. }
      rewrite Hs, lookup_insert_eq in Hp'. injection Hp' as <-.
      split; eexists; rewrite Hs', lookup_insert_eq; split; reflexivity. }
  destruct Hkeep as (Hd & Hty & Hshut).
  rewrite (sys_ShutDown_run sock how s1 p)
    by (now rewrite (peer_of_fid_same sock s s1 Hd Hty)).
  unfold shutdown_body, bind.
  destruct how as [| | |raw]; [| | |contradiction].
  - destruct Hshut as (cb & Hp & Hnone). now rewrite (shut_read_done p s1 cb).
  - destruct Hshut as (cb & Hp & Hnone). now rewrite (shut_write_done p s1 cb).
  - destruct Hshut as [(cb & Hp & Hnone) (cb' & Hp' & Hnone')].
    rewrite (shut_read_done p s1 cb) by assumption.
    now rewrite (shut_write_done p s1 cb').
Qed.
End SocketFacts.



(** A connection set up in the boot state: a listener on port 42
    (fid 0, control block 1), a connector (fid 1, control block 2)
    suspended in [sys_Connect] with request 1, and the [sys_Accept] that
    admits it (server fid 2, control block 3; pipes 1 and 2). *)
Definition listening : kernel :=
  after ((let* l := sys_Socket (H := small_config) 42 in
          sys_Listen (H := small_config) l ;;
          sys_Socket (H := small_config) 0) (boot 1 None)) (boot 1 None).
Definition connecting : kernel :=
  after (sys_Connect (H := small_config) 1 42 100 listening) listening.
Definition connected : kernel :=
  after (sys_Accept (H := small_config) 0 connecting) connecting.
Definition shut_both : kernel :=
  after (sys_ShutDown (H := small_config) 2 SHUTDOWN_BOTH connected) connected.

Lemma shutdown_idempotent_witness :
  sys_ShutDown (H := small_config) 2 SHUTDOWN_BOTH shut_both =
    Return 0 shut_both.
Proof.
  apply (shutdown_idempotent (H := small_config) 2 SHUTDOWN_BOTH connected).
  vm_compute. reflexivity.
Defined.


(** ** Running the monad backwards *)

Lemma bind_Return {A B} (m : K A) (k : A -> K B) s b s' :
  bind m k s = Return b s' ->
  exists a s1, m s = Return a s1 /\ k a s1 = Return b s'.
Proof.
  unfold bind. destruct (m s) as [a s1| |]; try discriminate. eauto.
Qed.

Lemma array_set_get {A} (l l' : list A) i x :
  array_set l i x = Some l' ->
  array_get l' i = Some x /\
  (forall j, j <> i -> array_get l' j = array_get l j) /\
  length l' = length l.
Proof.
  unfold array_set, array_get.
  destruct (Z.ltb_spec i 0); simpl; [discriminate|].
  destruct (Z.leb_spec (Z.of_nat (length l)) i); simpl; [discriminate|].
  intros [= <-]. split; [|split].
  - apply list_lookup_insert_eq. lia.
  - intros j Hj. destruct (Z.ltb_spec j 0); [reflexivity|].
    apply list_lookup_insert_ne. lia.
  - apply length_insert.
Qed.

Lemma free_fids_lower fidt : forall i fid,
  fid ∈ free_fids fidt i -> i <= fid.
Proof.
  induction fidt as [|[f|] rest IH]; intros i fid; simpl.
  - intros Hin. inversion Hin.
  - intros Hin. apply IH in Hin. lia.
  - intros Hin. apply elem_of_cons in Hin as [->|Hin]; [lia|].
    apply IH in Hin. lia.
Qed.

(** Unfold the primitives of the kernel monad. *)
Ltac kred_in H :=
  repeat (progress (
    unfold bind, gets, modify, ret, raise, deref, assert,
      kernel_wait, kernel_timedwait, kernel_sleep_EXITED, kernel_signal,
      kernel_broadcast,
      load_pipe, store_pipe, free_pipe, load_socket, store_socket,
      free_socket, update_socket, load_request, store_request, free_request,
      load_ptcb, store_ptcb, free_ptcb, load_FCB, store_FCB, set_streams,
      load_PCB, store_PCB, port_map_get, port_map_set,
      with_PT, with_ptcbs, with_FT, with_sockets, with_pipes, with_requests,
      with_infos, with_PORT_MAP, with_trace in H;
    simpl in H)).
Ltac kred :=
  repeat (progress (
    unfold bind, gets, modify, ret, raise, deref, assert,
      kernel_wait, kernel_timedwait, kernel_sleep_EXITED, kernel_signal,
      kernel_broadcast,
      load_pipe, store_pipe, free_pipe, load_socket, store_socket,
      free_socket, update_socket, load_request, store_request, free_request,
      load_ptcb, store_ptcb, free_ptcb, load_FCB, store_FCB, set_streams,
      load_PCB, store_PCB, port_map_get, port_map_set,
      with_PT, with_ptcbs, with_FT, with_sockets, with_pipes, with_requests,
      with_infos, with_PORT_MAP, with_trace;
    simpl)).

(** ** Sockets: creation and the wiring made by accept *)

Section SocketCreation.
Context `{KernelConfig}.

(** What [sys_Socket] leaves when it returns a descriptor: a new
    unbound control block [S] behind a new FCB [f] that the descriptor
    now names; nothing else changes in the socket layer. *)
Definition socket_created (port : Z) (s : kernel) (fid : Z) (s' : kernel)
    (S f : ptr) : Prop :=
  0 <= fid /\
  sockets s !! S = None /\
  sockets s' =
    <[S := socket_cb.mk 0 (Some f) SOCKET_UNBOUND port [] None None None]>
      (sockets s) /\
  (exists pcb, array_get (PT s') (CURPROC s') = Some pcb /\
     array_get (PCB.FIDT pcb) fid = Some (Some f)) /\
  (exists fcb, FT s' !! f = Some fcb /\
     FCB.streamobj fcb = Some (SocketObj S)) /\
  pipes s' = pipes s /\ requests s' = requests s /\
  PORT_MAP s' = PORT_MAP s /\ trace s' = trace s.

Lemma sys_Socket_spec port s fid s' :
  sys_Socket port s = Return fid s' ->
  fid = NOFILE \/ exists S f, socket_created port s fid s' S f.
Proof.
  unfold sys_Socket.
  destruct ((MAX_PORT <? port) || (port <? 0)); [intros [= <- _]; auto|].
  simpl. intros Hrun.
  apply bind_Return in Hrun as (r & s1 & Hres & Hrun).
  unfold FCB_reserve in Hres. kred_in Hres.
  destruct (array_get (PT s) (CURPROC s)) as [pcb|] eqn:Hpcb; kred_in Hres;
    [|discriminate].
  destruct (take 1 (free_fids (PCB.FIDT pcb) 0)) as [|fid0 [|? ?]] eqn:Hfree;
    simpl in Hres.
  - injection Hres as <- <-. injection Hrun as <- <-. auto.
  - kred_in Hres. rewrite Hpcb in Hres. kred_in Hres.
    destruct (array_set (PCB.FIDT pcb) fid0 (Some (xmalloc (FT s))))
      as [fidt|] eqn:Hfidt; kred_in Hres; [|discriminate].
    destruct (array_set (PT s) (CURPROC s) (PCB_set_FIDT fidt pcb))
      as [pt|] eqn:Hpt; kred_in Hres; [|discriminate].
    injection Hres as <- <-.
    kred_in Hrun. rewrite lookup_insert_eq in Hrun. kred_in Hrun.
    injection Hrun as <- <-. right.
    exists (xmalloc (sockets s)), (xmalloc (FT s)).
    assert (Hin : fid0 ∈ [fid0]) by (apply list_elem_of_singleton; reflexivity).
    rewrite <- Hfree in Hin. apply elem_of_take in Hin as (i & Hin & _).
    apply list_elem_of_lookup_2, free_fids_lower in Hin.
    destruct (array_set_get _ _ _ _ Hfidt) as (Hget & _).
    destruct (array_set_get _ _ _ _ Hpt) as (Hgetpt & _).
    unfold socket_created. simpl. repeat split; try assumption.
    + apply not_elem_of_dom. apply is_fresh.
    + exists (PCB_set_FIDT fidt pcb). split; assumption.
    + eexists. rewrite lookup_insert_eq. split; reflexivity.
  - assert (Hlen : (length (take 1 (free_fids (PCB.FIDT pcb) 0)) <= 1)%nat)
      by (rewrite length_take; lia).
    rewrite Hfree in Hlen. simpl in Hlen. lia.
Qed.


Lemma get_fcb_lookup fid s f s' :
  get_fcb fid s = Return (Some f) s' ->
  s' = s /\
  exists pcb, array_get (PT s) (CURPROC s) = Some pcb /\
    array_get (PCB.FIDT pcb) fid = Some (Some f).
Proof.
  unfold get_fcb.
  destruct ((fid <? 0) || (MAX_FILEID <=? fid)); [discriminate|].
  intros Hrun. kred_in Hrun.
  destruct (array_get (PT s) (CURPROC s)) as [pcb|]; kred_in Hrun;
    [|discriminate].
  destruct (array_get (PCB.FIDT pcb) fid) as [e|] eqn:He; kred_in Hrun;
    [|discriminate].
  injection Hrun as -> <-. eauto.
Qed.

(** The wiring [sys_Accept] leaves between the connector [C] of the
    admitted request and the server socket [S] it creates. *)
Definition accept_wired (s : kernel) (fid : Z) (s' : kernel) : Prop :=
  exists (r C S A B fS : ptr) req cbC cbS pa pb,
    (sockets s' !! C = Some cbC /\ sockets s' !! S = Some cbS) /\
    (pipes s' !! A = Some pa /\ pipes s' !! B = Some pb) /\
    (requests s !! r = Some req /\
     connection_request.peer req = Some C /\
     requests s' !! r = Some (connection_request.mk 1 (Some C))) /\
    (sockets s !! S = None /\
     (exists pcb fcb,
        array_get (PT s') (CURPROC s') = Some pcb /\
        array_get (PCB.FIDT pcb) fid = Some (Some fS) /\
        FT s' !! fS = Some fcb /\
        FCB.streamobj fcb = Some (SocketObj S)) /\
     socket_cb.fcb cbS = Some fS) /\
    (pipes s !! A = None /\ pipes s !! B = None /\ A <> B /\
     (forall q, q <> A -> q <> B -> pipes s' !! q = pipes s !! q)) /\
    (pipe_cb.writer pa = socket_cb.fcb cbS /\
     pipe_cb.reader pa = socket_cb.fcb cbC /\
     pipe_cb.writer pb = socket_cb.fcb cbC /\
     pipe_cb.reader pb = socket_cb.fcb cbS) /\
    (socket_cb.read_pipe cbC = Some A /\
     socket_cb.write_pipe cbC = Some B /\
     socket_cb.read_pipe cbS = Some B /\
     socket_cb.write_pipe cbS = Some A) /\
    (socket_cb.type cbC = SOCKET_PEER /\
     socket_cb.type cbS = SOCKET_PEER /\
     socket_cb.peer cbC = Some S /\
     socket_cb.peer cbS = Some C).

Lemma sys_Accept_admit_wired ls s fid s' :
  sys_Accept_admit ls s = Return fid s' -> fid <> NOFILE ->
  accept_wired s fid s'.
Proof.
  unfold sys_Accept_admit. intros Hrun Hfid. kred_in Hrun.
  destruct (sockets s !! ls) as [cb|] eqn:Hls; kred_in Hrun; [|discriminate].
  destruct (array_get (PORT_MAP s) (socket_cb.port cb)) as [bound|];
    kred_in Hrun; [|discriminate].
  destruct (bool_decide (bound = None)); [now injection Hrun as <- _|].
  destruct (socket_cb.queue cb) as [|r rest] eqn:Hqueue; [discriminate|].
  kred_in Hrun.
  destruct (requests s !! r) as [req|] eqn:Hreq; kred_in Hrun; [|discriminate].
  destruct (connection_request.peer req) as [C|] eqn:Hpeer;
    [|now injection Hrun as <- _].
  kred_in Hrun.
  destruct (<[ls:=socket_cb_set_queue rest cb]> (sockets s) !! C) as [cb1|] eqn:HC;
    kred_in Hrun; [|discriminate].
  destruct (bool_decide (socket_cb.type cb1 <> SOCKET_UNBOUND));
    [now injection Hrun as <- _|].
  match type of Hrun with
  | match sys_Socket ?port ?st with _ => _ end = _ =>
      destruct (sys_Socket port st) as [s1 s2| |] eqn:Hsocket; try discriminate
  end.
  destruct (get_fcb s1 s2) as [S2 s2'| |] eqn:Hfcb; try discriminate.
  destruct (Z.eqb_spec s1 NOFILE) as [->|Hs1]; [now injection Hrun as <- _|].
  destruct S2 as [f2|]; kred_in Hrun; [|discriminate].
  apply get_fcb_lookup in Hfcb as (-> & pcb & Hpcb & Hfidt).
  apply sys_Socket_spec in Hsocket as [->|(S & f & Hcreated)]; [contradiction|].
  destruct Hcreated as (Hpos & Hfresh & Hsockets & (pcb' & Hpcb' & Hfidt')
                        & (fcb & Hfcb & Hobj) & Hpipes & Hreqs & Hports & Htrace).
  rewrite Hpcb in Hpcb'. injection Hpcb' as <-.
  rewrite Hfidt in Hfidt'. injection Hfidt' as ->.
  rewrite Hfcb in Hrun. kred_in Hrun. unfold as_socket in Hrun.
  rewrite Hobj in Hrun. kred_in Hrun.
  simpl in Hfresh, Hsockets.
  assert (HCS : C <> S) by (intros ->; rewrite Hfresh in HC; discriminate).
  assert (HlS : ls <> S).
  { intros ->. rewrite lookup_insert_eq in Hfresh. discriminate. }
  assert (HfreshS : sockets s !! S = None).
  { rewrite lookup_insert_ne in Hfresh by assumption. assumption. }
  pose proof (is_fresh (dom (pipes s))) as HA.
  pose proof (is_fresh (dom (<[xmalloc (pipes s) :=
                new_pipe (socket_cb.fcb cb1) (Some f)]> (pipes s)))) as HB.
  fold (xmalloc (pipes s)) in HA, HB.
  fold (xmalloc (<[xmalloc (pipes s) :=
          new_pipe (socket_cb.fcb cb1) (Some f)]> (pipes s))) in HB.
  set (A := xmalloc (pipes s)) in *.
  set (B := xmalloc (<[A := new_pipe (socket_cb.fcb cb1) (Some f)]> (pipes s))) in *.
  apply not_elem_of_dom in HA, HB.
  assert (HAB : A <> B).
  { intros HAB. rewrite <- HAB, lookup_insert_eq in HB. discriminate. }
  rewrite lookup_insert_ne in HB by assumption.
  assert (Hwire : forall q, q <> A -> q <> B ->
            <[B := new_pipe (Some f) (socket_cb.fcb cb1)]>
              (<[A := new_pipe (socket_cb.fcb cb1) (Some f)]> (pipes s)) !! q
            = pipes s !! q).
  { intros q HqA HqB. now rewrite !lookup_insert_ne by congruence. }
  destruct (decide (ls = C)) as [HlC|HlC];
    [subst C|rewrite lookup_insert_ne in HC by assumption];
    repeat (progress (
      rewrite ?Hsockets, ?Hpipes, ?Hreqs in Hrun; simpl in Hrun;
      rewrite ?lookup_insert_eq in Hrun;
      repeat (rewrite lookup_insert_ne in Hrun by congruence);
      rewrite ?HC, ?Hfresh, ?Hreq in Hrun; kred_in Hrun)).
  all: 
    injection Hrun as <- <-;
    unfold accept_wired;
    exists r;
    match type of Hpeer with _ = Some ?c => exists c end;
    exists S, A, B, f, req; do 4 eexists; subst A B; simpl;
    repeat first [rewrite lookup_insert_eq
                 |rewrite lookup_insert_ne by congruence];
    (split; [split; reflexivity|]);
    (split; [split; reflexivity|]);
    (split; [rewrite Hpeer; auto|]);
    (split; [split; [assumption|split; [exists pcb, fcb; auto|reflexivity]]|]);
    (split; [repeat split; assumption|]);
    simpl; auto 20.
Qed.

Lemma accept_wired_entry s0 s fid s' :
  requests s0 = requests s -> pipes s0 = pipes s ->
  (forall q, sockets s0 !! q = None -> sockets s !! q = None) ->
  accept_wired s0 fid s' -> accept_wired s fid s'.
Proof.
  intros Hreqs Hpipes Hsockets
    (r & C & S & A & B & fS & req & cbC & cbS & pa & pb & Hs & Hp & Hr & HS
     & Hnew & Hrest).
  rewrite Hreqs in Hr. rewrite !Hpipes in Hnew.
  destruct HS as (HS & HS'). apply Hsockets in HS.
  exists r, C, S, A, B, fS, req, cbC, cbS, pa, pb. auto 10.
Qed.

Lemma sys_Accept_wait_wired ls s fid s' :
  sys_Accept_wait ls s = Return fid s' -> fid <> NOFILE ->
  accept_wired s fid s'.
Proof.
  unfold sys_Accept_wait. intros Hrun Hfid. kred_in Hrun.
  destruct (sockets s !! ls) as [cb|] eqn:Hls; kred_in Hrun; [|discriminate].
  destruct (bool_decide (socket_cb.queue cb = [])
            && negb (socket_cb.refcount cb =? 0)).
  - kred_in Hrun.
    destruct (array_get (PORT_MAP s) (socket_cb.port cb)) as [bound|];
      kred_in Hrun; [|discriminate].
    destruct (bool_decide (bound = None)); [|discriminate].
    now injection Hrun as <- _.
  - now apply (sys_Accept_admit_wired ls).
Qed.

Lemma sys_Accept_wired lsock s fid s' :
  sys_Accept lsock s = Return fid s' -> fid <> NOFILE ->
  accept_wired s fid s'.
Proof.
  unfold sys_Accept. intros Hrun Hfid.
  apply bind_Return in Hrun as (o & s0 & Hfcb & Hrun).
  destruct o as [f|]; [|now injection Hrun as <- _].
  apply get_fcb_lookup in Hfcb as (-> & _). kred_in Hrun.
  destruct (FT s !! f) as [fcb|]; kred_in Hrun; [|discriminate].
  unfold as_socket in Hrun.
  destruct (FCB.streamobj fcb) as [[q|ls|q]|]; kred_in Hrun;
    try discriminate; [|now injection Hrun as <- _].
  destruct (sockets s !! ls) as [cb|] eqn:Hls; kred_in Hrun; [|discriminate].
  destruct ((socket_cb.port cb <? 0) || (MAX_PORT <? socket_cb.port cb));
    [now injection Hrun as <- _|].
  destruct (bool_decide (socket_cb.type cb <> SOCKET_LISTENER));
    [now injection Hrun as <- _|].
  apply (sys_Accept_wait_wired ls) in Hrun; [|assumption].
  revert Hrun. apply accept_wired_entry; try reflexivity.
  simpl. intros q Hq. apply lookup_insert_None in Hq. tauto.
Qed.

(** C9: a [sys_Accept] that succeeds, straight away or after waking from
    its wait, admits a request of a connector [C], creates the server
    socket [S] and exactly two pipe control blocks [A] and [B]; [A] is
    written by [S]'s FCB and read by [C]'s, [B] the other way round; [C]
    reads [A] and writes [B], [S] reads [B] and writes [A]; both are PEER
    and each is the other's peer. *)
Theorem accept_wiring lsock ls s fid s' :
  fid <> NOFILE ->
  sys_Accept lsock s = Return fid s' \/ sys_Accept_wait ls s = Return fid s' ->
  accept_wired s fid s'.
Proof.
  intros Hfid [Hrun|Hrun].
  - now apply (sys_Accept_wired lsock).
  - now apply (sys_Accept_wait_wired ls).
Qed.

End SocketCreation.

Lemma accept_wiring_witness :
  accept_wired connecting 2 connected.
Proof.
  apply (accept_wiring (H := small_config) 0 1%positive connecting 2 connected).
  - discriminate.
  - left. vm_compute. reflexivity.
Defined.

(** ** Sockets: reference counts *)

Section SocketCounts.
Context `{KernelConfig}.

(** The timeout branch of [sys_Connect] returns -1 and touches nothing:
    neither the reference taken at entry nor the queued request. *)
Lemma sys_Connect_wake_timeout socket connect s :
  sys_Connect_wake socket connect false s = Return (-1) s.
Proof. reflexivity. Qed.

(** C2: a control block made by [sys_Socket] starts with [refcount = 0];
    the one [socket_close] it then gets decrements the [uint] to
    [UINT_MAX], which is not 0, so the block is not freed. *)
Theorem socket_not_freed_by_close port s fid s1 :
  sys_Socket port s = Return fid s1 ->
  fid <> NOFILE ->
  exists S f,
    sockets s !! S = None /\
    sockets s1 !! S =
      Some (socket_cb.mk 0 (Some f) SOCKET_UNBOUND port [] None None None) /\
    socket_close (Some S) s1 =
      Return 0
        (with_sockets
           (insert S (socket_cb.mk 4294967295 (Some f) SOCKET_UNBOUND port []
                        None None None)) s1).
Proof.
  intros Hrun Hfid.
  apply sys_Socket_spec in Hrun as [->|(S & f & Hcreated)]; [contradiction|].
  destruct Hcreated as (_ & Hfresh & Hsockets & _).
  exists S, f. split; [assumption|].
  assert (HS : sockets s1 !! S =
            Some (socket_cb.mk 0 (Some f) SOCKET_UNBOUND port [] None None None))
    by (rewrite Hsockets; apply lookup_insert_eq).
  split; [assumption|].
  unfold socket_close. kred. rewrite HS. kred. rewrite HS. reflexivity.
Qed.

(** Reading [PORT_MAP[MAX_PORT]] is outside the array declared with
    [MAX_PORT] elements. *)
Lemma port_map_get_MAX_PORT s :
  length (PORT_MAP s) = Z.to_nat MAX_PORT -> 0 <= MAX_PORT ->
  port_map_get MAX_PORT s = Fault OutOfBounds.
Proof.
  intros Hlen Hpos. unfold port_map_get, array_get.
  destruct (Z.ltb_spec MAX_PORT 0); [lia|].
  rewrite (lookup_ge_None_2 (PORT_MAP s) (Z.to_nat MAX_PORT)) by lia.
  reflexivity.
Qed.

End SocketCounts.

Lemma socket_not_freed_by_close_witness :
  exists S f,
    sockets (boot 1 None) !! S = None /\
    sockets (after (sys_Socket (H := small_config) 0 (boot 1 None))
               (boot 1 None)) !! S =
      Some (socket_cb.mk 0 (Some f) SOCKET_UNBOUND 0 [] None None None) /\
    socket_close (Some S)
      (after (sys_Socket (H := small_config) 0 (boot 1 None)) (boot 1 None)) =
      Return 0
        (with_sockets
           (insert S (socket_cb.mk 4294967295 (Some f) SOCKET_UNBOUND 0 []
                        None None None))
           (after (sys_Socket (H := small_config) 0 (boot 1 None))
              (boot 1 None))).
Proof.
  apply (socket_not_freed_by_close (H := small_config) 0 (boot 1 None) 0).
  - vm_compute. reflexivity.
  - discriminate.
Defined.

(** The connector times out, connects again, and the listener accepts
    twice: the first accept admits the request the timed-out call left in
    the queue, the second finds a connector that is a peer already. *)
Definition timed_out : kernel :=
  after (sys_Connect_wake 2 1 false connecting) connecting.
Definition connecting_again : kernel :=
  after (sys_Connect (H := small_config) 1 42 100 timed_out) timed_out.
Definition first_accept : kernel :=
  after (sys_Accept (H := small_config) 0 connecting_again) connecting_again.
Definition second_accept : kernel :=
  after (sys_Accept (H := small_config) 0 first_accept) first_accept.

(** C1 fails on the code: [sys_Connect] that times out returns -1 with
    the connector's [refcount] still one above its value at entry, and
    [sys_Accept] that finds a request whose connector is no longer
    unbound returns [NOFILE] with the listener's [refcount] still one
    above its value at entry. *)
Theorem refcount_left_incremented :
  (socket_cb.refcount <$> sockets listening !! 2%positive = Some 0 /\
   sys_Connect (H := small_config) 1 42 100 listening =
     Suspended (KTimedWait (connected_cv 1%positive) 100) connecting /\
   sys_Connect_wake 2 1 false connecting =
     Return (-1) timed_out /\
   socket_cb.refcount <$> sockets timed_out !! 2%positive = Some 1) /\
  (socket_cb.refcount <$> sockets first_accept !! 1%positive = Some 0 /\
   sys_Accept (H := small_config) 0 first_accept =
     Return NOFILE second_accept /\
   socket_cb.refcount <$> sockets second_accept !! 1%positive = Some 1).
Proof. vm_compute. repeat split; reflexivity. Qed.

(** A socket created on port [MAX_PORT] in the boot state. *)
Definition socket_on_MAX_PORT : kernel :=
  after (sys_Socket (H := small_config) 1023 (boot 1 None)) (boot 1 None).

(** C3 fails on the code: port [MAX_PORT] passes the check of
    [sys_Socket] and the range check of [sys_Listen], and [sys_Listen]
    then reads [PORT_MAP[MAX_PORT]], one element past the array of
    [MAX_PORT] entries. *)
Theorem listen_on_MAX_PORT_out_of_bounds :
  sys_Socket (H := small_config) 1023 (boot 1 None) =
    Return 0 socket_on_MAX_PORT /\
  length (PORT_MAP socket_on_MAX_PORT) = Z.to_nat (MAX_PORT (KernelConfig := small_config)) /\
  sys_Listen (H := small_config) 0 socket_on_MAX_PORT = Fault OutOfBounds.
Proof. vm_compute. repeat split; reflexivity. Qed.

(** ** Frames: what a computation leaves alone *)

Section Frames.
Context (R : kernel -> kernel -> Prop).
Hypothesis R_refl : forall s, R s s.
Hypothesis R_trans : forall s1 s2 s3, R s1 s2 -> R s2 s3 -> R s1 s3.

(** [m] never suspends, and the state it returns in is related to the
    state it started in. *)
Definition steps {A} (m : K A) : Prop :=
  forall s,
    match m s with
    | Return _ s' => R s s'
    | Suspended _ _ => False
    | Fault _ => True
    end.

Lemma steps_ret {A} (a : A) : steps (ret a).
Proof. intros s. apply R_refl. Qed.

Lemma steps_raise {A} f : steps (raise (A := A) f).
Proof. intros s. exact I. Qed.

Lemma steps_gets {A} (f : kernel -> A) : steps (gets f).
Proof. intros s. apply R_refl. Qed.

Lemma steps_deref {A} f (o : option A) : steps (deref f o).
Proof. destruct o; [apply steps_ret | apply steps_raise]. Qed.

Lemma steps_read {A} f (g : kernel -> option A) :
  steps (fun s => deref f (g s) s).
Proof. intros s. destruct (g s); simpl; [apply R_refl | exact I]. Qed.

Lemma steps_modify f : (forall s, R s (f s)) -> steps (modify f).
Proof. intros Hf s. apply Hf. Qed.

Lemma steps_bind {A B} (m : K A) (k : A -> K B) :
  steps m -> (forall a, steps (k a)) -> steps (bind m k).
Proof.
  intros Hm Hk s. unfold bind. specialize (Hm s).
  destruct (m s) as [a s1|w s1|f]; [|assumption|exact I].
  specialize (Hk a s1).
  destruct (k a s1) as [b s2|w s2|f]; [|assumption|exact I].
  eapply R_trans; eassumption.
Qed.

Lemma steps_Suspended {A} (m : K A) s w s' :
  steps m -> m s = Suspended w s' -> False.
Proof. intros Hm Hrun. specialize (Hm s). now rewrite Hrun in Hm. Qed.

Lemma steps_Return {A} (m : K A) s a s' :
  steps m -> m s = Return a s' -> R s s'.
Proof. intros Hm Hrun. specialize (Hm s). now rewrite Hrun in Hm. Qed.

End Frames.

Lemma steps_mono (R R' : kernel -> kernel -> Prop) {A} (m : K A) :
  (forall s s', R s s' -> R' s s') -> steps R m -> steps R' m.
Proof.
  intros Hsub Hm s. specialize (Hm s).
  destruct (m s); auto.
Qed.

(** ** Process exit: what the clean-up leaves alone *)

(** The parent link and the children list of every process slot. *)
Definition family (s : kernel) : list (option Z * list Z) :=
  (fun pcb => (PCB.parent pcb, PCB.children_list pcb)) <$> PT s.

(** A step that keeps the process tree, frees thread handles at most, and
    only adds to the trace. *)
Definition quiet (s s' : kernel) : Prop :=
  family s' = family s /\
  CURPROC s' = CURPROC s /\
  (forall T t, ptcbs s' !! T = Some t -> ptcbs s !! T = Some t) /\
  trace s `prefix_of` trace s'.

Lemma quiet_refl s : quiet s s.
Proof. unfold quiet. auto. Qed.

Lemma quiet_trans s1 s2 s3 : quiet s1 s2 -> quiet s2 s3 -> quiet s1 s3.
Proof.
  unfold quiet. intros (Hf & Hc & Hp & Ht) (Hf' & Hc' & Hp' & Ht').
  repeat split; try congruence; [auto|]. now transitivity (trace s2).
Qed.

Create HintDb quiet.

Ltac quiet_leaf :=
  first
    [ apply (steps_ret quiet quiet_refl)
    | apply (steps_raise quiet)
    | apply (steps_gets quiet quiet_refl)
    | apply (steps_deref quiet quiet_refl)
    | apply (steps_read quiet quiet_refl)
    | apply (steps_modify quiet); intros ?; unfold quiet; simpl;
      repeat split; auto using prefix_app_r;
      intros ? ? [_ ?]%lookup_delete_Some; assumption ].

Ltac quiet_steps :=
  repeat first
    [ quiet_leaf
    | solve [auto with quiet]
    | apply (steps_bind quiet quiet_trans); [|intros ?]
    | match goal with
      | |- steps quiet (match ?x with _ => _ end) => destruct x
      | |- steps quiet (if ?b then _ else _) => destruct b
      end ].

Section ExitFrames.
Context `{KernelConfig}.

Lemma quiet_pipe_reader_close o : steps quiet (pipe_reader_close o).
Proof.
  unfold pipe_reader_close, load_pipe, store_pipe, free_pipe, kernel_broadcast.
  quiet_steps.
Qed.
#[local] Hint Resolve quiet_pipe_reader_close : quiet.

Lemma quiet_pipe_writer_close o : steps quiet (pipe_writer_close o).
Proof.
  unfold pipe_writer_close, load_pipe, store_pipe, free_pipe, kernel_broadcast.
  quiet_steps.
Qed.
#[local] Hint Resolve quiet_pipe_writer_close : quiet.

Lemma quiet_shut_read p : steps quiet (shut_read p).
Proof.
  unfold shut_read, update_socket, load_socket, store_socket. quiet_steps.
Qed.
#[local] Hint Resolve quiet_shut_read : quiet.

Lemma quiet_shut_write p : steps quiet (shut_write p).
Proof.
  unfold shut_write, update_socket, load_socket, store_socket. quiet_steps.
Qed.
#[local] Hint Resolve quiet_shut_write : quiet.

Lemma quiet_port_map_set port v : steps quiet (port_map_set port v).
Proof.
  intros s. unfold port_map_set.
  destruct (array_set (PORT_MAP s) port v); [|exact I].
  unfold quiet. simpl. auto.
Qed.
#[local] Hint Resolve quiet_port_map_set : quiet.

Lemma quiet_socket_close o : steps quiet (socket_close o).
Proof.
  unfold socket_close, load_socket, store_socket, free_socket,
    kernel_broadcast.
  quiet_steps.
Qed.
#[local] Hint Resolve quiet_socket_close : quiet.

Lemma quiet_FCB_decref f : steps quiet (FCB_decref f).
Proof.
  unfold FCB_decref, load_FCB, store_FCB, as_pipe, as_socket, as_info.
  quiet_steps.
Qed.
#[local] Hint Resolve quiet_FCB_decref : quiet.

End ExitFrames.

Section ExitSteps.
Context `{KernelConfig}.

Lemma array_set_insert {A} (l l' : list A) i x :
  array_set l i x = Some l' -> l' = <[Z.to_nat i := x]> l /\ 0 <= i.
Proof.
  unfold array_set. destruct (Z.ltb_spec i 0); simpl; [discriminate|].
  destruct (_ <=? _); [discriminate|]. intros [= <-]. auto.
Qed.

Lemma array_get_lookup {A} (l : list A) i x :
  array_get l i = Some x -> l !! Z.to_nat i = Some x /\ 0 <= i.
Proof.
  unfold array_get. destruct (Z.ltb_spec i 0); [discriminate|]. auto.
Qed.

Lemma quiet_update_PCB pid f :
  (forall pcb, PCB.parent (f pcb) = PCB.parent pcb /\
               PCB.children_list (f pcb) = PCB.children_list pcb) ->
  steps quiet (update_PCB pid f).
Proof.
  intros Hf s. unfold update_PCB, bind, load_PCB, store_PCB, deref, ret, raise.
  destruct (array_get (PT s) pid) as [pcb|] eqn:Hget; simpl; [|exact I].
  destruct (array_set (PT s) pid (f pcb)) as [pt|] eqn:Hset; [|exact I].
  apply array_set_insert in Hset as [-> _].
  apply array_get_lookup in Hget as [Hget _].
  unfold quiet, family. simpl. repeat split; auto.
  rewrite list_fmap_insert. apply list_insert_id.
  rewrite list_lookup_fmap, Hget. simpl.
  destruct (Hf pcb) as [-> ->]. reflexivity.
Qed.

Lemma quiet_store_loaded cur (g : PCB.t -> option PCB.t) :
  (forall pcb pcb', g pcb = Some pcb' ->
     PCB.parent pcb' = PCB.parent pcb /\
     PCB.children_list pcb' = PCB.children_list pcb) ->
  steps quiet
    (let* pcb := load_PCB cur in
     let* pcb' := deref OutOfBounds (g pcb) in
     store_PCB cur pcb').
Proof.
  intros Hg s. unfold bind, load_PCB, store_PCB, deref, ret, raise.
  destruct (array_get (PT s) cur) as [pcb|] eqn:Hget; simpl; [|exact I].
  destruct (g pcb) as [pcb'|] eqn:Hpcb'; simpl; [|exact I].
  destruct (array_set (PT s) cur pcb') as [pt|] eqn:Hset; [|exact I].
  apply array_set_insert in Hset as [-> _].
  apply array_get_lookup in Hget as [Hget _].
  unfold quiet, family. simpl. repeat split; auto.
  rewrite list_fmap_insert. apply list_insert_id.
  rewrite list_lookup_fmap, Hget. simpl.
  destruct (Hg pcb pcb' Hpcb') as [-> ->]. reflexivity.
Qed.

Lemma quiet_close_fids cur todo : forall i, steps quiet (close_fids cur todo i).
Proof.
  induction todo as [|todo IH]; intros i; simpl.
  - apply (steps_ret quiet quiet_refl).
  - apply (steps_bind quiet quiet_trans); [apply (steps_read quiet quiet_refl)|].
    intros pcb. apply (steps_bind quiet quiet_trans);
      [apply (steps_deref quiet quiet_refl)|].
    intros entry. apply (steps_bind quiet quiet_trans); [|intros _; apply IH].
    destruct entry as [f|]; [|apply (steps_ret quiet quiet_refl)].
    apply (steps_bind quiet quiet_trans); [apply quiet_FCB_decref|].
    intros _.
    pose proof (quiet_store_loaded cur
      (fun pcb => match array_set (PCB.FIDT pcb) i None with
                  | Some fidt => Some (PCB_set_FIDT fidt pcb)
                  | None => None
                  end)) as Hstore.
    intros s.
    assert (Hquiet : forall pcb pcb' : PCB.t,
              match array_set (PCB.FIDT pcb) i None with
              | Some fidt => Some (PCB_set_FIDT fidt pcb)
              | None => None
              end = Some pcb' ->
              PCB.parent pcb' = PCB.parent pcb /\
              PCB.children_list pcb' = PCB.children_list pcb).
    { intros p p'. destruct (array_set _ _ _); [|discriminate].
      intros [= <-]. auto. }
    specialize (Hstore Hquiet s).
    revert Hstore. unfold bind, load_PCB, deref, ret, raise.
    destruct (array_get (PT s) cur) as [pcb0|]; simpl; [|auto].
    destruct (array_set (PCB.FIDT pcb0) i None); simpl; auto.
Qed.

Lemma quiet_free_ptcb_list cur l : steps quiet (free_ptcb_list cur l).
Proof.
  induction l as [|t rest IH]; simpl.
  - apply (steps_ret quiet quiet_refl).
  - apply (steps_bind quiet quiet_trans);
      [apply quiet_update_PCB; intros pcb; split; reflexivity|].
    intros _. apply (steps_bind quiet quiet_trans); [|intros _; apply IH].
    unfold free_ptcb. quiet_steps.
Qed.

Lemma quiet_release_process cur : steps quiet (release_process cur).
Proof.
  unfold release_process.
  apply (steps_bind quiet quiet_trans); [apply (steps_read quiet quiet_refl)|].
  intros curproc.
  apply (steps_bind quiet quiet_trans); [unfold assert; quiet_steps|].
  intros _.
  apply (steps_bind quiet quiet_trans); [unfold assert; quiet_steps|].
  intros _.
  apply (steps_bind quiet quiet_trans);
    [apply quiet_update_PCB; intros pcb; split; reflexivity|].
  intros _.
  apply (steps_bind quiet quiet_trans); [apply quiet_close_fids|].
  intros _.
  apply (steps_bind quiet quiet_trans); [apply (steps_read quiet quiet_refl)|].
  intros curproc'.
  apply (steps_bind quiet quiet_trans); [apply quiet_free_ptcb_list|].
  intros _.
  apply (steps_bind quiet quiet_trans); [|intros _];
    apply quiet_update_PCB; intros pcb; split; reflexivity.
Qed.

(** Reparenting changes the parent links to the initial task and the
    children lists, and nothing else of the process table. *)
Definition kin (s s' : kernel) : Prop :=
  trace s' = trace s /\ ptcbs s' = ptcbs s /\ CURPROC s' = CURPROC s /\
  forall q pcb, array_get (PT s) q = Some pcb ->
    exists pcb', array_get (PT s') q = Some pcb' /\
      PCB.exited_list pcb' = PCB.exited_list pcb /\
      (PCB.parent pcb' = PCB.parent pcb \/ PCB.parent pcb' = Some 1).

Lemma kin_refl s : kin s s.
Proof. unfold kin. repeat split; auto. intros q pcb Hq. eauto. Qed.

Lemma kin_trans s1 s2 s3 : kin s1 s2 -> kin s2 s3 -> kin s1 s3.
Proof.
  unfold kin. intros (Ht & Hp & Hc & Hk) (Ht' & Hp' & Hc' & Hk').
  repeat split; try congruence.
  intros q pcb Hq. destruct (Hk q pcb Hq) as (pcb1 & Hq1 & He1 & Hpar1).
  destruct (Hk' q pcb1 Hq1) as (pcb2 & Hq2 & He2 & Hpar2).
  exists pcb2. split; [assumption|]. split; [congruence|].
  destruct Hpar2 as [Hpar2|Hpar2]; [|auto].
  rewrite Hpar2. assumption.
Qed.

(** What [update_PCB] does to the process table. *)
Lemma update_PCB_spec pid f s s' :
  update_PCB pid f s = Return tt s' ->
  exists pcb,
    array_get (PT s) pid = Some pcb /\
    array_get (PT s') pid = Some (f pcb) /\
    (forall q, q <> pid -> array_get (PT s') q = array_get (PT s) q) /\
    trace s' = trace s /\ ptcbs s' = ptcbs s /\ CURPROC s' = CURPROC s.
Proof.
  unfold update_PCB. intros Hrun. kred_in Hrun.
  destruct (array_get (PT s) pid) as [pcb|] eqn:Hget; kred_in Hrun;
    [|discriminate].
  destruct (array_set (PT s) pid (f pcb)) as [pt|] eqn:Hset; [|discriminate].
  injection Hrun as <-. simpl.
  destruct (array_set_get _ _ _ _ Hset) as (Hnew & Hother & _).
  exists pcb. auto 10.
Qed.

Lemma kin_update_PCB pid f :
  (forall pcb, PCB.exited_list (f pcb) = PCB.exited_list pcb /\
     (PCB.parent (f pcb) = PCB.parent pcb \/ PCB.parent (f pcb) = Some 1)) ->
  steps kin (update_PCB pid f).
Proof.
  intros Hf s. destruct (update_PCB pid f s) as [[] s'|w s'|] eqn:Hrun;
    [| |exact I].
  - apply update_PCB_spec in Hrun
      as (pcb & Hget & Hnew & Hother & Ht & Hp & Hc).
    repeat split; try assumption. intros q pcbq Hq.
    destruct (decide (q = pid)) as [->|Hne].
    + rewrite Hget in Hq. injection Hq as <-. exists (f pcb).
      split; [assumption|]. apply Hf.
    + exists pcbq. rewrite Hother by assumption. auto.
  - unfold update_PCB in Hrun. kred_in Hrun.
    destruct (array_get (PT s) pid) as [pcb|]; kred_in Hrun; [|discriminate].
    destruct (array_set (PT s) pid (f pcb)); discriminate.
Qed.

Lemma kin_reparent_children cur children :
  steps kin (reparent_children cur (Some 1) children).
Proof.
  induction children as [|child rest IH]; simpl.
  - apply (steps_ret kin kin_refl).
  - apply (steps_bind kin kin_trans);
      [apply kin_update_PCB; intros pcb; simpl; auto|].
    intros _. apply (steps_bind kin kin_trans);
      [apply kin_update_PCB; intros pcb; simpl; auto|].
    intros _. apply (steps_bind kin kin_trans);
      [apply (steps_ret kin kin_refl)|].
    intros init. apply (steps_bind kin kin_trans); [|intros _; apply IH].
    apply kin_update_PCB; intros pcb; simpl; auto.
Qed.

(** Process [c] is a child of the initial task. *)
Definition reparented (s : kernel) (c : Z) : Prop :=
  (exists cpcb, array_get (PT s) c = Some cpcb /\ PCB.parent cpcb = Some 1) /\
  (exists ipcb, array_get (PT s) 1 = Some ipcb /\ c ∈ PCB.children_list ipcb).

Lemma family_array_get s s' q pcb :
  family s' = family s -> array_get (PT s) q = Some pcb ->
  exists pcb', array_get (PT s') q = Some pcb' /\
    PCB.parent pcb' = PCB.parent pcb /\
    PCB.children_list pcb' = PCB.children_list pcb.
Proof.
  unfold family, array_get. intros Hfam.
  destruct (Z.ltb_spec q 0); [discriminate|]. intros Hq.
  apply (f_equal (fun l => l !! Z.to_nat q)) in Hfam.
  rewrite !list_lookup_fmap, Hq in Hfam.
  destruct (PT s' !! Z.to_nat q) as [pcb'|]; [|discriminate].
  injection Hfam as Hp Hc. eauto.
Qed.

Lemma quiet_reparented s s' c : quiet s s' -> reparented s c -> reparented s' c.
Proof.
  intros (Hfam & _) [(cpcb & Hc & Hpar) (ipcb & Hi & Hin)].
  destruct (family_array_get s s' c cpcb Hfam Hc) as (cpcb' & Hc' & Hpar' & _).
  destruct (family_array_get s s' 1 ipcb Hfam Hi) as (ipcb' & Hi' & _ & Hkids).
  split; [exists cpcb'|exists ipcb']; split; congruence.
Qed.

Lemma reparented_update pid f s s' c :
  update_PCB pid f s = Return tt s' ->
  (forall pcb, PCB.parent pcb = Some 1 -> PCB.parent (f pcb) = Some 1) ->
  (pid = 1 -> forall pcb, c ∈ PCB.children_list pcb ->
     c ∈ PCB.children_list (f pcb)) ->
  reparented s c -> reparented s' c.
Proof.
  intros Hrun Hpar Hkids [(cpcb & Hc & Hcpar) (ipcb & Hi & Hin)].
  apply update_PCB_spec in Hrun as (pcb & Hget & Hnew & Hother & _).
  split.
  - destruct (decide (c = pid)) as [->|Hne].
    + exists (f pcb). split; [assumption|]. apply Hpar. congruence.
    + exists cpcb. rewrite Hother by assumption. auto.
  - destruct (decide (1 = pid)) as [<-|Hne].
    + exists (f pcb). split; [assumption|]. apply Hkids; congruence.
    + exists ipcb. rewrite Hother by assumption. auto.
Qed.

Lemma reparent_children_spec cur children : cur <> 1 -> forall s s',
  reparent_children cur (Some 1) children s = Return tt s' ->
  (forall c, reparented s c -> reparented s' c) /\
  (forall c, c ∈ children -> reparented s' c).
Proof.
  intros Hcur. induction children as [|child rest IH]; intros s s' Hrun;
    simpl in Hrun.
  - injection Hrun as <-. split; [auto|]. intros c Hc. inversion Hc.
  - apply bind_Return in Hrun as ([] & s1 & Hup1 & Hrun).
    apply bind_Return in Hrun as ([] & s2 & Hup2 & Hrun).
    apply bind_Return in Hrun as (init & s2' & Hinit & Hrun).
    injection Hinit as <- <-.
    apply bind_Return in Hrun as ([] & s3 & Hup3 & Hrun).
    destruct (IH _ _ Hrun) as [Hkeep Hrest].
    assert (Hstep : forall c, reparented s c -> reparented s3 c).
    { intros c Hc.
      apply (reparented_update _ _ _ _ c Hup3); [auto| |].
      { intros _ pcb Hin. simpl. now apply list_elem_of_further. }
      apply (reparented_update _ _ _ _ c Hup2); [auto|auto|].
      apply (reparented_update _ _ _ _ c Hup1); [auto| |assumption].
      intros Heq. congruence. }
    split; [auto|].
    intros c Hc. apply elem_of_cons in Hc as [->|Hc]; [|auto].
    apply Hkeep.
    apply update_PCB_spec in Hup2 as (pcb2 & _ & Hnew2 & _).
    apply update_PCB_spec in Hup3 as (pcb3 & Hget3 & Hnew3 & Hother3 & _).
    split.
    + destruct (decide (child = 1)) as [->|Hne].
      * exists (PCB_set_children_list (1 :: PCB.children_list pcb3) pcb3).
        split; [assumption|]. simpl. rewrite Hnew2 in Hget3.
        injection Hget3 as <-. reflexivity.
      * exists (PCB_set_parent (Some 1) pcb2).
        rewrite Hother3 by assumption. auto.
    + eexists. split; [exact Hnew3|]. simpl. apply list_elem_of_here.
Qed.

Lemma get_pcb_spec pid s o s' :
  get_pcb pid s = Return o s' -> s' = s /\ (o = None \/ o = Some pid).
Proof.
  unfold get_pcb. intros Hrun. kred_in Hrun.
  destruct (array_get (PT s) pid) as [pcb|]; kred_in Hrun; [|discriminate].
  injection Hrun as <- <-. destruct (bool_decide _); auto.
Qed.

Lemma load_PCB_spec pid s pcb s' :
  load_PCB pid s = Return pcb s' -> s' = s /\ array_get (PT s) pid = Some pcb.
Proof.
  unfold load_PCB, deref. destruct (array_get (PT s) pid); [|discriminate].
  intros [= <- <-]. auto.
Qed.

Lemma reparent_children_no_init cur children s s' :
  reparent_children cur None children s = Return tt s' ->
  children = [] /\ s' = s.
Proof.
  destruct children as [|child rest]; simpl.
  - intros [= <-]. auto.
  - intros Hrun.
    apply bind_Return in Hrun as ([] & s1 & _ & Hrun).
    apply bind_Return in Hrun as ([] & s2 & _ & Hrun).
    apply bind_Return in Hrun as (init & s2' & Hinit & _). discriminate.
Qed.

(** The block that gives the exited children to the initial task. *)
Definition hand_over_exited (cur : Z) (initpcb : option Z) (curproc : PCB.t)
    : K unit :=
  if negb (bool_decide (PCB.exited_list curproc = [])) then
    let* init := deref NullDeref initpcb in
    update_PCB init
      (fun pcb =>
         PCB_set_exited_list
           (PCB.exited_list pcb ++ PCB.exited_list curproc) pcb) ;;
    update_PCB cur (PCB_set_exited_list []) ;;
    kernel_broadcast (child_exit init)
  else ret tt.

Lemma quiet_hand_over_exited cur initpcb curproc :
  steps quiet (hand_over_exited cur initpcb curproc).
Proof.
  unfold hand_over_exited. destruct (negb _); [|quiet_steps].
  apply (steps_bind quiet quiet_trans); [quiet_steps|]. intros init.
  apply (steps_bind quiet quiet_trans);
    [apply quiet_update_PCB; intros pcb; split; reflexivity|]. intros _.
  apply (steps_bind quiet quiet_trans);
    [apply quiet_update_PCB; intros pcb; split; reflexivity|]. intros _.
  unfold kernel_broadcast. quiet_steps.
Qed.

Lemma hand_over_exited_broadcast cur curproc s s' :
  hand_over_exited cur (Some 1) curproc s = Return tt s' ->
  PCB.exited_list curproc <> [] ->
  Broadcast (child_exit 1) ∈ trace s'.
Proof.
  unfold hand_over_exited. intros Hrun Hne.
  rewrite bool_decide_eq_false_2 in Hrun by assumption. simpl in Hrun.
  apply bind_Return in Hrun as (init & s0 & Hinit & Hrun).
  injection Hinit as <- <-.
  apply bind_Return in Hrun as ([] & s1 & _ & Hrun).
  apply bind_Return in Hrun as ([] & s2 & _ & Hrun).
  injection Hrun as <-. simpl. apply elem_of_app. right.
  apply list_elem_of_here.
Qed.

Lemma hand_over_children_spec cur s s' pcb :
  cur <> 1 ->
  array_get (PT s) cur = Some pcb ->
  hand_over_children cur s = Return tt s' ->
  (forall c, c ∈ PCB.children_list pcb -> reparented s' c) /\
  (PCB.exited_list pcb <> [] \/ PCB.parent pcb = Some 1 ->
   Broadcast (child_exit 1) ∈ trace s').
Proof.
  intros Hcur Hpcb Hrun. unfold hand_over_children in Hrun.
  apply bind_Return in Hrun as (initpcb & s0 & Hinit & Hrun).
  apply get_pcb_spec in Hinit as [-> Hinit].
  apply bind_Return in Hrun as (curproc & s0 & Hload & Hrun).
  apply load_PCB_spec in Hload as [-> Hload].
  rewrite Hpcb in Hload. injection Hload as <-.
  apply bind_Return in Hrun as ([] & s1 & Hloop & Hrun).
  apply bind_Return in Hrun as (curproc1 & s0 & Hload & Hrun).
  apply load_PCB_spec in Hload as [-> Hload1].
  apply bind_Return in Hrun as ([] & s2 & Hexited & Hrun).
  fold (hand_over_exited cur initpcb curproc1) in Hexited.
  apply bind_Return in Hrun as (curproc2 & s0 & Hload & Hrun).
  apply load_PCB_spec in Hload as [-> Hload2].
  apply bind_Return in Hrun as (parent & s0 & Hparent & Hrun).
  destruct (PCB.parent curproc2) as [par|] eqn:Hpar; [|discriminate].
  injection Hparent as <- <-.
  apply bind_Return in Hrun as ([] & s3 & Hup & Hrun).
  injection Hrun as <-.
  pose proof (steps_Return quiet _ _ _ _
                (quiet_hand_over_exited cur initpcb curproc1) Hexited) as Hq12.
  assert (Hq23 : quiet s2 s3).
  { refine (steps_Return quiet _ _ _ _ (quiet_update_PCB par _ _) Hup).
    intros p. split; reflexivity. }
  assert (Hq3 : quiet s3 (with_trace (fun t => t ++ [Broadcast (child_exit par)]) s3)).
  { unfold quiet. simpl. repeat split; auto. apply prefix_app_r. reflexivity. }
  assert (Hq1' : quiet s1 (with_trace (fun t => t ++ [Broadcast (child_exit par)]) s3)).
  { eapply quiet_trans; [exact Hq12|]. eapply quiet_trans; eassumption. }
  (* the state of the exiting process after the loop *)
  assert (Hkin : kin s s1 /\
            (forall c, c ∈ PCB.children_list pcb -> reparented s1 c) /\
            (initpcb = Some 1 \/ PCB.exited_list pcb = [])).
  { destruct Hinit as [->| ->].
    - apply reparent_children_no_init in Hloop as [Hnil ->].
      split; [apply kin_refl|]. split.
      + rewrite Hnil. intros c Hc. inversion Hc.
      + right. unfold hand_over_exited in Hexited.
        rewrite Hpcb in Hload1. injection Hload1 as <-.
        destruct (bool_decide_reflect (PCB.exited_list pcb = [])); [assumption|].
        simpl in Hexited. discriminate.
    - split; [|split; [|auto]].
      + apply (steps_Return kin _ _ _ _ (kin_reparent_children cur _) Hloop).
      + apply (reparent_children_spec cur _ Hcur _ _ Hloop). }
  destruct Hkin as ((_ & _ & _ & Hkin) & Hkids & Hinit').
  destruct (Hkin cur pcb Hpcb) as (pcb1 & Hget1 & Hex1 & Hpar1).
  rewrite Hload1 in Hget1. injection Hget1 as <-.
  split.
  - intros c Hc. apply (quiet_reparented s1); auto.
  - intros [Hne|Hinitparent].
    + destruct Hinit' as [->|Hnil]; [|contradiction].
      rewrite <- Hex1 in Hne.
      pose proof (hand_over_exited_broadcast _ _ _ _ Hexited Hne) as Hin.
      destruct Hq23 as (_ & _ & _ & Hpre). simpl.
      apply elem_of_app. left. eapply elem_of_prefix; eassumption.
    + assert (Hpar2 : PCB.parent curproc2 = Some 1).
      { destruct Hq12 as (Hfam & _).
        destruct (family_array_get s1 s2 cur curproc1 Hfam Hload1)
          as (pcb2 & Hget2 & Hp2 & _).
        rewrite Hload2 in Hget2. injection Hget2 as <-.
        rewrite Hp2. destruct Hpar1 as [Hp|Hp]; congruence. }
      rewrite Hpar in Hpar2. injection Hpar2 as ->.
      simpl. apply elem_of_app. right. apply list_elem_of_here.
Qed.

(** Thread handles are only ever freed by the clean-up. *)
Definition shrink (s s' : kernel) : Prop :=
  forall T t, ptcbs s' !! T = Some t -> ptcbs s !! T = Some t.

Lemma shrink_refl s : shrink s s.
Proof. unfold shrink. auto. Qed.

Lemma shrink_trans s1 s2 s3 : shrink s1 s2 -> shrink s2 s3 -> shrink s1 s3.
Proof. unfold shrink. auto. Qed.

Lemma quiet_shrink s s' : quiet s s' -> shrink s s'.
Proof. intros (_ & _ & Hp & _). exact Hp. Qed.

Lemma shrink_update_PCB pid f : steps shrink (update_PCB pid f).
Proof.
  intros s. unfold update_PCB, bind, load_PCB, store_PCB, deref, ret, raise.
  destruct (array_get (PT s) pid) as [pcb|]; simpl; [|exact I].
  destruct (array_set (PT s) pid (f pcb)); [|exact I].
  unfold shrink. simpl. auto.
Qed.

Lemma shrink_reparent_children cur initpcb children :
  steps shrink (reparent_children cur initpcb children).
Proof.
  induction children as [|child rest IH]; simpl.
  - apply (steps_ret shrink shrink_refl).
  - apply (steps_bind shrink shrink_trans); [apply shrink_update_PCB|].
    intros _. apply (steps_bind shrink shrink_trans); [apply shrink_update_PCB|].
    intros _. apply (steps_bind shrink shrink_trans);
      [apply (steps_deref shrink shrink_refl)|].
    intros init. apply (steps_bind shrink shrink_trans); [|intros _; apply IH].
    apply shrink_update_PCB.
Qed.

Lemma shrink_hand_over_children cur : steps shrink (hand_over_children cur).
Proof.
  unfold hand_over_children.
  apply (steps_bind shrink shrink_trans).
  { unfold get_pcb. apply (steps_bind shrink shrink_trans);
      [apply (steps_read shrink shrink_refl)|].
    intros pcb. apply (steps_ret shrink shrink_refl). }
  intros initpcb. apply (steps_bind shrink shrink_trans);
    [apply (steps_read shrink shrink_refl)|].
  intros curproc. apply (steps_bind shrink shrink_trans);
    [apply shrink_reparent_children|].
  intros _. apply (steps_bind shrink shrink_trans);
    [apply (steps_read shrink shrink_refl)|].
  intros curproc1. apply (steps_bind shrink shrink_trans).
  { apply (steps_mono quiet shrink _ quiet_shrink).
    apply (quiet_hand_over_exited cur initpcb curproc1). }
  intros _. apply (steps_bind shrink shrink_trans);
    [apply (steps_read shrink shrink_refl)|].
  intros curproc2. apply (steps_bind shrink shrink_trans);
    [apply (steps_deref shrink shrink_refl)|].
  intros parent. apply (steps_bind shrink shrink_trans);
    [apply shrink_update_PCB|].
  intros _. apply (steps_modify shrink). intros s. unfold shrink. simpl. auto.
Qed.

Lemma shrink_process_cleanup cur : steps shrink (process_cleanup cur).
Proof.
  unfold process_cleanup. apply (steps_bind shrink shrink_trans).
  - destruct (negb _); [apply shrink_hand_over_children|].
    apply (steps_ret shrink shrink_refl).
  - intros _. apply (steps_mono quiet shrink _ quiet_shrink).
    apply quiet_release_process.
Qed.

(** What [sys_ThreadExit] has done when it goes to sleep: the exit value
    is recorded in the caller's handle, [exit_cv] is broadcast, the thread
    count of the process is one less, and the last thread has run the
    clean-up. *)
Lemma sys_ThreadExit_inv v s w s' :
  sys_ThreadExit v s = Suspended w s' ->
  exists T t pcb s1,
    cur_thread_ptcb s = Some T /\
    ptcbs s !! T = Some t /\
    array_get (PT s) (CURPROC s) = Some pcb /\
    ptcbs s1 = <[T := PTCB_set_exited 1 (PTCB_set_exitval v t)]> (ptcbs s) /\
    array_get (PT s1) (CURPROC s) =
      Some (PCB_set_thread_count (PCB.thread_count pcb - 1) pcb) /\
    (forall q, q <> CURPROC s -> array_get (PT s1) q = array_get (PT s) q) /\
    trace s1 = trace s ++ [Broadcast (exit_cv T)] /\
    (if PCB.thread_count pcb - 1 =? 0
     then process_cleanup (CURPROC s) s1 = Return tt s'
     else s' = s1).
Proof.
  unfold sys_ThreadExit, update_ptcb. intros Hrun. kred_in Hrun.
  destruct (cur_thread_ptcb s) as [T|] eqn:HT; kred_in Hrun; [|discriminate].
  destruct (ptcbs s !! T) as [t|] eqn:Ht; kred_in Hrun; [|discriminate].
  rewrite lookup_insert_eq in Hrun. kred_in Hrun.
  destruct (array_get (PT s) (CURPROC s)) as [pcb|] eqn:Hpcb; kred_in Hrun;
    [|discriminate].
  destruct (array_set (PT s) (CURPROC s)
              (PCB_set_thread_count (PCB.thread_count pcb - 1) pcb))
    as [pt|] eqn:Hset; [|discriminate].
  destruct (array_set_get _ _ _ _ Hset) as (Hnew & Hother & _).
  rewrite insert_insert_eq in Hrun.
  match type of Hrun with
  | context [if _ then process_cleanup _ else _] =>
      match type of Hrun with
      | match (if ?b then ?m else ?m') ?st with _ => _ end = _ =>
          exists T, t, pcb, st
      end
  end.
  simpl.
  repeat (split; [solve [auto]|]).
  destruct (PCB.thread_count pcb - 1 =? 0).
  - match type of Hrun with
    | match process_cleanup ?c ?st with _ => _ end = _ =>
        pose proof (shrink_process_cleanup c st) as Hsteps;
        destruct (process_cleanup c st) as [[] s2|w2 s2|]; try discriminate;
        [|contradiction]
    end.
    now injection Hrun as _ <-.
  - kred_in Hrun. now injection Hrun as _ <-.
Qed.

(** C8 (amended): when the last thread of a process other than the
    initial task exits, every child of the process has the initial task
    (pid 1) as its parent and is on the initial task's children list; the
    initial task's [child_exit] has been broadcast when the process had
    exited children to hand over, or when the initial task is its
    parent. *)
Theorem reparenting_on_exit v s s' pcb :
  CURPROC s <> 1 ->
  array_get (PT s) (CURPROC s) = Some pcb ->
  PCB.thread_count pcb = 1 ->
  sys_ThreadExit v s = Suspended KSleepExited s' ->
  (forall c, c ∈ PCB.children_list pcb ->
     exists cpcb ipcb,
       array_get (PT s') c = Some cpcb /\ PCB.parent cpcb = Some 1 /\
       array_get (PT s') 1 = Some ipcb /\ c ∈ PCB.children_list ipcb) /\
  (PCB.exited_list pcb <> [] \/ PCB.parent pcb = Some 1 ->
   Broadcast (child_exit 1) ∈ trace s').
Proof.
  intros Hcur Hpcb Hlast Hrun.
  apply sys_ThreadExit_inv in Hrun
    as (T & t & pcb0 & s1 & _ & _ & Hpcb0 & _ & Hnew & _ & _ & Hclean).
  rewrite Hpcb in Hpcb0. injection Hpcb0 as <-.
  rewrite Hlast in Hclean. simpl in Hclean.
  unfold process_cleanup in Hclean.
  apply bind_Return in Hclean as ([] & s2 & Hhand & Hrelease).
  destruct (Z.eqb_spec (CURPROC s) 1) as [|_]; [contradiction|].
  simpl in Hhand.
  destruct (hand_over_children_spec _ _ _ _ Hcur Hnew Hhand) as [Hkids Hcast].
  pose proof (steps_Return quiet _ _ _ _
                (quiet_release_process (CURPROC s)) Hrelease) as Hquiet.
  simpl in Hkids, Hcast. split.
  - intros c Hc. apply Hkids in Hc. apply (quiet_reparented _ _ _ Hquiet) in Hc.
    destruct Hc as [(cpcb & Hget & Hpar) (ipcb & Hinit & Hin)]. eauto 10.
  - intros Hcond. destruct Hquiet as (_ & _ & _ & Hpre).
    eapply elem_of_prefix; [|exact Hpre]. auto.
Qed.

(** The exit value is in the handle of the exiting thread, if the
    handle survives the exit. *)
Lemma sys_ThreadExit_records v s w s' T t' :
  sys_ThreadExit v s = Suspended w s' ->
  cur_thread_ptcb s = Some T ->
  ptcbs s' !! T = Some t' ->
  PTCB.exited t' = 1 /\ PTCB.exitval t' = v.
Proof.
  intros Hrun HT Hafter.
  apply sys_ThreadExit_inv in Hrun
    as (T0 & t & pcb & s1 & HT0 & Ht & _ & Hptcbs & _ & _ & _ & Hclean).
  rewrite HT in HT0. injection HT0 as <-.
  assert (Hs1 : ptcbs s1 !! T = Some t').
  { destruct (_ =? _).
    - apply (steps_Return shrink _ _ _ _ (shrink_process_cleanup _) Hclean).
      assumption.
    - now subst s'. }
  rewrite Hptcbs, lookup_insert_eq in Hs1. injection Hs1 as <-. auto.
Qed.

(** What a join that returned 0 leaves of the handle [T], [count] being
    the reference count after the joiner's decrement: at 0 the handle is
    off every thread list and freed, otherwise it stays with that
    count. *)
Definition joined (T : ptr) (count : Z) (s' : kernel) : Prop :=
  if count =? 0 then
    ptcbs s' !! T = None /\
    forall pcb, pcb ∈ PT s' -> T ∉ PCB.ptcb_list pcb
  else
    exists t', ptcbs s' !! T = Some t' /\ PTCB.refcount t' = count.

Lemma sys_ThreadJoin_wait_exited T out s t :
  ptcbs s !! T = Some t ->
  PTCB.exited t = 1 ->
  PTCB.detached t <> 1 ->
  exists s',
    sys_ThreadJoin_wait T out s =
      Return (0, if out then Some (PTCB.exitval t) else None) s' /\
    joined T (PTCB.refcount t - 1) s'.
Proof.
  intros Ht Hexited Hdetached. unfold sys_ThreadJoin_wait, joined. kred.
  rewrite Ht. kred. rewrite Hexited. simpl.
  destruct (Z.eqb_spec (PTCB.detached t) 1) as [|_]; [contradiction|].
  destruct (PTCB.refcount t - 1 =? 0) eqn:Hcount.
  - unfold rlist_remove_ptcb. kred. eexists. split; [reflexivity|]. simpl.
    split; [apply lookup_delete_eq|].
    intros pcb Hin. apply list_elem_of_fmap in Hin as (pcb0 & -> & _). simpl.
    intros Hin. apply list_elem_of_filter in Hin as [Hne _]. now apply Hne.
  - kred. eexists. split; [reflexivity|]. simpl.
    eexists. rewrite lookup_insert_eq. split; reflexivity.
Qed.

(** C7: once [T] has called [sys_ThreadExit(v)], and as long as nobody
    detaches [T] or overwrites what the exit recorded in its handle, a
    [sys_ThreadJoin(T, out)] woken from its wait returns 0, and so does one
    called by another thread of the process that has [T] on its handle
    list; either stores exactly [v] through a non-null [out]; and when the
    joiner's decrement brings the count to 0 the handle is unlinked and
    freed. *)
Theorem join_delivers_exit_value T v s0 s1 t1 s t out :
  cur_thread_ptcb s0 = Some T ->
  sys_ThreadExit v s0 = Suspended KSleepExited s1 ->
  ptcbs s1 !! T = Some t1 ->
  ptcbs s !! T = Some t ->
  PTCB.exited t = PTCB.exited t1 ->
  PTCB.exitval t = PTCB.exitval t1 ->
  PTCB.detached t <> 1 ->
  (exists s',
     sys_ThreadJoin_wait T out s =
       Return (0, if out then Some v else None) s' /\
     joined T (PTCB.refcount t - 1) s') /\
  (forall curproc,
     array_get (PT s) (CURPROC s) = Some curproc ->
     T ∈ PCB.ptcb_list curproc ->
     cur_thread_ptcb s <> Some T ->
     exists s',
       sys_ThreadJoin (Some T) out s =
         Return (0, if out then Some v else None) s' /\
       joined T (PTCB.refcount t) s').
Proof.
  intros HT Hexit Ht1 Ht Hexited Hexitval Hdetached.
  destruct (sys_ThreadExit_records _ _ _ _ _ _ Hexit HT Ht1) as [He Hv].
  rewrite He in Hexited. rewrite Hv in Hexitval.
  split.
  - destruct (sys_ThreadJoin_wait_exited T out s t Ht Hexited Hdetached)
      as (s' & Hrun & Hjoined).
    rewrite Hexitval in Hrun. eauto.
  - intros curproc Hcur Hin Hme. unfold sys_ThreadJoin. kred.
    rewrite Hcur. kred.
    rewrite bool_decide_eq_false_2 by (intros Hout; now apply Hout).
    rewrite bool_decide_eq_false_2 by congruence.
    rewrite Ht. kred.
    destruct (Z.eqb_spec (PTCB.detached t) 1) as [|_]; [contradiction|].
    match goal with
    | |- exists s', sys_ThreadJoin_wait _ _ ?st = _ /\ _ =>
        destruct (sys_ThreadJoin_wait_exited T out st
                    (PTCB_set_refcount (PTCB.refcount t + 1) t))
          as (s2 & Hwait & Hjoined);
          [apply lookup_insert_eq|assumption|assumption|]
    end.
    exists s2. simpl in Hwait, Hjoined. rewrite Hexitval in Hwait.
    replace (PTCB.refcount t + 1 - 1) with (PTCB.refcount t) in Hjoined by lia.
    auto.
Qed.

End ExitSteps.

(** ** Concrete runs of thread exit *)

Definition proc (st : pid_state) (parent : option Z) (children exited : list Z)
    (handles : list ptr) (threads : Z) : PCB.t :=
  PCB.mk st parent 0 None 0 None children exited (replicate 16 None) handles
    threads.

(** Process 3, a child of process 2, runs its only thread (handle 1) and
    has the living child 4; it has no exited child. *)
Definition exiting_pcb : PCB.t := proc ALIVE (Some 2) [4] [] [1%positive] 1.
Definition orphaning : kernel :=
  mkKernel
    [proc ALIVE None [] [] [] 1;
     proc ALIVE None [2] [] [] 1;
     proc ALIVE (Some 1) [3] [] [] 1;
     exiting_pcb;
     proc ALIVE (Some 3) [] [] [] 1;
     proc FREE None [] [] [] 0;
     proc FREE None [] [] [] 0;
     proc FREE None [] [] [] 0]
    3 (Some 1%positive) {[1%positive := PTCB.mk None 0 0 0 0 0]}
    ∅ ∅ ∅ ∅ ∅ (replicate 1023 None) [].
Definition orphaned : kernel :=
  after (sys_ThreadExit (H := small_config) 0 orphaning) orphaning.

(** The last thread of process 3 exits: its living child 4 now has the
    initial task as parent, and the only broadcasts are the thread's
    [exit_cv] and the [child_exit] of process 2, the parent; the
    [child_exit] of the initial task is not broadcast. *)
Lemma reparenting_without_broadcast :
  PCB.children_list exiting_pcb = [4] /\
  sys_ThreadExit (H := small_config) 0 orphaning =
    Suspended KSleepExited orphaned /\
  PCB.parent <$> array_get (PT orphaned) 4 = Some (Some 1) /\
  trace orphaned =
    [Broadcast (exit_cv 1%positive); Broadcast (child_exit 2)].
Proof. vm_compute. repeat split; reflexivity. Qed.

(** The same process with a second child, 5, that has exited already. *)
Definition exiting_pcb_zombie : PCB.t :=
  proc ALIVE (Some 2) [4; 5] [5] [1%positive] 1.
Definition orphaning_zombie : kernel :=
  mkKernel
    [proc ALIVE None [] [] [] 1;
     proc ALIVE None [2] [] [] 1;
     proc ALIVE (Some 1) [3] [] [] 1;
     exiting_pcb_zombie;
     proc ALIVE (Some 3) [] [] [] 1;
     proc ZOMBIE (Some 3) [] [] [] 0;
     proc FREE None [] [] [] 0;
     proc FREE None [] [] [] 0]
    3 (Some 1%positive) {[1%positive := PTCB.mk None 0 0 0 0 0]}
    ∅ ∅ ∅ ∅ ∅ (replicate 1023 None) [].
Definition orphaned_zombie : kernel :=
  after (sys_ThreadExit (H := small_config) 0 orphaning_zombie)
    orphaning_zombie.

Lemma reparenting_on_exit_witness :
  (exists cpcb ipcb,
     array_get (PT orphaned_zombie) 4 = Some cpcb /\
     PCB.parent cpcb = Some 1 /\
     array_get (PT orphaned_zombie) 1 = Some ipcb /\
     4 ∈ PCB.children_list ipcb) /\
  Broadcast (child_exit 1) ∈ trace orphaned_zombie.
Proof.
  destruct (reparenting_on_exit (H := small_config) 0 orphaning_zombie
              orphaned_zombie exiting_pcb_zombie) as [Hkids Hcast].
  - discriminate.
  - reflexivity.
  - reflexivity.
  - vm_compute. reflexivity.
  - split.
    + apply Hkids. apply list_elem_of_here.
    + apply Hcast. left. discriminate.
Defined.

(** Process 1 with two threads: the joiner (handle 1) and [T]
    (handle 2).  The joiner calls [sys_ThreadJoin(T)] and waits; [T] then
    exits with value 7; the scheduler runs the joiner again. *)
Definition two_threads : kernel :=
  mkKernel
    [proc ALIVE None [] [] [] 1;
     proc ALIVE None [] [] [1%positive; 2%positive] 2;
     proc FREE None [] [] [] 0;
     proc FREE None [] [] [] 0;
     proc FREE None [] [] [] 0;
     proc FREE None [] [] [] 0;
     proc FREE None [] [] [] 0;
     proc FREE None [] [] [] 0]
    1 (Some 1%positive)
    {[1%positive := PTCB.mk None 0 0 0 0 0;
      2%positive := PTCB.mk None 0 0 0 0 0]}
    ∅ ∅ ∅ ∅ ∅ (replicate 1023 None) [].
Definition joiner_waiting : kernel :=
  after (sys_ThreadJoin (Some 2%positive) true two_threads) two_threads.
Definition target_running : kernel :=
  with_cur_thread (Some 2%positive) joiner_waiting.
Definition target_exited : kernel :=
  after (sys_ThreadExit (H := small_config) 7 target_running) target_running.
Definition joiner_woken : kernel :=
  with_cur_thread (Some 1%positive) target_exited.

Lemma join_delivers_exit_value_witness :
  (exists s',
     sys_ThreadJoin_wait 2%positive true joiner_woken =
       Return (0, Some 7) s' /\
     joined 2%positive 0 s') /\
  (exists s',
     sys_ThreadJoin (Some 2%positive) true joiner_woken =
       Return (0, Some 7) s' /\
     joined 2%positive 1 s').
Proof.
  destruct (join_delivers_exit_value (H := small_config) 2%positive 7
              target_running target_exited
              (PTCB.mk None 0 7 1 0 1) joiner_woken (PTCB.mk None 0 7 1 0 1)
              true) as [Hwoken Hcalled].
  - reflexivity.
  - vm_compute. reflexivity.
  - vm_compute. reflexivity.
  - vm_compute. reflexivity.
  - reflexivity.
  - reflexivity.
  - discriminate.
  - split; [exact Hwoken|].
    apply (Hcalled (proc ALIVE None [] [] [1%positive; 2%positive] 1)).
    + vm_compute. reflexivity.
    + apply list_elem_of_further, list_elem_of_here.
    + discriminate.
Defined.

(** * Further properties *)

(** ** Pipes: the bytes held and their order *)

Section PipeStream.
Context `{KernelConfig}.
Hypothesis buffer_size_pos : 0 < PIPE_BUFFER_SIZE.

(** The [k] bytes of the ring found from index [pos] on, following the
    read index of [pipe_read]. *)
Fixpoint ring_slice (buffer : list byte) (k : nat) (pos : Z) : list byte :=
  match k with
  | O => []
  | S k' =>
      match array_get buffer pos with
      | Some b => b :: ring_slice buffer k' (advance pos)
      | None => []
      end
  end.

(** The bytes written and not yet read, oldest first. *)
Definition ring_contents (cb : pipe_cb.t) : list byte :=
  ring_slice (pipe_cb.BUFFER cb) (Z.to_nat (ring_used cb))
    (pipe_cb.r_position cb).

(** A control block whose indices and buffer are those [sys_Pipe] and
    [sys_Accept] set up. *)
Definition ring_wf (cb : pipe_cb.t) : Prop :=
  ring_ok cb /\
  Z.of_nat (length (pipe_cb.BUFFER cb)) = PIPE_BUFFER_SIZE.

Lemma index_distance w r :
  0 <= r < PIPE_BUFFER_SIZE -> 0 <= w < PIPE_BUFFER_SIZE ->
  (w - r) mod PIPE_BUFFER_SIZE =
    if r <=? w then w - r else w - r + PIPE_BUFFER_SIZE.
Proof.
  intros Hr Hw. destruct (Z.leb_spec r w).
  - apply Z.mod_small. lia.
  - symmetry. apply (Z.mod_unique _ _ (-1)); lia.
Qed.

Lemma array_get_Some {A} (l : list A) i :
  0 <= i < Z.of_nat (length l) -> exists x, array_get l i = Some x.
Proof.
  intros Hi. unfold array_get. destruct (Z.ltb_spec i 0); [lia|].
  destruct (lookup_lt_is_Some_2 l (Z.to_nat i)) as [x Hx]; [lia|]. eauto.
Qed.

Lemma array_set_Some {A} (l : list A) i x :
  0 <= i < Z.of_nat (length l) -> exists l', array_set l i x = Some l'.
Proof.
  intros Hi. unfold array_set. destruct (Z.ltb_spec i 0); [lia|].
  destruct (Z.leb_spec (Z.of_nat (length l)) i); [lia|]. simpl. eauto.
Qed.

Lemma ring_slice_length buffer k : forall pos,
  Z.of_nat (length buffer) = PIPE_BUFFER_SIZE ->
  0 <= pos < PIPE_BUFFER_SIZE ->
  length (ring_slice buffer k pos) = k.
Proof.
  induction k as [|k IH]; intros pos Hlen Hpos; simpl; [reflexivity|].
  destruct (array_get_Some buffer pos) as [b ->]; [lia|]. simpl.
  rewrite IH; auto using advance_range.
Qed.

Lemma ring_contents_length cb :
  ring_wf cb -> Z.of_nat (length (ring_contents cb)) = ring_used cb.
Proof.
  intros [Hok Hlen]. unfold ring_contents.
  rewrite ring_slice_length by (auto; apply Hok).
  pose proof (ring_used_range buffer_size_pos cb Hok). lia.
Qed.

(** Storing [b] at the write index appends it to the bytes held. *)
Lemma ring_slice_push buffer buffer' w b :
  Z.of_nat (length buffer) = PIPE_BUFFER_SIZE ->
  0 <= w < PIPE_BUFFER_SIZE ->
  array_set buffer w b = Some buffer' ->
  forall k r, 0 <= r < PIPE_BUFFER_SIZE ->
    (w - r) mod PIPE_BUFFER_SIZE = Z.of_nat k ->
    ring_slice buffer' (S k) r = ring_slice buffer k r ++ [b].
Proof.
  intros Hlen Hw Hset.
  destruct (array_set_get _ _ _ _ Hset) as (Hat & Hother & Hlen').
  induction k as [|k IH]; intros r Hr Hdist;
    rewrite index_distance in Hdist by assumption.
  - assert (r = w) as -> by (destruct (Z.leb_spec r w); lia).
    simpl. now rewrite Hat.
  - assert (r <> w) as Hne by (destruct (Z.leb_spec r w); lia).
    change (ring_slice buffer' (S (S k)) r)
      with (match array_get buffer' r with
            | Some b0 => b0 :: ring_slice buffer' (S k) (advance r)
            | None => []
            end).
    rewrite (Hother r Hne).
    destruct (array_get_Some buffer r) as [x Hx]; [lia|].
    simpl ring_slice at 2. rewrite Hx.
    rewrite IH; [reflexivity|now apply advance_range|].
    rewrite index_distance by (auto using advance_range).
    unfold advance.
    destruct (Z.leb_spec PIPE_BUFFER_SIZE (r + 1));
      destruct (Z.leb_spec r w); destruct (Z.leb_spec 0 w);
      destruct (Z.leb_spec (r + 1) w); lia.
Qed.

Lemma ring_contents_push cb b buffer c :
  ring_wf cb -> ring_full cb = false ->
  array_set (pipe_cb.BUFFER cb) (pipe_cb.w_position cb) b = Some buffer ->
  let cb' := pipe_cb.mk (pipe_cb.reader cb) (pipe_cb.writer cb) buffer
               (advance (pipe_cb.w_position cb)) (pipe_cb.r_position cb) c in
  ring_wf cb' /\ ring_contents cb' = ring_contents cb ++ [b].
Proof.
  intros [Hok Hlen] Hfull Hset. simpl.
  destruct (ring_used_push buffer_size_pos cb buffer c Hok Hfull)
    as [Hok' Hused]. simpl in Hok', Hused.
  destruct (array_set_get _ _ _ _ Hset) as (_ & _ & Hlen').
  split; [split; [assumption|simpl; lia]|].
  pose proof (ring_used_range buffer_size_pos cb Hok) as Hrange.
  unfold ring_contents. rewrite Hused. simpl.
  replace (Z.to_nat (ring_used cb + 1)) with (S (Z.to_nat (ring_used cb)))
    by lia.
  apply (ring_slice_push _ _ _ _ Hlen (proj2 Hok) Hset); [apply Hok|].
  unfold ring_used. pose proof (ring_used_range buffer_size_pos cb Hok).
  unfold ring_used in *. lia.
Qed.

(** Taking the byte at the read index removes the oldest byte held. *)
Lemma ring_contents_pop cb c :
  ring_wf cb -> ring_empty cb = false ->
  exists b,
    array_get (pipe_cb.BUFFER cb) (pipe_cb.r_position cb) = Some b /\
    let cb' := pipe_cb.mk (pipe_cb.reader cb) (pipe_cb.writer cb)
                 (pipe_cb.BUFFER cb) (pipe_cb.w_position cb)
                 (advance (pipe_cb.r_position cb)) c in
    ring_wf cb' /\ ring_contents cb = b :: ring_contents cb'.
Proof.
  intros [Hok Hlen] Hempty.
  destruct (ring_used_pop buffer_size_pos cb c Hok Hempty) as [Hok' Hused].
  simpl in Hok', Hused.
  destruct (array_get_Some (pipe_cb.BUFFER cb) (pipe_cb.r_position cb))
    as [b Hb]; [destruct Hok; lia|].
  exists b. split; [assumption|]. simpl.
  split; [split; assumption|].
  pose proof (ring_used_range buffer_size_pos _ Hok') as Hrange.
  simpl in Hrange.
  unfold ring_contents. rewrite Hused. simpl.
  replace (Z.to_nat (ring_used cb)) with (S (Z.to_nat (ring_used cb - 1)))
    by lia.
  simpl. now rewrite Hb.
Qed.

(** The copy loop of [pipe_write] appends to the ring the bytes of [buf]
    it counts, in order. *)
Lemma pipe_write_loop_contents todo buf : forall written cb written' cb',
  ring_wf cb -> 0 <= written ->
  pipe_write_loop todo buf written cb = inr (written', cb') ->
  ring_wf cb' /\
  ring_contents cb' =
    ring_contents cb ++
      take (Z.to_nat (written' - written)) (drop (Z.to_nat written) buf).
Proof.
  induction todo as [|todo IH]; intros written cb written' cb' Hwf Hpos Hrun;
    simpl in Hrun.
  - injection Hrun as <- <-. rewrite Z.sub_diag. simpl.
    now rewrite app_nil_r.
  - destruct (ring_full cb) eqn:Hfull.
    + injection Hrun as <- <-. rewrite Z.sub_diag. simpl.
      now rewrite app_nil_r.
    + destruct (array_get buf written) as [b|] eqn:Hb; [|discriminate].
      destruct (array_set (pipe_cb.BUFFER cb) (pipe_cb.w_position cb) b)
        as [buffer|] eqn:Hset; [|discriminate].
      destruct (ring_contents_push cb b buffer (uint (pipe_cb.counter cb + 1))
                  Hwf Hfull Hset) as [Hwf1 Hc1].
      destruct (pipe_write_loop_spec buffer_size_pos _ _ _ _ _ _
                  (proj1 Hwf1) Hrun) as (_ & Hle & _).
      assert (0 <= written + 1) as Hpos1 by lia.
      destruct (IH _ _ _ _ Hwf1 Hpos1 Hrun) as [Hwf' Hc'].
      split; [assumption|]. rewrite Hc', Hc1, <- app_assoc. f_equal.
      apply array_get_lookup in Hb as [Hb _].
      rewrite (drop_S _ _ _ Hb).
      replace (Z.to_nat (written' - written))
        with (S (Z.to_nat (written' - (written + 1)))) by lia.
      simpl. do 2 f_equal. f_equal. lia.
Qed.

(** The loop stops when the request is served or the ring is full. *)
Lemma pipe_write_loop_count todo buf : forall written cb written' cb',
  ring_ok cb ->
  pipe_write_loop todo buf written cb = inr (written', cb') ->
  written' - written =
    Z.min (Z.of_nat todo) (PIPE_BUFFER_SIZE - 1 - ring_used cb).
Proof.
  induction todo as [|todo IH]; intros written cb written' cb' Hok Hrun;
    simpl in Hrun.
  - injection Hrun as <- <-.
    pose proof (ring_used_range buffer_size_pos cb Hok). lia.
  - destruct (ring_full cb) eqn:Hfull.
    + injection Hrun as <- <-.
      apply (ring_full_spec buffer_size_pos cb Hok) in Hfull. lia.
    + destruct (array_get buf written) as [b|]; [|discriminate].
      destruct (array_set (pipe_cb.BUFFER cb) (pipe_cb.w_position cb) b)
        as [buffer|]; [|discriminate].
      destruct (ring_used_push buffer_size_pos cb buffer
                  (uint (pipe_cb.counter cb + 1)) Hok Hfull) as [Hok1 Hused1].
      pose proof (IH _ _ _ _ Hok1 Hrun) as Hcount. rewrite Hused1 in Hcount.
      pose proof (ring_used_range buffer_size_pos cb Hok).
      apply not_true_iff_false in Hfull.
      rewrite (ring_full_spec buffer_size_pos cb Hok) in Hfull. lia.
Qed.

(** The loop reads [buf] only below [written_data + todo]. *)
Lemma pipe_write_loop_runs todo buf : forall written cb,
  ring_wf cb -> 0 <= written ->
  written + Z.of_nat todo <= Z.of_nat (length buf) ->
  exists r, pipe_write_loop todo buf written cb = inr r.
Proof.
  induction todo as [|todo IH]; intros written cb Hwf Hpos Hlen; simpl.
  - eauto.
  - destruct (ring_full cb) eqn:Hfull; [eauto|].
    destruct (array_get_Some buf written) as [b ->]; [lia|].
    destruct Hwf as [Hok Hbuf].
    destruct (array_set_Some (pipe_cb.BUFFER cb) (pipe_cb.w_position cb) b)
      as [buffer Hset]; [destruct Hok; lia|]. rewrite Hset.
    apply IH; [|lia|lia].
    now apply (ring_contents_push cb b buffer _ (conj Hok Hbuf) Hfull Hset).
Qed.

(** The copy loop of [pipe_read] hands out the oldest bytes held, in
    order, until the request is served or the ring is empty. *)
Lemma pipe_read_loop_contents todo : forall out cb,
  ring_wf cb ->
  let k := Nat.min todo (length (ring_contents cb)) in
  exists cb',
    pipe_read_loop todo out cb = inr (out ++ take k (ring_contents cb), cb') /\
    ring_wf cb' /\
    ring_contents cb' = drop k (ring_contents cb) /\
    pipe_cb.reader cb' = pipe_cb.reader cb /\
    pipe_cb.writer cb' = pipe_cb.writer cb.
Proof.
  induction todo as [|todo IH]; intros out cb Hwf; simpl.
  - exists cb. rewrite app_nil_r. auto.
  - destruct (ring_empty cb) eqn:Hempty.
    + exists cb.
      pose proof (ring_contents_length cb Hwf) as Hlen.
      apply (ring_empty_spec buffer_size_pos cb (proj1 Hwf)) in Hempty.
      destruct (ring_contents cb); [|simpl in Hlen; lia].
      simpl. rewrite app_nil_r. auto.
    + destruct (ring_contents_pop cb (uint (pipe_cb.counter cb + 1)) Hwf Hempty)
        as (b & Hb & Hwf1 & Hc). simpl in Hwf1, Hc. rewrite Hb, Hc. simpl.
      destruct (IH (out ++ [b]) _ Hwf1) as (cb' & Hrun & Hwf' & Hc' & Hrd & Hwr).
      exists cb'. rewrite Hrun, <- app_assoc. simpl. auto.
Qed.

Lemma ring_same_contents cb cb' :
  pipe_cb.r_position cb' = pipe_cb.r_position cb ->
  pipe_cb.w_position cb' = pipe_cb.w_position cb ->
  pipe_cb.BUFFER cb' = pipe_cb.BUFFER cb ->
  ring_wf cb -> ring_wf cb' /\ ring_contents cb' = ring_contents cb.
Proof.
  unfold ring_wf, ring_ok, ring_contents, ring_used. intros -> -> ->. auto.
Qed.

(** The bytes a read segment stored in the caller's buffer. *)
Definition bytes_of (o : outcome (Z * list byte)) : list byte :=
  match o with Return (_, out) _ => out | _ => [] end.

(** The history of a pipe control block [p]: the states it goes through
    from its creation on, with all the bytes the writes have accepted and
    all the bytes the reads have handed out so far. *)
Inductive pipe_stream (p : ptr) : kernel -> list byte -> list byte -> Prop :=
| stream_created s rd wr :
    pipes s !! p = Some (new_pipe rd wr) -> pipe_stream p s [] []
| stream_write s W R buf n o s' :
    pipe_stream p s W R ->
    o = pipe_write (Some p) buf n s \/ o = pipe_write_wait p buf n s ->
    state_of o = Some s' ->
    pipe_stream p s' (W ++ take (Z.to_nat (written_of o)) buf) R
| stream_read s W R n o s' :
    pipe_stream p s W R ->
    o = pipe_read (Some p) n s \/ o = pipe_read_wait p n s ->
    state_of o = Some s' ->
    pipe_stream p s' W (R ++ bytes_of o)
| stream_close s W R o s' :
    pipe_stream p s W R ->
    o = pipe_writer_close (Some p) s \/ o = pipe_reader_close (Some p) s ->
    state_of o = Some s' ->
    pipe_stream p s' W R
| stream_frame s W R s' :
    pipe_stream p s W R -> pipes s' !! p = pipes s !! p ->
    pipe_stream p s' W R.

Definition stream_state (p : ptr) (s : kernel) (W R : list byte) : Prop :=
  forall cb, pipes s !! p = Some cb ->
    ring_wf cb /\ W = R ++ ring_contents cb.

Lemma pipe_write_wait_stream p buf n s s' W R :
  stream_state p s W R ->
  state_of (pipe_write_wait p buf n s) = Some s' ->
  stream_state p s'
    (W ++ take (Z.to_nat (written_of (pipe_write_wait p buf n s))) buf) R.
Proof.
  intros Hst. unfold pipe_write_wait, bind, load_pipe.
  destruct (pipes s !! p) as [cb|] eqn:Hp; simpl; [|discriminate].
  destruct (Hst cb Hp) as [Hwf HW].
  destruct (ring_full cb && bool_decide (pipe_cb.reader cb <> None)); simpl.
  { intros [= <-]. rewrite app_nil_r. assumption. }
  destruct (bool_decide (pipe_cb.reader cb = None)); simpl.
  { intros [= <-]. rewrite app_nil_r. assumption. }
  destruct (pipe_write_loop (Z.to_nat n) buf 0 cb) as [f|[written cb']] eqn:Hloop;
    simpl; [discriminate|].
  intros [= <-] cb2. simpl. rewrite lookup_insert_eq. intros [= <-].
  destruct (pipe_write_loop_spec buffer_size_pos _ _ _ _ _ _ (proj1 Hwf) Hloop)
    as (_ & Hle & _).
  destruct (pipe_write_loop_contents _ _ _ _ _ _ Hwf (Z.le_refl 0) Hloop)
    as [Hwf' Hc].
  destruct (reset_counter_write_ring n cb') as (Hr & Hw & _ & _ & Hb).
  destruct (ring_same_contents cb' _ Hr Hw Hb Hwf') as [Hwf2 Hc2].
  split; [assumption|]. rewrite Hc2, Hc, HW, <- app_assoc. simpl.
  rewrite drop_0, Z.sub_0_r, Z.max_l by lia. reflexivity.
Qed.

Lemma pipe_write_stream p buf n s s' W R :
  stream_state p s W R ->
  state_of (pipe_write (Some p) buf n s) = Some s' ->
  stream_state p s'
    (W ++ take (Z.to_nat (written_of (pipe_write (Some p) buf n s))) buf) R.
Proof.
  intros Hst. unfold pipe_write, bind, load_pipe.
  destruct (pipes s !! p) as [cb|] eqn:Hp; simpl; [|discriminate].
  destruct (bool_decide (pipe_cb.writer cb = None)
            || bool_decide (pipe_cb.reader cb = None)); simpl.
  { intros [= <-]. rewrite app_nil_r. assumption. }
  now apply pipe_write_wait_stream.
Qed.

Lemma pipe_read_wait_stream p n s s' W R :
  stream_state p s W R ->
  state_of (pipe_read_wait p n s) = Some s' ->
  stream_state p s' W (R ++ bytes_of (pipe_read_wait p n s)).
Proof.
  intros Hst. unfold pipe_read_wait, bind, load_pipe.
  destruct (pipes s !! p) as [cb|] eqn:Hp; simpl; [|discriminate].
  destruct (Hst cb Hp) as [Hwf HW].
  destruct (ring_empty cb && bool_decide (pipe_cb.writer cb <> None)); simpl.
  { intros [= <-]. rewrite app_nil_r. assumption. }
  destruct (pipe_read_loop_contents (Z.to_nat n) [] cb Hwf)
    as (cb' & Hloop & Hwf' & Hc & _).
  rewrite Hloop. simpl.
  intros [= <-] cb2. simpl. rewrite lookup_insert_eq. intros [= <-].
  destruct (reset_counter_read_ring n cb') as (Hr & Hw & _ & _ & Hb).
  destruct (ring_same_contents cb' _ Hr Hw Hb Hwf') as [Hwf2 Hc2].
  split; [assumption|].
  rewrite Hc2, Hc, HW, <- app_assoc, take_drop. reflexivity.
Qed.

Lemma pipe_read_stream p n s s' W R :
  stream_state p s W R ->
  state_of (pipe_read (Some p) n s) = Some s' ->
  stream_state p s' W (R ++ bytes_of (pipe_read (Some p) n s)).
Proof.
  intros Hst. unfold pipe_read, bind, load_pipe.
  destruct (pipes s !! p) as [cb|] eqn:Hp; simpl; [|discriminate].
  destruct (bool_decide (pipe_cb.reader cb = None)); simpl.
  { intros [= <-]. rewrite app_nil_r. assumption. }
  now apply pipe_read_wait_stream.
Qed.

Lemma pipe_close_stream p s s' W R o :
  stream_state p s W R ->
  o = pipe_writer_close (Some p) s \/ o = pipe_reader_close (Some p) s ->
  state_of o = Some s' ->
  stream_state p s' W R.
Proof.
  intros Hst [-> | ->];
    unfold pipe_writer_close, pipe_reader_close, bind, load_pipe;
    (destruct (pipes s !! p) as [cb|] eqn:Hp; simpl; [|discriminate]);
    destruct (Hst cb Hp) as [Hwf HW];
    (destruct (bool_decide _); simpl; intros [= <-] cb2; simpl;
     [rewrite lookup_delete_eq; discriminate
     |rewrite lookup_insert_eq; intros [= <-];
      split; [apply Hwf | exact HW]]).
Qed.

Lemma new_pipe_wf rd wr :
  ring_wf (new_pipe rd wr) /\ ring_contents (new_pipe rd wr) = [].
Proof.
  unfold ring_wf, ring_ok, ring_contents, ring_used, new_pipe. simpl.
  rewrite length_replicate. repeat split; lia.
Qed.

Lemma pipe_stream_state p s W R : pipe_stream p s W R -> stream_state p s W R.
Proof.
  induction 1 as [s rd wr Hnew | s W R buf n o s' _ IH [-> | ->] Hs'
                 | s W R n o s' _ IH [-> | ->] Hs'
                 | s W R o s' _ IH Ho Hs'
                 | s W R s' _ IH Hsame].
  - intros cb. rewrite Hnew. intros [= <-].
    destruct (new_pipe_wf rd wr) as [Hwf ->]. auto.
  - now apply pipe_write_stream.
  - now apply pipe_write_wait_stream.
  - now apply pipe_read_stream.
  - now apply pipe_read_wait_stream.
  - eapply pipe_close_stream; eauto.
  - intros cb. rewrite Hsame. apply IH.
Qed.

(** A pipe is a first-in first-out byte stream: at every state of its
    history, the bytes accepted by the writes so far are the bytes handed
    out by the reads so far followed by the bytes the ring holds; no byte
    is lost, repeated or reordered. *)
Theorem pipe_first_in_first_out p s W R cb :
  pipe_stream p s W R -> pipes s !! p = Some cb ->
  W = R ++ ring_contents cb /\
  Z.of_nat (length W) - Z.of_nat (length R) = ring_used cb.
Proof.
  intros Hstream Hp.
  destruct (pipe_stream_state p s W R Hstream cb Hp) as [Hwf HW].
  split; [assumption|].
  rewrite HW, length_app, <- (ring_contents_length cb Hwf). lia.
Qed.

(** What a segment of [pipe_write] or [pipe_read] that returns leaves
    outside the pipe [p]: only the trace grows. *)
Definition pipe_io_frame (p : ptr) (s s' : kernel) : Prop :=
  PT s' = PT s /\ CURPROC s' = CURPROC s /\ FT s' = FT s /\
  sockets s' = sockets s /\ requests s' = requests s /\
  PORT_MAP s' = PORT_MAP s /\
  forall q, q <> p -> pipes s' !! q = pipes s !! q.

Lemma pipe_write_effect p s cb buf n :
  pipes s !! p = Some cb -> ring_wf cb ->
  pipe_cb.reader cb <> None -> pipe_cb.writer cb <> None ->
  ring_full cb = false ->
  0 <= n <= Z.of_nat (length buf) ->
  let k := Z.min n (PIPE_BUFFER_SIZE - 1 - ring_used cb) in
  exists s' cb',
    pipe_write (Some p) buf n s = Return k s' /\
    pipes s' !! p = Some cb' /\
    ring_contents cb' = ring_contents cb ++ take (Z.to_nat k) buf /\
    trace s' = trace s ++ [Broadcast (has_data p)] /\
    ring_wf cb' /\
    pipe_cb.reader cb' = pipe_cb.reader cb /\
    pipe_cb.writer cb' = pipe_cb.writer cb /\
    pipe_io_frame p s s'.
Proof.
  intros Hp Hwf Hrd Hwr Hfull Hn k.
  unfold pipe_write, pipe_write_wait, bind, load_pipe. rewrite Hp. simpl.
  rewrite !bool_decide_eq_false_2 by assumption. simpl. rewrite Hp. simpl.
  rewrite Hfull. simpl. rewrite bool_decide_eq_false_2 by assumption.
  destruct (pipe_write_loop_runs (Z.to_nat n) buf 0 cb Hwf (Z.le_refl 0))
    as [[written cb'] Hloop]; [lia|].
  rewrite Hloop. simpl.
  pose proof (pipe_write_loop_count _ _ _ _ _ _ (proj1 Hwf) Hloop) as Hcount.
  destruct (pipe_write_loop_contents _ _ _ _ _ _ Hwf (Z.le_refl 0) Hloop)
    as [Hwf' Hc].
  destruct (pipe_write_loop_spec buffer_size_pos _ _ _ _ _ _ (proj1 Hwf) Hloop)
    as (_ & _ & _ & Hrd' & Hwr').
  destruct (reset_counter_write_ring n cb') as (Hr & Hw & Hrd2 & Hwr2 & Hb).
  destruct (ring_same_contents cb' _ Hr Hw Hb Hwf') as [Hwf2 Hc2].
  assert (written = k) as -> by (subst k; lia).
  eexists _, _. split; [reflexivity|]. simpl.
  rewrite lookup_insert_eq. split; [reflexivity|].
  split; [rewrite Hc2, Hc, drop_0, Z.sub_0_r; reflexivity|].
  split; [reflexivity|]. split; [assumption|].
  split; [congruence|]. split; [congruence|].
  unfold pipe_io_frame. simpl. repeat split.
  intros q Hq. now rewrite lookup_insert_ne by congruence.
Qed.

Lemma pipe_read_effect p s cb n :
  pipes s !! p = Some cb -> ring_wf cb ->
  pipe_cb.reader cb <> None ->
  ring_empty cb = false \/ pipe_cb.writer cb = None ->
  let k := Nat.min (Z.to_nat n) (length (ring_contents cb)) in
  exists s' cb',
    pipe_read (Some p) n s =
      Return (to_int (Z.of_nat k), take k (ring_contents cb)) s' /\
    pipes s' !! p = Some cb' /\
    ring_contents cb' = drop k (ring_contents cb) /\
    trace s' = trace s ++ [Broadcast (has_space p)] /\
    ring_wf cb' /\
    pipe_cb.reader cb' = pipe_cb.reader cb /\
    pipe_cb.writer cb' = pipe_cb.writer cb /\
    pipe_io_frame p s s'.
Proof.
  intros Hp Hwf Hrd Hgo k.
  unfold pipe_read, pipe_read_wait, bind, load_pipe. rewrite Hp. simpl.
  rewrite bool_decide_eq_false_2 by assumption. rewrite Hp. simpl.
  assert (ring_empty cb && bool_decide (pipe_cb.writer cb <> None) = false)
    as ->.
  { destruct Hgo as [-> | ->]; [reflexivity|].
    rewrite bool_decide_eq_false_2 by (intros Hne; now apply Hne).
    apply andb_false_r. }
  destruct (pipe_read_loop_contents (Z.to_nat n) [] cb Hwf)
    as (cb' & Hloop & Hwf' & Hc & Hrd' & Hwr').
  rewrite Hloop. simpl.
  destruct (reset_counter_read_ring n cb') as (Hr & Hw & Hrd2 & Hwr2 & Hb).
  destruct (ring_same_contents cb' _ Hr Hw Hb Hwf') as [Hwf2 Hc2].
  eexists _, _. split.
  { do 3 f_equal. rewrite length_take. subst k. lia. }
  simpl. rewrite lookup_insert_eq. split; [reflexivity|].
  split; [rewrite Hc2, Hc; reflexivity|].
  split; [reflexivity|]. split; [assumption|].
  split; [congruence|]. split; [congruence|].
  unfold pipe_io_frame. simpl. repeat split.
  intros q Hq. now rewrite lookup_insert_ne by congruence.
Qed.

(** A write to a pipe with both ends open and room in the ring does not
    block and is partial: it stores the first [min n free] bytes of [buf]
    behind the bytes held, returns that count and broadcasts
    [has_data]. *)
Theorem pipe_write_accepts p s cb buf n :
  pipes s !! p = Some cb -> ring_wf cb ->
  pipe_cb.reader cb <> None -> pipe_cb.writer cb <> None ->
  ring_full cb = false ->
  0 <= n <= Z.of_nat (length buf) ->
  let k := Z.min n (PIPE_BUFFER_SIZE - 1 - ring_used cb) in
  exists s' cb',
    pipe_write (Some p) buf n s = Return k s' /\
    pipes s' !! p = Some cb' /\
    ring_contents cb' = ring_contents cb ++ take (Z.to_nat k) buf /\
    trace s' = trace s ++ [Broadcast (has_data p)].
Proof.
  intros Hp Hwf Hrd Hwr Hfull Hn k.
  destruct (pipe_write_effect p s cb buf n Hp Hwf Hrd Hwr Hfull Hn)
    as (s' & cb' & Hrun & Hp' & Hc & Htr & _).
  exists s', cb'. auto.
Qed.

(** A read from a pipe that holds bytes, or whose write end is closed,
    does not block: it hands out the oldest [min n held] bytes in order,
    leaves the rest in the ring, returns the count (0 at end of data) and
    broadcasts [has_space]. *)
Theorem pipe_read_delivers p s cb n :
  pipes s !! p = Some cb -> ring_wf cb ->
  pipe_cb.reader cb <> None ->
  ring_empty cb = false \/ pipe_cb.writer cb = None ->
  let k := Nat.min (Z.to_nat n) (length (ring_contents cb)) in
  exists s' cb',
    pipe_read (Some p) n s =
      Return (to_int (Z.of_nat k), take k (ring_contents cb)) s' /\
    pipes s' !! p = Some cb' /\
    ring_contents cb' = drop k (ring_contents cb) /\
    trace s' = trace s ++ [Broadcast (has_space p)].
Proof.
  intros Hp Hwf Hrd Hgo k.
  destruct (pipe_read_effect p s cb n Hp Hwf Hrd Hgo)
    as (s' & cb' & Hrun & Hp' & Hc & Htr & _).
  exists s', cb'. auto.
Qed.

End PipeStream.

Section PipeLifetime.
Context `{KernelConfig}.

(** The control block of a pipe outlives the first close and is freed by
    the second, whichever end goes first; the first close marks its end,
    keeps the ring and wakes the other side. *)
Theorem pipe_freed_by_second_close p s cb :
  pipes s !! p = Some cb ->
  pipe_cb.reader cb <> None -> pipe_cb.writer cb <> None ->
  (exists s1 s2,
     pipe_reader_close (Some p) s = Return 0 s1 /\
     pipes s1 !! p =
       Some (pipe_cb.mk None (pipe_cb.writer cb) (pipe_cb.BUFFER cb)
               (pipe_cb.w_position cb) (pipe_cb.r_position cb)
               (pipe_cb.counter cb)) /\
     trace s1 = trace s ++ [Broadcast (has_space p)] /\
     pipe_writer_close (Some p) s1 = Return 0 s2 /\
     pipes s2 = delete p (pipes s) /\ trace s2 = trace s1) /\
  (exists s1 s2,
     pipe_writer_close (Some p) s = Return 0 s1 /\
     pipes s1 !! p =
       Some (pipe_cb.mk (pipe_cb.reader cb) None (pipe_cb.BUFFER cb)
               (pipe_cb.w_position cb) (pipe_cb.r_position cb)
               (pipe_cb.counter cb)) /\
     trace s1 = trace s ++ [Broadcast (has_data p)] /\
     pipe_reader_close (Some p) s1 = Return 0 s2 /\
     pipes s2 = delete p (pipes s) /\ trace s2 = trace s1).
Proof.
  intros Hp Hrd Hwr. split.
  - unfold pipe_reader_close, pipe_writer_close. kred. rewrite Hp. simpl.
    rewrite bool_decide_eq_false_2 by assumption. simpl.
    eexists _, _. split; [reflexivity|]. simpl.
    rewrite lookup_insert_eq. simpl.
    repeat split. rewrite delete_insert_eq, delete_insert_eq. reflexivity.
  - unfold pipe_reader_close, pipe_writer_close. kred. rewrite Hp. simpl.
    rewrite bool_decide_eq_false_2 by assumption. simpl.
    eexists _, _. split; [reflexivity|]. simpl.
    rewrite lookup_insert_eq. simpl.
    repeat split. rewrite delete_insert_eq, delete_insert_eq. reflexivity.
Qed.

End PipeLifetime.

Definition hello : list byte := [x68; x65; x6c; x6c; x6f].
Definition pipe_cb_hello : pipe_cb.t :=
  pipe_cb.mk (Some 1%positive) (Some 2%positive)
    [x68; x65; x6c; x6c; x6f; x00; x00; x00] 5 0 5.

Lemma pipe_first_in_first_out_witness :
  hello =
    [x68; x65] ++
    ring_contents (H := small_config)
      (pipe_cb.mk (Some 1%positive) (Some 2%positive)
         [x68; x65; x6c; x6c; x6f; x00; x00; x00] 5 2 7) /\
  Z.of_nat (length hello) - Z.of_nat (length [x68; x65]) =
    ring_used (H := small_config)
      (pipe_cb.mk (Some 1%positive) (Some 2%positive)
         [x68; x65; x6c; x6c; x6f; x00; x00; x00] 5 2 7).
Proof.
  apply (pipe_first_in_first_out (H := small_config) eq_refl 1%positive
           pipe_hello_read hello [x68; x65]).
  - apply (stream_read 1%positive pipe_hello hello [] 2
             (pipe_read (H := small_config) (Some 1%positive) 2 pipe_hello)
             pipe_hello_read); [|left; reflexivity|reflexivity].
    apply (stream_write 1%positive pipe_fresh [] [] hello 5
             (pipe_write (H := small_config) (Some 1%positive) hello 5
                pipe_fresh)
             pipe_hello); [|left; reflexivity|reflexivity].
    apply (stream_created 1%positive pipe_fresh (Some 1%positive)
             (Some 2%positive)).
    reflexivity.
  - reflexivity.
Defined.

Lemma pipe_write_accepts_witness :
  exists s' cb',
    pipe_write (H := small_config) (Some 1%positive) [x21; x22; x23] 3
      pipe_hello = Return 2 s' /\
    pipes s' !! 1%positive = Some cb' /\
    ring_contents (H := small_config) cb' = hello ++ [x21; x22] /\
    trace s' = trace pipe_hello ++ [Broadcast (has_data 1%positive)].
Proof.
  apply (pipe_write_accepts (H := small_config) eq_refl 1%positive pipe_hello
           pipe_cb_hello [x21; x22; x23] 3).
  - reflexivity.
  - vm_compute. repeat split; discriminate.
  - discriminate.
  - discriminate.
  - reflexivity.
  - simpl. lia.
Defined.

Lemma pipe_read_delivers_witness :
  exists s' cb',
    pipe_read (H := small_config) (Some 1%positive) 9 pipe_hello =
      Return (5, hello) s' /\
    pipes s' !! 1%positive = Some cb' /\
    ring_contents (H := small_config) cb' = [] /\
    trace s' = trace pipe_hello ++ [Broadcast (has_space 1%positive)].
Proof.
  apply (pipe_read_delivers (H := small_config) eq_refl 1%positive pipe_hello
           pipe_cb_hello 9).
  - reflexivity.
  - vm_compute. repeat split; discriminate.
  - discriminate.
  - left. reflexivity.
Defined.

Lemma pipe_freed_by_second_close_witness :
  (exists s1 s2,
     pipe_reader_close (Some 1%positive) pipe_hello = Return 0 s1 /\
     pipes s1 !! 1%positive =
       Some (pipe_cb.mk None (Some 2%positive)
               [x68; x65; x6c; x6c; x6f; x00; x00; x00] 5 0 5) /\
     trace s1 = trace pipe_hello ++ [Broadcast (has_space 1%positive)] /\
     pipe_writer_close (Some 1%positive) s1 = Return 0 s2 /\
     pipes s2 = delete 1%positive (pipes pipe_hello) /\ trace s2 = trace s1) /\
  (exists s1 s2,
     pipe_writer_close (Some 1%positive) pipe_hello = Return 0 s1 /\
     pipes s1 !! 1%positive =
       Some (pipe_cb.mk (Some 1%positive) None
               [x68; x65; x6c; x6c; x6f; x00; x00; x00] 5 0 5) /\
     trace s1 = trace pipe_hello ++ [Broadcast (has_data 1%positive)] /\
     pipe_reader_close (Some 1%positive) s1 = Return 0 s2 /\
     pipes s2 = delete 1%positive (pipes pipe_hello) /\ trace s2 = trace s1).
Proof.
  apply (pipe_freed_by_second_close 1%positive pipe_hello pipe_cb_hello).
  - reflexivity.
  - discriminate.
  - discriminate.
Defined.

(** ** Sockets: binding a port, connecting, closing *)

Section SocketPorts.
Context `{KernelConfig}.

(** The descriptor [fid] of the current process names the socket control
    block [S]. *)
Definition socket_of_fid (fid : Z) (s : kernel) (S : ptr) : Prop :=
  0 <= fid < MAX_FILEID /\
  exists pcb f fcb,
    array_get (PT s) (CURPROC s) = Some pcb /\
    array_get (PCB.FIDT pcb) fid = Some (Some f) /\
    FT s !! f = Some fcb /\
    FCB.streamobj fcb = Some (SocketObj S).

Lemma get_fcb_range fid s f s' :
  get_fcb fid s = Return (Some f) s' -> 0 <= fid < MAX_FILEID.
Proof.
  unfold get_fcb.
  destruct (Z.ltb_spec fid 0); [discriminate|].
  destruct (Z.leb_spec MAX_FILEID fid); [discriminate|]. lia.
Qed.

Lemma get_fcb_socket fid s S :
  socket_of_fid fid s S ->
  exists f fcb, get_fcb fid s = Return (Some f) s /\
    FT s !! f = Some fcb /\ FCB.streamobj fcb = Some (SocketObj S).
Proof.
  intros (Hfid & pcb & f & fcb & Hpcb & Hfidt & Hfcb & Hobj).
  exists f, fcb. split; [|auto].
  unfold get_fcb.
  destruct (Z.ltb_spec fid 0); [lia|].
  destruct (Z.leb_spec MAX_FILEID fid); [lia|]. simpl.
  kred. rewrite Hpcb. kred. rewrite Hfidt. reflexivity.
Qed.

Lemma get_fcb_returns fid s w s' : get_fcb fid s <> Suspended w s'.
Proof.
  unfold get_fcb. destruct ((fid <? 0) || (MAX_FILEID <=? fid)); [discriminate|].
  kred. destruct (array_get (PT s) (CURPROC s)) as [pcb|]; kred;
    [|discriminate].
  destruct (array_get (PCB.FIDT pcb) fid); discriminate.
Qed.

(** The state [sys_Listen] leaves when it binds [S], whose block was
    [cb]. *)
Definition listening_on (S : ptr) (cb : socket_cb.t) (s : kernel) : kernel :=
  with_sockets
    (insert S (socket_cb_set_queue [] (socket_cb_set_type SOCKET_LISTENER cb)))
    (with_PORT_MAP
       (fun pm => <[Z.to_nat (socket_cb.port cb) := Some S]> pm) s).

Lemma sys_Listen_spec sock s v s' :
  sys_Listen sock s = Return v s' ->
  (v = -1 /\ s' = s) \/
  (v = 0 /\
   exists S cb,
     socket_of_fid sock s S /\
     sockets s !! S = Some cb /\
     socket_cb.type cb = SOCKET_UNBOUND /\
     socket_cb.port cb <> NOPORT /\
     0 <= socket_cb.port cb <= MAX_PORT /\
     array_get (PORT_MAP s) (socket_cb.port cb) = Some None /\
     s' = listening_on S cb s /\
     array_get (PORT_MAP s') (socket_cb.port cb) = Some (Some S)).
Proof.
  unfold sys_Listen. intros Hrun.
  apply bind_Return in Hrun as (o & s0 & Hfcb & Hrun).
  destruct o as [f|]; [|injection Hrun as <- <-;
                         apply get_fcb_state in Hfcb; auto].
  pose proof (get_fcb_range _ _ _ _ Hfcb) as Hrange.
  apply get_fcb_lookup in Hfcb as (-> & pcb & Hpcb & Hfidt).
  destruct (sock =? NOFILE); [injection Hrun as <- <-; auto|].
  kred_in Hrun.
  destruct (FT s !! f) as [fcb|] eqn:Hf; kred_in Hrun; [|discriminate].
  unfold as_socket in Hrun.
  destruct (FCB.streamobj fcb) as [[q|S|q]|] eqn:Hobj; kred_in Hrun;
    try discriminate; [|injection Hrun as <- <-; auto].
  destruct (sockets s !! S) as [cb|] eqn:HS; kred_in Hrun; [|discriminate].
  destruct (Z.ltb_spec (socket_cb.port cb) 0);
    [injection Hrun as <- <-; auto|].
  destruct (Z.ltb_spec MAX_PORT (socket_cb.port cb));
    [injection Hrun as <- <-; auto|].
  kred_in Hrun.
  destruct (array_get (PORT_MAP s) (socket_cb.port cb)) as [bound|] eqn:Hport;
    kred_in Hrun; [|discriminate].
  destruct bound as [L|]; simpl in Hrun; [injection Hrun as <- <-; auto|].
  destruct (Z.eqb_spec (socket_cb.port cb) NOPORT);
    [injection Hrun as <- <-; auto|].
  destruct (decide (socket_cb.type cb = SOCKET_UNBOUND)) as [Hty|Hty].
  2: { rewrite bool_decide_eq_true_2 in Hrun by assumption.
       injection Hrun as <- <-; auto. }
  rewrite bool_decide_eq_false_2 in Hrun by (intros Hne; now apply Hne).
  kred_in Hrun.
  destruct (array_set (PORT_MAP s) (socket_cb.port cb) (Some S))
    as [pm|] eqn:Hset; kred_in Hrun; [|discriminate].
  injection Hrun as <- <-. right. split; [reflexivity|].
  exists S, cb. destruct (array_set_get _ _ _ _ Hset) as (Hget & _).
  apply array_set_insert in Hset as [-> _].
  split; [split; [assumption|exists pcb, f, fcb; auto]|].
  repeat split; try assumption.
Qed.

(** [sys_Listen] either fails with -1 and changes nothing, or returns 0:
    then the descriptor names an unbound socket whose port is not
    [NOPORT] and was free in [PORT_MAP]; the socket is now installed at
    its port and is a listener with an empty queue. *)
Theorem sys_Listen_binds sock s v s' :
  sys_Listen sock s = Return v s' ->
  (v = -1 /\ s' = s) \/
  (v = 0 /\
   exists S cb,
     socket_of_fid sock s S /\
     sockets s !! S = Some cb /\
     socket_cb.type cb = SOCKET_UNBOUND /\
     socket_cb.port cb <> NOPORT /\
     0 <= socket_cb.port cb <= MAX_PORT /\
     array_get (PORT_MAP s) (socket_cb.port cb) = Some None /\
     s' = listening_on S cb s /\
     array_get (PORT_MAP s') (socket_cb.port cb) = Some (Some S)).
Proof. apply sys_Listen_spec. Qed.

(** A port holds one listener: after a [sys_Listen] that bound a port,
    [sys_Listen] on any descriptor naming a socket of that port (the same
    socket or another) fails with -1 and changes nothing. *)
Theorem sys_Listen_port_taken sock sock' s s1 S cb S' cb' :
  sys_Listen sock s = Return 0 s1 ->
  socket_of_fid sock s S -> sockets s !! S = Some cb ->
  socket_of_fid sock' s1 S' -> sockets s1 !! S' = Some cb' ->
  socket_cb.port cb' = socket_cb.port cb ->
  sys_Listen sock' s1 = Return (-1) s1.
Proof.
  intros Hrun Hfid HS Hfid' HS' Hsame.
  apply sys_Listen_spec in Hrun as [[? _]|(_ & S0 & cb0 & Hfid0 & HS0 & Hty
                                 & Hport & Hrange & Hfree & -> & Hbound)];
    [discriminate|].
  assert (S0 = S) as ->.
  { destruct Hfid0 as (_ & pcb0 & f0 & fcb0 & Hp0 & Hf0 & Hc0 & Ho0).
    destruct Hfid as (_ & pcb & f & fcb & Hp & Hf & Hc & Ho). congruence. }
  assert (cb0 = cb) as -> by congruence.
  destruct (get_fcb_socket _ _ _ Hfid') as (f' & fcb' & Hget & Hf' & Hobj').
  unfold sys_Listen, bind at 1. rewrite Hget.
  destruct (Z.eqb_spec sock' NOFILE); [reflexivity|].
  unfold bind at 1, load_FCB. rewrite Hf'. simpl.
  unfold bind at 1. rewrite Hobj'. simpl.
  unfold bind at 1, load_socket. rewrite HS'. simpl. rewrite Hsame.
  destruct (Z.ltb_spec (socket_cb.port cb) 0); [lia|].
  destruct (Z.ltb_spec MAX_PORT (socket_cb.port cb)); [lia|]. simpl.
  unfold bind at 1, port_map_get. rewrite Hbound. reflexivity.
Qed.

Lemma sys_Connect_spec sock port timeout s :
  match sys_Connect sock port timeout s with
  | Return v s' => v = -1 /\ s' = s
  | Suspended w s' =>
      exists S cb L lcb lcb',
        let r := xmalloc (requests s) in
        socket_of_fid sock s S /\ sockets s !! S = Some cb /\
        socket_cb.type cb = SOCKET_UNBOUND /\
        array_get (PORT_MAP s) port = Some (Some L) /\
        sockets s !! L = Some lcb /\
        w = KTimedWait (connected_cv r) timeout /\
        requests s !! r = None /\
        requests s' = <[r := connection_request.mk 0 (Some S)]> (requests s) /\
        sockets s' !! L = Some lcb' /\
        socket_cb.queue lcb' = socket_cb.queue lcb ++ [r] /\
        trace s' = trace s ++ [Signal (req_available L)] /\
        PORT_MAP s' = PORT_MAP s /\ pipes s' = pipes s /\
        PT s' = PT s /\ FT s' = FT s
  | Fault _ => True
  end.
Proof.
  unfold sys_Connect, bind at 1.
  destruct (get_fcb sock s) as [[f|] s0|w s0|] eqn:Hfcb; try exact I;
    [|apply get_fcb_state in Hfcb as ->; kred; auto
     |now apply get_fcb_returns in Hfcb].
  pose proof (get_fcb_range _ _ _ _ Hfcb) as Hrange.
  apply get_fcb_lookup in Hfcb as (-> & pcb & Hpcb & Hfidt).
  kred. destruct (FT s !! f) as [fcb|] eqn:Hf; kred; [|exact I].
  unfold as_socket.
  destruct (FCB.streamobj fcb) as [[q|S|q]|] eqn:Hobj; kred; auto.
  destruct (sockets s !! S) as [cb|] eqn:HS; kred; [|exact I].
  destruct (decide (socket_cb.type cb = SOCKET_UNBOUND)) as [Hty|Hty].
  2: { rewrite bool_decide_eq_true_2 by assumption. kred. auto. }
  rewrite bool_decide_eq_false_2 by (intros Hne; now apply Hne).
  destruct ((port <? 0) || (MAX_PORT <? port)); [kred; auto|]. kred.
  destruct (array_get (PORT_MAP s) port) as [[L|]|] eqn:Hport; kred; auto.
  destruct (decide (L = S)) as [->|HLS].
  - rewrite lookup_insert_eq. kred.
    exists S, cb, S, cb. eexists. simpl.
    rewrite lookup_insert_eq.
    split; [split; [assumption|exists pcb, f, fcb; auto]|].
    repeat split; try assumption; try reflexivity.
    apply not_elem_of_dom, is_fresh.
  - rewrite lookup_insert_ne by congruence.
    destruct (sockets s !! L) as [lcb|] eqn:HL; kred; [|exact I].
    exists S, cb, L, lcb. eexists. simpl.
    rewrite lookup_insert_eq.
    split; [split; [assumption|exists pcb, f, fcb; auto]|].
    repeat split; try assumption; try reflexivity.
    apply not_elem_of_dom, is_fresh.
Qed.

(** [sys_Connect] up to its suspension: it either returns -1 with the
    state unchanged, or suspends in [kernel_timedwait] with the given
    timeout on the condition variable of a new request; then the
    descriptor names an unbound socket [S], the port is bound to a
    listener [L], the request names [S], is not admitted and is the last
    of [L]'s queue, and [req_available] of [L] has been signalled. *)
Theorem sys_Connect_entry sock port timeout s :
  match sys_Connect sock port timeout s with
  | Return v s' => v = -1 /\ s' = s
  | Suspended w s' =>
      exists S cb L lcb lcb',
        let r := xmalloc (requests s) in
        socket_of_fid sock s S /\ sockets s !! S = Some cb /\
        socket_cb.type cb = SOCKET_UNBOUND /\
        array_get (PORT_MAP s) port = Some (Some L) /\
        sockets s !! L = Some lcb /\
        w = KTimedWait (connected_cv r) timeout /\
        requests s !! r = None /\
        requests s' = <[r := connection_request.mk 0 (Some S)]> (requests s) /\
        sockets s' !! L = Some lcb' /\
        socket_cb.queue lcb' = socket_cb.queue lcb ++ [r] /\
        trace s' = trace s ++ [Signal (req_available L)] /\
        PORT_MAP s' = PORT_MAP s /\ pipes s' = pipes s /\
        PT s' = PT s /\ FT s' = FT s
  | Fault _ => True
  end.
Proof. apply sys_Connect_spec. Qed.

(** Closing a listener releases its port and wakes the threads waiting
    in [sys_Accept]: the [PORT_MAP] entry is cleared and [req_available]
    broadcast; from then on [sys_Connect] to that port is refused, and an
    accept that wakes on the closed listener returns [NOFILE]. *)
Theorem listener_close_unbinds L cb s :
  sockets s !! L = Some cb ->
  socket_cb.type cb = SOCKET_LISTENER ->
  0 <= socket_cb.port cb < Z.of_nat (length (PORT_MAP s)) ->
  exists s',
    socket_close (Some L) s = Return 0 s' /\
    array_get (PORT_MAP s') (socket_cb.port cb) = Some None /\
    trace s' = trace s ++ [Broadcast (req_available L)] /\
    (forall sock timeout,
       match sys_Connect sock (socket_cb.port cb) timeout s' with
       | Return v s2 => v = -1 /\ s2 = s'
       | Suspended _ _ => False
       | Fault _ => True
       end) /\
    (sockets s' !! L <> None -> sys_Accept_wait L s' = Return NOFILE s').
Proof.
  intros HL Hty Hport.
  destruct (array_set_Some (PORT_MAP s) (socket_cb.port cb) None Hport)
    as [pm Hset].
  destruct (array_set_get _ _ _ _ Hset) as (Hget & _).
  unfold socket_close. kred. rewrite HL. kred. rewrite Hty, Hset. kred.
  rewrite HL. kred.
  match goal with |- exists s', ?o = Return 0 s' /\ _ =>
    assert (exists s1, o = Return 0 s1 /\ PORT_MAP s1 = pm /\
              trace s1 = trace s ++ [Broadcast (req_available L)] /\
              forall cb1, sockets s1 !! L = Some cb1 ->
                socket_cb.port cb1 = socket_cb.port cb) as (s1 & -> & Hpm & Htr & Hcb)
  end.
  { destruct (uint (socket_cb.refcount cb - 1) =? 0); kred;
      eexists; (split; [reflexivity|]); simpl; repeat split;
      intros cb1.
    - rewrite lookup_delete_eq. discriminate.
    - rewrite lookup_insert_eq. intros [= <-]. reflexivity. }
  exists s1. split; [reflexivity|]. rewrite Hpm.
  split; [assumption|]. split; [assumption|]. split.
  - intros sock timeout.
    pose proof (sys_Connect_spec sock (socket_cb.port cb) timeout s1) as Hc.
    destruct (sys_Connect sock (socket_cb.port cb) timeout s1); auto.
    destruct Hc as (? & ? & ? & ? & ? & _ & _ & _ & Hbound & _).
    rewrite Hpm, Hget in Hbound. discriminate.
  - intros Hlive. unfold sys_Accept_wait, sys_Accept_admit. kred.
    destruct (sockets s1 !! L) as [cb1|] eqn:HL1; [|contradiction].
    kred.
    destruct (bool_decide (socket_cb.queue cb1 = [])
              && negb (socket_cb.refcount cb1 =? 0)); kred;
      rewrite ?HL1; kred; rewrite (Hcb cb1 eq_refl), Hpm, Hget; reflexivity.
Qed.





End SocketPorts.

(** ** Sockets: data between the two ends of a connection *)

Section SocketData.
Context `{KernelConfig}.
Hypothesis buffer_size_pos : 0 < PIPE_BUFFER_SIZE.

Lemma ring_contents_empty cb :
  ring_wf cb -> ring_empty cb = true -> ring_contents cb = [].
Proof.
  intros Hwf Hempty.
  pose proof (ring_contents_length buffer_size_pos cb Hwf) as Hlen.
  apply (ring_empty_spec buffer_size_pos cb (proj1 Hwf)) in Hempty.
  destruct (ring_contents cb); [reflexivity|simpl in Hlen; lia].
Qed.

(** What one end writes, the other end reads: [socket_write] on a peer
    socket whose outgoing pipe has room stores the first [k] bytes of
    [buf] ([k] being [n] or the room left), and any [socket_read] on the
    socket at the other end of that pipe then returns, without blocking,
    the oldest bytes of the pipe's contents followed by those [k]
    bytes. *)
Theorem socket_transfer C S B cbC cbS pb buf n s :
  sockets s !! C = Some cbC -> socket_cb.type cbC = SOCKET_PEER ->
  socket_cb.write_pipe cbC = Some B ->
  sockets s !! S = Some cbS -> socket_cb.type cbS = SOCKET_PEER ->
  socket_cb.read_pipe cbS = Some B ->
  pipes s !! B = Some pb -> ring_wf pb ->
  pipe_cb.reader pb <> None -> pipe_cb.writer pb <> None ->
  ring_full pb = false ->
  0 < n <= Z.of_nat (length buf) ->
  let k := Z.min n (PIPE_BUFFER_SIZE - 1 - ring_used pb) in
  let stream := ring_contents pb ++ take (Z.to_nat k) buf in
  exists s1,
    socket_write (Some C) buf n s = Return k s1 /\
    forall m,
      let j := Nat.min (Z.to_nat m) (length stream) in
      exists s2,
        socket_read (Some S) m s1 =
          Return (to_int (Z.of_nat j), take j stream) s2.
Proof.
  intros HC HtyC HwC HS HtyS HrS HB Hwf Hrd Hwr Hfull Hn k stream.
  destruct (pipe_write_effect buffer_size_pos B s pb buf n HB Hwf Hrd Hwr
              Hfull ltac:(lia))
    as (s1 & pb' & Hrun & HB' & Hc & _ & Hwf' & Hrd' & Hwr' & Hframe).
  fold k in Hrun, Hc. fold stream in Hc.
  exists s1. split.
  - unfold socket_write. kred. rewrite HC. kred. rewrite HwC, HtyC.
    rewrite !bool_decide_eq_false_2 by (try discriminate; intros Hne; now apply Hne).
    exact Hrun.
  - intros m j.
    destruct Hframe as (_ & _ & _ & Hsock & _).
    assert (ring_empty pb' = false) as Hne.
    { destruct (ring_empty pb') eqn:Hempty; [|reflexivity].
      apply (ring_contents_empty pb' Hwf') in Hempty.
      pose proof (ring_used_range buffer_size_pos pb (proj1 Hwf)) as Hused.
      apply not_true_iff_false in Hfull.
      rewrite (ring_full_spec buffer_size_pos pb (proj1 Hwf)) in Hfull.
      assert (length stream = 0)%nat as Hlen by (rewrite <- Hc, Hempty; reflexivity).
      subst stream. rewrite length_app, length_take in Hlen. subst k. lia. }
    destruct (pipe_read_effect buffer_size_pos B s1 pb' m HB' Hwf'
                ltac:(congruence) (or_introl Hne))
      as (s2 & pb2 & Hread & _).
    exists s2. unfold socket_read. kred. rewrite Hsock, HS. kred.
    rewrite HrS, HtyS.
    rewrite !bool_decide_eq_false_2 by (try discriminate; intros Hne'; now apply Hne').
    cbn [orb]. rewrite Hread, Hc. reflexivity.
Qed.

(** Shutting down the write side of a connection is seen as end of data
    at the other end: after [sys_ShutDown(sock, SHUTDOWN_WRITE)] the
    socket refuses to write, and a read at the other end never blocks:
    it returns the oldest of the bytes still in the pipe, and 0 bytes
    when the pipe holds none. *)
Theorem shutdown_write_ends_data sock C S B cbC cbS pb s :
  peer_of_fid sock s = Some C ->
  sockets s !! C = Some cbC -> socket_cb.write_pipe cbC = Some B ->
  sockets s !! S = Some cbS -> S <> C ->
  socket_cb.type cbS = SOCKET_PEER -> socket_cb.read_pipe cbS = Some B ->
  pipes s !! B = Some pb -> ring_wf pb -> pipe_cb.reader pb <> None ->
  exists s1,
    sys_ShutDown sock SHUTDOWN_WRITE s = Return 0 s1 /\
    (forall buf n, socket_write (Some C) buf n s1 = Return (-1) s1) /\
    (forall m,
       let j := Nat.min (Z.to_nat m) (length (ring_contents pb)) in
       exists s2,
         socket_read (Some S) m s1 =
           Return (to_int (Z.of_nat j), take j (ring_contents pb)) s2).
Proof.
  intros Hfid HC HwC HS HSC HtyS HrS HB Hwf Hrd.
  rewrite (sys_ShutDown_run sock SHUTDOWN_WRITE s C Hfid).
  unfold shutdown_body, shut_write, pipe_writer_close. kred.
  rewrite HC. kred. rewrite HwC. simpl. kred. rewrite HB. kred.
  rewrite bool_decide_eq_false_2 by assumption. kred. rewrite HC. kred.
  eexists. split; [reflexivity|].
  set (pb' := pipe_cb.mk (pipe_cb.reader pb) None (pipe_cb.BUFFER pb)
                (pipe_cb.w_position pb) (pipe_cb.r_position pb)
                (pipe_cb.counter pb)).
  destruct (ring_same_contents pb pb' eq_refl eq_refl eq_refl Hwf)
    as [Hwf' Hc'].
  assert (forall m,
       let j := Nat.min (Z.to_nat m) (length (ring_contents pb)) in
       exists s2,
         socket_read (Some S) m
           (mkKernel (PT s) (CURPROC s) (cur_thread_ptcb s) (ptcbs s) (FT s)
              (<[C := socket_cb_set_write_pipe None cbC]> (sockets s))
              (<[B := pb']> (pipes s)) (requests s) (infos s) (PORT_MAP s)
              (trace s ++ [Broadcast (has_data B)])) =
           Return (to_int (Z.of_nat j), take j (ring_contents pb)) s2) as Hread.
  { intros m j. unfold socket_read. kred.
    rewrite lookup_insert_ne by congruence. rewrite HS. kred.
    rewrite HrS, HtyS.
    rewrite !bool_decide_eq_false_2
      by (try discriminate; intros Hne'; now apply Hne').
    cbn [orb].
    match goal with |- exists s2, pipe_read _ _ ?st = _ =>
      destruct (pipe_read_effect buffer_size_pos B st pb' m
                  (lookup_insert_eq _ _ _) Hwf' Hrd (or_intror eq_refl))
        as (s2 & pb2 & Hread & _)
    end.
    exists s2. rewrite Hread, Hc'. reflexivity. }
  split; [|exact Hread].
  intros buf n. unfold socket_write. kred. rewrite lookup_insert_eq. kred.
  reflexivity.
Qed.

End SocketData.

(** ** Sockets: the pipes of a connection are released *)

(** Run a segment on a state described by hypotheses: unfold the monad,
    resolve the lookups and the tests the hypotheses decide. *)
Ltac klookup :=
  repeat first
    [ rewrite lookup_insert_eq
    | rewrite lookup_insert_ne by congruence
    | rewrite lookup_delete_eq
    | rewrite lookup_delete_ne by congruence ].
Ltac khyps :=
  repeat match goal with
         | H : ?l = Some _ |- context [?l] => rewrite H
         | H : ?l = None |- context [?l] => rewrite H
         | H : socket_cb.type ?cb = _ |- context [socket_cb.type ?cb] =>
             rewrite H
         end.
Ltac kdecide :=
  repeat first
    [ rewrite bool_decide_eq_true_2 by (simpl; congruence)
    | rewrite bool_decide_eq_false_2 by (simpl; congruence) ].
Ltac krun := repeat (progress (kred; klookup; khyps; kdecide)).

Section ConnectionClose.
Context `{KernelConfig}.

(** Closing both ends of a connection frees both of its pipes: the
    [socket_close] of the first end closes its side of each pipe and
    leaves both control blocks allocated for the peer; the
    [socket_close] of the other end closes the remaining sides, which
    frees them. *)
Theorem connection_close_frees_pipes C S A B cbC cbS pa pb s :
  sockets s !! C = Some cbC -> sockets s !! S = Some cbS -> C <> S ->
  socket_cb.type cbC = SOCKET_PEER -> socket_cb.type cbS = SOCKET_PEER ->
  socket_cb.read_pipe cbC = Some A -> socket_cb.write_pipe cbC = Some B ->
  socket_cb.read_pipe cbS = Some B -> socket_cb.write_pipe cbS = Some A ->
  A <> B ->
  pipes s !! A = Some pa -> pipes s !! B = Some pb ->
  pipe_cb.reader pa <> None -> pipe_cb.writer pa <> None ->
  pipe_cb.reader pb <> None -> pipe_cb.writer pb <> None ->
  exists s1 s2,
    socket_close (Some C) s = Return 0 s1 /\
    (exists pa' pb',
       pipes s1 !! A = Some pa' /\ pipe_cb.reader pa' = None /\
       pipe_cb.writer pa' = pipe_cb.writer pa /\
       pipes s1 !! B = Some pb' /\ pipe_cb.writer pb' = None /\
       pipe_cb.reader pb' = pipe_cb.reader pb) /\
    socket_close (Some S) s1 = Return 0 s2 /\
    pipes s2 = delete A (delete B (pipes s)).
Proof.
  intros HC HS HCS HtyC HtyS HrC HwC HrS HwS HAB HA HB Hra Hwa Hrb Hwb.
  unfold socket_close, shut_read, shut_write, pipe_reader_close,
    pipe_writer_close.
  destruct (uint (socket_cb.refcount cbC - 1) =? 0) eqn:HrcC;
    destruct (uint (socket_cb.refcount cbS - 1) =? 0) eqn:HrcS;
    repeat (progress (krun; rewrite ?HrcC, ?HrcS));
    eexists _, _; (split; [reflexivity|]);
    repeat (progress (krun; rewrite ?HrcC, ?HrcS));
    (split; [eexists _, _; repeat split; reflexivity|]);
    repeat (progress (krun; rewrite ?HrcC, ?HrcS));
    (split; [reflexivity|]); simpl; apply map_eq; intros i;
    destruct (decide (i = A)) as [HiA|HiA];
    destruct (decide (i = B)) as [HiB|HiB]; subst; klookup;
    congruence.
Qed.

End ConnectionClose.

(** A socket on port 42 in the boot state (fid 0, control block 1), and
    a second one on the same port (fid 1, control block 2). *)
Definition socket_made : kernel :=
  after (sys_Socket (H := small_config) 42 (boot 1 None)) (boot 1 None).
Definition two_sockets : kernel :=
  after (sys_Socket (H := small_config) 42 socket_made) socket_made.
Definition first_listens : kernel :=
  after (sys_Listen (H := small_config) 0 two_sockets) two_sockets.

Lemma sys_Listen_binds_witness :
  (0 = -1 /\ first_listens = two_sockets) \/
  (0 = 0 /\
   exists S cb,
     socket_of_fid (H := small_config) 0 two_sockets S /\
     sockets two_sockets !! S = Some cb /\
     socket_cb.type cb = SOCKET_UNBOUND /\
     socket_cb.port cb <> NOPORT /\
     0 <= socket_cb.port cb <= MAX_PORT (KernelConfig := small_config) /\
     array_get (PORT_MAP two_sockets) (socket_cb.port cb) = Some None /\
     first_listens = listening_on S cb two_sockets /\
     array_get (PORT_MAP first_listens) (socket_cb.port cb) = Some (Some S)).
Proof.
  apply (sys_Listen_binds (H := small_config) 0 two_sockets 0 first_listens).
  vm_compute. reflexivity.
Defined.

Lemma sys_Listen_port_taken_witness :
  sys_Listen (H := small_config) 1 first_listens = Return (-1) first_listens.
Proof.
  apply (sys_Listen_port_taken (H := small_config) 0 1 two_sockets
           first_listens 1%positive
           (socket_cb.mk 0 (Some 1%positive) SOCKET_UNBOUND 42 [] None None None)
           2%positive
           (socket_cb.mk 0 (Some 2%positive) SOCKET_UNBOUND 42 [] None None None)).
  - vm_compute. reflexivity.
  - split; [vm_compute; split; [discriminate|reflexivity]|].
    eexists _, _, _. vm_compute. repeat split; reflexivity.
  - vm_compute. reflexivity.
  - split; [vm_compute; split; [discriminate|reflexivity]|].
    eexists _, _, _. vm_compute. repeat split; reflexivity.
  - vm_compute. reflexivity.
  - reflexivity.
Defined.

Lemma listener_close_unbinds_witness :
  exists s',
    socket_close (Some 1%positive) listening = Return 0 s' /\
    array_get (PORT_MAP s') 42 = Some None /\
    trace s' = trace listening ++ [Broadcast (req_available 1%positive)] /\
    (forall sock timeout,
       match sys_Connect (H := small_config) sock 42 timeout s' with
       | Return v s2 => v = -1 /\ s2 = s'
       | Suspended _ _ => False
       | Fault _ => True
       end) /\
    (sockets s' !! 1%positive <> None ->
     sys_Accept_wait (H := small_config) 1%positive s' = Return NOFILE s').
Proof.
  apply (listener_close_unbinds (H := small_config) 1%positive
           (socket_cb.mk 0 (Some 1%positive) SOCKET_LISTENER 42 [] None None
              None) listening).
  - vm_compute. reflexivity.
  - reflexivity.
  - vm_compute. split; [discriminate|reflexivity].
Defined.


Lemma socket_transfer_witness :
  exists s1,
    socket_write (H := small_config) (Some 2%positive) hello 5 connected =
      Return 5 s1 /\
    forall m,
      exists s2,
        socket_read (H := small_config) (Some 3%positive) m s1 =
          Return (to_int (Z.of_nat (Nat.min (Z.to_nat m) 5)),
                  take (Nat.min (Z.to_nat m) 5) hello) s2.
Proof.
  apply (socket_transfer (H := small_config) eq_refl 2%positive 3%positive
           2%positive
           (socket_cb.mk 1 (Some 2%positive) SOCKET_PEER 0 [] (Some 3%positive)
              (Some 2%positive) (Some 1%positive))
           (socket_cb.mk 0 (Some 3%positive) SOCKET_PEER 0 [] (Some 2%positive)
              (Some 1%positive) (Some 2%positive))
           (pipe_cb.mk (Some 3%positive) (Some 2%positive)
              [x00; x00; x00; x00; x00; x00; x00; x00] 0 0 0)
           hello 5 connected).
  - vm_compute. reflexivity.
  - reflexivity.
  - reflexivity.
  - vm_compute. reflexivity.
  - reflexivity.
  - reflexivity.
  - vm_compute. reflexivity.
  - vm_compute. repeat split; discriminate.
  - discriminate.
  - discriminate.
  - reflexivity.
  - simpl. lia.
Defined.

(** The connection after "hello" was written at the connector's end. *)
Definition connected_hello : kernel :=
  after (socket_write (H := small_config) (Some 2%positive) hello 5 connected)
    connected.

Lemma shutdown_write_ends_data_witness :
  exists s1,
    sys_ShutDown (H := small_config) 1 SHUTDOWN_WRITE connected_hello =
      Return 0 s1 /\
    (forall buf n,
       socket_write (H := small_config) (Some 2%positive) buf n s1 =
         Return (-1) s1) /\
    (forall m,
       exists s2,
         socket_read (H := small_config) (Some 3%positive) m s1 =
           Return (to_int (Z.of_nat (Nat.min (Z.to_nat m) 5)),
                   take (Nat.min (Z.to_nat m) 5) hello) s2).
Proof.
  apply (shutdown_write_ends_data (H := small_config) eq_refl 1 2%positive
           3%positive 2%positive
           (socket_cb.mk 1 (Some 2%positive) SOCKET_PEER 0 [] (Some 3%positive)
              (Some 2%positive) (Some 1%positive))
           (socket_cb.mk 0 (Some 3%positive) SOCKET_PEER 0 [] (Some 2%positive)
              (Some 1%positive) (Some 2%positive))
           (pipe_cb.mk (Some 3%positive) (Some 2%positive)
              [x68; x65; x6c; x6c; x6f; x00; x00; x00] 5 0 5)
           connected_hello).
  - vm_compute. reflexivity.
  - vm_compute. reflexivity.
  - reflexivity.
  - vm_compute. reflexivity.
  - discriminate.
  - reflexivity.
  - reflexivity.
  - vm_compute. reflexivity.
  - vm_compute. repeat split; discriminate.
  - discriminate.
Defined.

Lemma connection_close_frees_pipes_witness :
  exists s1 s2,
    socket_close (Some 2%positive) connected = Return 0 s1 /\
    (exists pa' pb',
       pipes s1 !! 1%positive = Some pa' /\ pipe_cb.reader pa' = None /\
       pipe_cb.writer pa' = Some 3%positive /\
       pipes s1 !! 2%positive = Some pb' /\ pipe_cb.writer pb' = None /\
       pipe_cb.reader pb' = Some 3%positive) /\
    socket_close (Some 3%positive) s1 = Return 0 s2 /\
    pipes s2 = delete 1%positive (delete 2%positive (pipes connected)).
Proof.
  apply (connection_close_frees_pipes 2%positive 3%positive 1%positive
           2%positive
           (socket_cb.mk 1 (Some 2%positive) SOCKET_PEER 0 [] (Some 3%positive)
              (Some 2%positive) (Some 1%positive))
           (socket_cb.mk 0 (Some 3%positive) SOCKET_PEER 0 [] (Some 2%positive)
              (Some 1%positive) (Some 2%positive))
           (pipe_cb.mk (Some 2%positive) (Some 3%positive)
              [x00; x00; x00; x00; x00; x00; x00; x00] 0 0 0)
           (pipe_cb.mk (Some 3%positive) (Some 2%positive)
              [x00; x00; x00; x00; x00; x00; x00; x00] 0 0 0)
           connected);
    try discriminate; try reflexivity; vm_compute; reflexivity.
Defined.

(** ** Threads: detaching and joining *)

Section ThreadHandles.
Context `{KernelConfig}.

(** [sys_ThreadDetach] either fails with -1 and changes nothing, or
    returns 0: then the handle belongs to the current process and its
    thread has not exited; it is now marked detached and [exit_cv] has
    been broadcast.  From then on the thread cannot be joined: a new
    [sys_ThreadJoin] on it is refused and changes nothing, and a joiner
    woken from its wait drops its reference and returns -1, leaving the
    handle allocated. *)
Theorem detach_defeats_join tid s v s' :
  sys_ThreadDetach tid s = Return v s' ->
  (v = -1 /\ s' = s) \/
  (v = 0 /\
   exists t ptcb pcb,
     tid = Some t /\
     array_get (PT s) (CURPROC s) = Some pcb /\ t ∈ PCB.ptcb_list pcb /\
     ptcbs s !! t = Some ptcb /\ PTCB.exited ptcb <> 1 /\
     s' = with_trace (fun tr => tr ++ [Broadcast (exit_cv t)])
            (with_ptcbs (insert t (PTCB_set_detached 1 ptcb)) s) /\
     (forall out, sys_ThreadJoin tid out s' = Return (-1, None) s') /\
     (forall out,
        sys_ThreadJoin_wait t out s' =
          Return (-1, None)
            (with_ptcbs
               (insert t (PTCB_set_refcount (PTCB.refcount ptcb - 1)
                            (PTCB_set_detached 1 ptcb))) s'))).
Proof.
  unfold sys_ThreadDetach. destruct tid as [t|]; [|intros [= <- <-]; auto].
  intros Hrun. kred_in Hrun.
  destruct (array_get (PT s) (CURPROC s)) as [pcb|] eqn:Hpcb; kred_in Hrun;
    [|discriminate].
  destruct (decide (t ∈ PCB.ptcb_list pcb)) as [Hin|Hout].
  2: { rewrite bool_decide_eq_true_2 in Hrun by assumption.
       injection Hrun as <- <-. auto. }
  rewrite bool_decide_eq_false_2 in Hrun by (intros Hne; now apply Hne).
  kred_in Hrun.
  destruct (ptcbs s !! t) as [ptcb|] eqn:Ht; kred_in Hrun; [|discriminate].
  destruct (Z.eqb_spec (PTCB.exited ptcb) 1) as [|Hexited];
    [injection Hrun as <- <-; auto|].
  kred_in Hrun. injection Hrun as <- <-. right. split; [reflexivity|].
  exists t, ptcb, pcb. repeat split; try assumption.
  - intros out. unfold sys_ThreadJoin. kred. rewrite Hpcb. kred.
    rewrite bool_decide_eq_false_2 by (intros Hne; now apply Hne).
    kred.
    match goal with
    | |- context [bool_decide (Some t = ?x)] =>
        destruct (bool_decide (Some t = x)); [reflexivity|]
    end.
    kred. rewrite lookup_insert_eq. reflexivity.
  - intros out. unfold sys_ThreadJoin_wait. kred. rewrite lookup_insert_eq.
    kred. rewrite andb_false_r. kred. reflexivity.
Qed.

(** What [sys_ThreadJoin] does at entry: it is refused with -1 and
    nothing changes (a null or foreign handle, the caller's own handle, a
    detached thread); or it suspends on the [exit_cv] of a running thread
    of the process, holding one more reference on the handle; or it
    returns 0 for a thread that had exited already. *)
Theorem sys_ThreadJoin_entry tid out s :
  match sys_ThreadJoin tid out s with
  | Return (v, r) s' =>
      (v = -1 /\ r = None /\ s' = s) \/
      (v = 0 /\ exists t ptcb,
         tid = Some t /\ ptcbs s !! t = Some ptcb /\
         PTCB.exited ptcb = 1 /\ PTCB.detached ptcb <> 1 /\
         cur_thread_ptcb s <> Some t /\
         r = (if out then Some (PTCB.exitval ptcb) else None))
  | Suspended w s' =>
      exists t ptcb pcb,
        tid = Some t /\
        array_get (PT s) (CURPROC s) = Some pcb /\ t ∈ PCB.ptcb_list pcb /\
        cur_thread_ptcb s <> Some t /\
        ptcbs s !! t = Some ptcb /\
        PTCB.exited ptcb <> 1 /\ PTCB.detached ptcb <> 1 /\
        w = KWait (exit_cv t) /\
        s' = with_ptcbs
               (insert t (PTCB_set_refcount (PTCB.refcount ptcb + 1) ptcb)) s
  | Fault _ => True
  end.
Proof.
  unfold sys_ThreadJoin. destruct tid as [t|]; [|kred; auto]. kred.
  destruct (array_get (PT s) (CURPROC s)) as [pcb|] eqn:Hpcb; kred;
    [|exact I].
  destruct (decide (t ∈ PCB.ptcb_list pcb)) as [Hin|Hout].
  2: { rewrite bool_decide_eq_true_2 by assumption. kred. auto. }
  rewrite bool_decide_eq_false_2 by (intros Hne; now apply Hne). kred.
  destruct (decide (Some t = cur_thread_ptcb s)) as [Hme|Hme].
  { rewrite bool_decide_eq_true_2 by assumption. kred. auto. }
  rewrite bool_decide_eq_false_2 by assumption. kred.
  destruct (ptcbs s !! t) as [ptcb|] eqn:Ht; kred; [|exact I].
  destruct (Z.eqb_spec (PTCB.detached ptcb) 1) as [|Hdet]; [kred; auto|].
  kred. unfold sys_ThreadJoin_wait. kred. rewrite lookup_insert_eq. kred.
  destruct (Z.eqb_spec (PTCB.exited ptcb) 1) as [Hex|Hex]; simpl.
  - destruct (Z.eqb_spec (PTCB.detached ptcb) 1) as [|_]; [contradiction|].
    assert (cur_thread_ptcb s <> Some t) as Hme' by congruence.
    destruct (PTCB.refcount ptcb + 1 - 1 =? 0); unfold rlist_remove_ptcb;
      kred; right; (split; [reflexivity|]); exists t, ptcb; auto 10.
  - destruct (Z.eqb_spec (PTCB.detached ptcb) 1) as [|_]; [contradiction|].
    simpl. exists t, ptcb, pcb. repeat split; try assumption; congruence.
Qed.

End ThreadHandles.

(** The handle 2 of the waiting joiner's target is detached by thread
    1. *)
Definition target_detached : kernel :=
  after (sys_ThreadDetach (Some 2%positive) joiner_waiting) joiner_waiting.

Lemma detach_defeats_join_witness :
  (0 = -1 /\ target_detached = joiner_waiting) \/
  (0 = 0 /\
   exists t ptcb pcb,
     Some 2%positive = Some t /\
     array_get (PT joiner_waiting) (CURPROC joiner_waiting) = Some pcb /\
     t ∈ PCB.ptcb_list pcb /\
     ptcbs joiner_waiting !! t = Some ptcb /\ PTCB.exited ptcb <> 1 /\
     target_detached =
       with_trace (fun tr => tr ++ [Broadcast (exit_cv t)])
         (with_ptcbs (insert t (PTCB_set_detached 1 ptcb)) joiner_waiting) /\
     (forall out,
        sys_ThreadJoin (Some 2%positive) out target_detached =
          Return (-1, None) target_detached) /\
     (forall out,
        sys_ThreadJoin_wait t out target_detached =
          Return (-1, None)
            (with_ptcbs
               (insert t (PTCB_set_refcount (PTCB.refcount ptcb - 1)
                            (PTCB_set_detached 1 ptcb))) target_detached))).
Proof.
  apply (detach_defeats_join (Some 2%positive) joiner_waiting 0
           target_detached).
  vm_compute. reflexivity.
Defined.

(** ** Processes: waiting for a child *)

Section WaitChild.
Context `{KernelConfig}.

(** What [cleanup_zombie] does to a slot of the process table: the
    reaped process leaves the children list and the exited list. *)
Definition unlink_child (child : Z) (pcb : PCB.t) : PCB.t :=
  PCB_set_exited_list (filter (fun x => x <> child) (PCB.exited_list pcb))
    (PCB_set_children_list
       (filter (fun x => x <> child) (PCB.children_list pcb)) pcb).

(** The state and the globals after the process [child], whose slot
    held [pcb], was reaped: the slot is free and heads the free list,
    the process is off every list, and one process less is counted. *)
Definition reaped (g : proc_globals) (child : Z) (pcb : PCB.t)
    (s s' : kernel) (g' : proc_globals) : Prop :=
  g' = mk_globals (Some child) (uint (process_count g - 1)) /\
  array_get (PT s') child =
    Some (PCB_set_parent (pcb_freelist g)
            (PCB_set_pstate FREE (unlink_child child pcb))) /\
  (forall q, q <> child ->
     array_get (PT s') q = unlink_child child <$> array_get (PT s) q) /\
  CURPROC s' = CURPROC s /\ ptcbs s' = ptcbs s /\ FT s' = FT s /\
  trace s' = trace s.

Lemma array_get_fmap {A B} (f : A -> B) (l : list A) i :
  array_get (f <$> l) i = f <$> array_get l i.
Proof.
  unfold array_get. destruct (i <? 0); [reflexivity|].
  apply list_lookup_fmap.
Qed.

Lemma cleanup_zombie_spec g child status s pcb :
  array_get (PT s) child = Some pcb ->
  exists s',
    cleanup_zombie g child status s =
      Return (if status then Some (PCB.exitval pcb) else None,
              mk_globals (Some child) (uint (process_count g - 1))) s' /\
    reaped g child pcb s s' (mk_globals (Some child) (uint (process_count g - 1))).
Proof.
  intros Hpcb.
  unfold cleanup_zombie, release_PCB, rlist_remove_children_node,
    rlist_remove_exited_node, update_PCB.
  kred. rewrite Hpcb. kred.
  change (map ?f (map ?g (PT s))) with (f <$> (g <$> PT s)).
  rewrite <- list_fmap_compose.
  rewrite array_get_fmap, Hpcb. kred.
  match goal with
  | |- context [array_set ?l child ?x] =>
      destruct (array_set_Some l child x) as [pt1 Hset1]
  end.
  { apply array_get_lookup in Hpcb as [Hpcb Hpos].
    apply lookup_lt_Some in Hpcb. rewrite length_fmap. lia. }
  rewrite Hset1. kred.
  destruct (array_set_get _ _ _ _ Hset1) as (Hget1 & Hother1 & Hlen1).
  rewrite Hget1. kred.
  match goal with
  | |- context [array_set pt1 child ?x] =>
      destruct (array_set_Some pt1 child x) as [pt2 Hset2]
  end.
  { apply array_get_lookup in Hget1 as [Hget1 Hpos].
    apply lookup_lt_Some in Hget1. lia. }
  rewrite Hset2. kred.
  destruct (array_set_get _ _ _ _ Hset2) as (Hget2 & Hother2 & Hlen2).
  eexists. split; [reflexivity|].
  unfold reaped. simpl. split; [reflexivity|]. split; [exact Hget2|].
  split; [|auto].
  intros q Hq. rewrite (Hother2 q Hq), (Hother1 q Hq), array_get_fmap.
  reflexivity.
Qed.

(** [sys_WaitChild] either returns [NOPROC] with nothing changed (no such
    child, or no child at all); or it reaps a zombie, a child of the
    caller when a pid was given and the front of the caller's exited
    list otherwise, and stores its exit value through a non-null
    [status]; or it suspends on the caller's [child_exit] with nothing
    changed. *)
Theorem sys_WaitChild_outcome g cpid status s :
  match sys_WaitChild g cpid status s with
  | Return (pid, out, g') s' =>
      (pid = NOPROC /\ out = None /\ g' = g /\ s' = s) \/
      (exists pcb,
         array_get (PT s) pid = Some pcb /\ PCB.pstate pcb = ZOMBIE /\
         out = (if status then Some (PCB.exitval pcb) else None) /\
         reaped g pid pcb s s' g' /\
         (cpid <> NOPROC ->
          pid = cpid /\ PCB.parent pcb = Some (CURPROC s)) /\
         (cpid = NOPROC ->
          exists parent rest,
            array_get (PT s) (CURPROC s) = Some parent /\
            PCB.exited_list parent = pid :: rest))
  | Suspended w s' =>
      w = KWait (child_exit (CURPROC s)) /\ s' = s /\
      (cpid <> NOPROC ->
       exists pcb, array_get (PT s) cpid = Some pcb /\
         PCB.pstate pcb = ALIVE /\ PCB.parent pcb = Some (CURPROC s)) /\
      (cpid = NOPROC ->
       exists parent, array_get (PT s) (CURPROC s) = Some parent /\
         PCB.children_list parent <> [] /\ PCB.exited_list parent = [])
  | Fault _ => True
  end.
Proof.
  unfold sys_WaitChild. destruct (Z.eqb_spec cpid NOPROC) as [->|Hcpid]; simpl.
  - unfold wait_for_any_child. kred.
    destruct (array_get (PT s) (CURPROC s)) as [parent|] eqn:Hparent; kred;
      [|exact I].
    destruct (decide (PCB.children_list parent = [])) as [Hnone|Hsome].
    { rewrite bool_decide_eq_true_2 by assumption. kred. auto. }
    rewrite bool_decide_eq_false_2 by assumption.
    destruct (PCB.exited_list parent) as [|child rest] eqn:Hexited; kred.
    { split; [reflexivity|]. split; [reflexivity|].
      split; [intros Hn; now contradiction Hn|].
      intros _. exists parent. auto. }
    destruct (array_get (PT s) child) as [pcb|] eqn:Hpcb; kred; [|exact I].
    destruct (decide (PCB.pstate pcb = ZOMBIE)) as [Hz|Hz].
    2: { rewrite bool_decide_eq_false_2 by assumption. exact I. }
    rewrite bool_decide_eq_true_2 by assumption. kred.
    destruct (cleanup_zombie_spec g child status s pcb Hpcb)
      as (s' & -> & Hreaped).
    simpl. right. exists pcb.
    split; [assumption|]. split; [assumption|]. split; [reflexivity|].
    split; [assumption|]. split; [intros Hn; now contradiction Hn|].
    intros _. exists parent, rest. auto.
  - unfold wait_for_specific_child.
    destruct ((cpid <? 0) || (MAX_PROC <=? cpid)); [kred; auto|].
    unfold get_pcb, wait_for_specific_child_wait. kred.
    destruct (array_get (PT s) cpid) as [pcb|] eqn:Hpcb; kred; [|exact I].
    destruct (decide (PCB.pstate pcb = FREE)) as [Hfree|Hfree].
    { rewrite bool_decide_eq_true_2 by assumption. kred. auto. }
    rewrite bool_decide_eq_false_2 by assumption. kred. rewrite Hpcb. kred.
    destruct (decide (PCB.parent pcb = Some (CURPROC s))) as [Hmine|Hmine].
    2: { rewrite bool_decide_eq_true_2 by assumption. kred. auto. }
    rewrite bool_decide_eq_false_2 by (intros Hne; now apply Hne).
    kred. rewrite Hpcb. kred.
    destruct (decide (PCB.pstate pcb = ALIVE)) as [Halive|Halive].
    { rewrite bool_decide_eq_true_2 by assumption. kred.
      split; [reflexivity|]. split; [reflexivity|].
      split; [intros _; exists pcb; auto|]. intros Hn. contradiction. }
    rewrite bool_decide_eq_false_2 by assumption. kred.
    destruct (cleanup_zombie_spec g cpid status s pcb Hpcb)
      as (s' & -> & Hreaped).
    simpl. right. exists pcb.
    assert (PCB.pstate pcb = ZOMBIE) by (destruct (PCB.pstate pcb); congruence).
    split; [assumption|]. split; [assumption|]. split; [reflexivity|].
    split; [assumption|]. split; [intros _; auto|].
    intros Hn. contradiction.
Qed.

End WaitChild.

(** ** Processes: the free list and the boot *)

Section ProcessTable.
Context `{KernelConfig}.
Variable spawn_thread : kernel -> Z -> ptr.


Lemma uint_pred_succ z : 0 <= z < UINT_MOD -> uint (uint (z - 1) + 1) = z.
Proof.
  intros Hz. unfold uint, UINT_MOD in *.
  rewrite Z.add_mod_idemp_l by lia.
  replace (z - 1 + 1) with z by lia. now apply Z.mod_small.
Qed.

Lemma update_PCB_run pid f s pcb :
  array_get (PT s) pid = Some pcb ->
  exists s',
    update_PCB pid f s = Return tt s' /\
    array_get (PT s') pid = Some (f pcb) /\
    (forall q, q <> pid -> array_get (PT s') q = array_get (PT s) q) /\
    length (PT s') = length (PT s) /\
    s' = with_PT (fun _ => PT s') s.
Proof.
  intros Hpcb. unfold update_PCB. kred. rewrite Hpcb. kred.
  destruct (array_set_Some (PT s) pid (f pcb)) as [pt Hset].
  { apply array_get_lookup in Hpcb as [Hpcb Hpos].
    apply lookup_lt_Some in Hpcb. lia. }
  rewrite Hset. destruct (array_set_get _ _ _ _ Hset) as (Hget & Hother & Hlen).
  eexists. split; [reflexivity|]. simpl. auto.
Qed.

(** The free list is a stack: the PCB released last is the one acquired
    next, and releasing a PCB and acquiring one again restores the free
    list and the process count; the slot comes back alive, with the old
    head of the free list in its [parent] field. *)
Theorem release_then_acquire g pid s pcb :
  array_get (PT s) pid = Some pcb ->
  0 <= process_count g < UINT_MOD ->
  exists g1 s1 s2,
    release_PCB g pid s = Return g1 s1 /\
    pcb_freelist g1 = Some pid /\
    array_get (PT s1) pid =
      Some (PCB_set_parent (pcb_freelist g) (PCB_set_pstate FREE pcb)) /\
    acquire_PCB g1 s1 = Return (Some pid, g) s2 /\
    array_get (PT s2) pid =
      Some (PCB_set_parent (pcb_freelist g) (PCB_set_pstate ALIVE pcb)) /\
    (forall q, q <> pid -> array_get (PT s2) q = array_get (PT s) q).
Proof.
  intros Hpcb Hcount. unfold release_PCB, acquire_PCB.
  destruct (update_PCB_run pid (PCB_set_pstate FREE) s pcb Hpcb)
    as (sa & Ha & Hgeta & Hothera & _).
  destruct (update_PCB_run pid (PCB_set_parent (pcb_freelist g)) sa _ Hgeta)
    as (sb & Hb & Hgetb & Hotherb & _).
  destruct (update_PCB_run pid (PCB_set_pstate ALIVE) sb _ Hgetb)
    as (sc & Hc & Hgetc & Hotherc & _).
  eexists _, sb, sc.
  split. { unfold bind. rewrite Ha, Hb. reflexivity. }
  split; [reflexivity|]. split; [exact Hgetb|]. simpl.
  split.
  { unfold bind. rewrite Hc. unfold load_PCB. rewrite Hgetc. simpl.
    unfold ret. do 2 f_equal. destruct g as [fl count]. simpl in *.
    now rewrite uint_pred_succ. }
  split; [exact Hgetc|].
  intros q Hq. now rewrite Hotherc, Hotherb, Hothera.
Qed.

Lemma clear_fids_spec todo : forall i fidt,
  0 <= i -> i + Z.of_nat todo <= Z.of_nat (length fidt) ->
  exists fidt',
    clear_fids todo i fidt = Some fidt' /\
    length fidt' = length fidt /\
    (forall j, i <= j < i + Z.of_nat todo -> array_get fidt' j = Some None) /\
    (forall j, j < i -> array_get fidt' j = array_get fidt j).
Proof.
  induction todo as [|todo IH]; intros i fidt Hi Hlen; simpl.
  - exists fidt. repeat split; auto. intros j Hj. lia.
  - destruct (array_set_Some fidt i None) as [fidt1 Hset]; [lia|].
    rewrite Hset.
    destruct (array_set_get _ _ _ _ Hset) as (Hget & Hother & Hlen1).
    destruct (IH (i + 1) fidt1) as (fidt' & Hrun & Hlen' & Hnone & Hbelow);
      [lia|lia|].
    exists fidt'. split; [assumption|]. split; [congruence|]. split.
    + intros j Hj. destruct (decide (j = i)) as [->|Hne].
      * rewrite Hbelow by lia. assumption.
      * apply Hnone. lia.
    + intros j Hj. rewrite Hbelow by lia. apply Hother. lia.
Qed.

(** A slot as [initialize_PCB] leaves it. *)
Definition initialized (pcb0 pcb : PCB.t) : Prop :=
  PCB.pstate pcb = FREE /\ PCB.parent pcb = PCB.parent pcb0 /\
  PCB.argl pcb = 0 /\ PCB.args pcb = None /\
  PCB.children_list pcb = [] /\ PCB.exited_list pcb = [] /\
  PCB.ptcb_list pcb = [] /\ PCB.thread_count pcb = 0 /\
  (forall i, 0 <= i < MAX_FILEID -> array_get (PCB.FIDT pcb) i = Some None).

Definition fids_fit (pt : list PCB.t) : Prop :=
  Forall (fun pcb => MAX_FILEID <= Z.of_nat (length (PCB.FIDT pcb))) pt.

Lemma fids_fit_get pt q pcb :
  fids_fit pt -> array_get pt q = Some pcb ->
  MAX_FILEID <= Z.of_nat (length (PCB.FIDT pcb)).
Proof.
  intros Hfit Hq. apply array_get_lookup in Hq as [Hq _].
  exact (proj1 (Forall_lookup _ _) Hfit _ _ Hq).
Qed.

Lemma initialize_PCBs_spec todo : forall p s,
  0 <= p -> p + Z.of_nat todo <= Z.of_nat (length (PT s)) ->
  fids_fit (PT s) ->
  exists s',
    initialize_PCBs todo p s = Return tt s' /\
    length (PT s') = length (PT s) /\
    (forall q, p <= q < p + Z.of_nat todo ->
       exists pcb0 pcb, array_get (PT s) q = Some pcb0 /\
         array_get (PT s') q = Some pcb /\ initialized pcb0 pcb) /\
    (forall q, q < p -> array_get (PT s') q = array_get (PT s) q).
Proof.
  induction todo as [|todo IH]; intros p s Hp Hlen Hfit; simpl.
  - exists s. repeat split; auto. intros q Hq. lia.
  - unfold initialize_PCB. kred.
    destruct (array_get_Some (PT s) p) as [pcb0 Hpcb0]; [lia|].
    rewrite Hpcb0. kred.
    destruct (clear_fids_spec (Z.to_nat MAX_FILEID) 0 (PCB.FIDT pcb0))
      as (fidt & Hclear & Hflen & Hnone & _); [lia| |].
    { pose proof (fids_fit_get _ _ _ Hfit Hpcb0). lia. }
    rewrite Hclear. kred.
    match goal with
    | |- context [array_set (PT s) p ?x] =>
        destruct (array_set_Some (PT s) p x) as [pt Hset]; [lia|]
    end.
    rewrite Hset. kred.
    destruct (array_set_get _ _ _ _ Hset) as (Hget & Hother & Hlen1).
    match goal with
    | |- exists s', initialize_PCBs todo (p + 1) ?st = _ /\ _ =>
        destruct (IH (p + 1) st) as (s' & Hrun & Hlen' & Hinit & Hbelow)
    end.
    { lia. }
    { simpl. lia. }
    { simpl. apply array_set_insert in Hset as [-> _].
      apply Forall_insert; [assumption|]. simpl.
      pose proof (fids_fit_get _ _ _ Hfit Hpcb0). lia. }
    exists s'. split; [assumption|]. simpl in *.
    split; [congruence|]. split.
    + intros q Hq. destruct (decide (q = p)) as [->|Hne].
      * exists pcb0. eexists. split; [assumption|].
        rewrite Hbelow by lia. split; [exact Hget|].
        unfold initialized. simpl. repeat split; auto.
        intros i Hi. apply Hnone. lia.
      * destruct (Hinit q) as (pcb1 & pcb & Hq1 & Hq' & Hi); [lia|].
        rewrite Hother in Hq1 by assumption. eauto.
    + intros q Hq. rewrite Hbelow by lia. apply Hother. lia.
Qed.

Lemma build_freelist_spec todo : forall freelist s,
  Z.of_nat todo <= Z.of_nat (length (PT s)) ->
  exists s',
    build_freelist todo freelist s =
      Return (match todo with O => freelist | S _ => Some 0 end) s' /\
    length (PT s') = length (PT s) /\
    (forall q, 0 <= q < Z.of_nat todo ->
       exists pcb, array_get (PT s) q = Some pcb /\
         array_get (PT s') q =
           Some (PCB_set_parent
                   (if q + 1 <? Z.of_nat todo then Some (q + 1) else freelist)
                   pcb)) /\
    (forall q, Z.of_nat todo <= q -> array_get (PT s') q = array_get (PT s) q).
Proof.
  induction todo as [|todo IH]; intros freelist s Hlen.
  - exists s. simpl. repeat split; auto. intros q Hq. lia.
  - cbn [build_freelist].
    destruct (array_get_Some (PT s) (Z.of_nat todo)) as [pcb Hpcb]; [lia|].
    destruct (update_PCB_run (Z.of_nat todo) (PCB_set_parent freelist) s pcb Hpcb)
      as (s1 & Hrun1 & Hget1 & Hother1 & Hlen1 & _).
    destruct (IH (Some (Z.of_nat todo)) s1) as (s' & Hrun & Hlen' & Hlist & Habove);
      [lia|].
    exists s'. split.
    { unfold bind. rewrite Hrun1, Hrun. destruct todo; reflexivity. }
    split; [congruence|]. split.
    + intros q Hq. destruct (decide (q = Z.of_nat todo)) as [->|Hne].
      * exists pcb. split; [assumption|].
        rewrite Habove by lia. rewrite Hget1.
        destruct (Z.ltb_spec (Z.of_nat todo + 1) (Z.of_nat (S todo))); [lia|].
        reflexivity.
      * destruct (Hlist q) as (pcb1 & Hq1 & Hq'); [lia|].
        rewrite Hother1 in Hq1 by assumption.
        exists pcb1. split; [assumption|]. rewrite Hq'.
        destruct (Z.ltb_spec (q + 1) (Z.of_nat todo));
          destruct (Z.ltb_spec (q + 1) (Z.of_nat (S todo))); try lia;
          try reflexivity.
        do 3 f_equal. lia.
    + intros q Hq. rewrite Habove by lia. apply Hother1. lia.
Qed.

(** The slot of pid [p] after the boot: pid 0, the idle process, is
    alive, parentless and has no thread; every other slot is free and
    names the next slot in its [parent] field, the last one none. *)
Definition boot_slot (p : Z) (pcb : PCB.t) : Prop :=
  PCB.pstate pcb = (if p =? 0 then ALIVE else FREE) /\
  PCB.parent pcb =
    (if p =? 0 then None
     else if p + 1 <? MAX_PROC then Some (p + 1) else None) /\
  PCB.argl pcb = 0 /\ PCB.args pcb = None /\
  PCB.children_list pcb = [] /\ PCB.exited_list pcb = [] /\
  PCB.ptcb_list pcb = [] /\ PCB.thread_count pcb = 0 /\
  (forall i, 0 <= i < MAX_FILEID -> array_get (PCB.FIDT pcb) i = Some None).

(** [initialize_processes] on a process table of [MAX_PROC] slots, each
    with a descriptor table of at least [MAX_FILEID] entries, does not
    fail: it leaves pid 0 alive as the only process, the other slots
    free and chained in increasing order of pid from pid 1 on, and
    [process_count = 1]. *)
Theorem initialize_processes_boot s :
  Z.of_nat (length (PT s)) = MAX_PROC -> 0 < MAX_PROC -> fids_fit (PT s) ->
  exists s',
    initialize_processes spawn_thread s =
      Return (mk_globals (if 1 <? MAX_PROC then Some 1 else None) 1) s' /\
    (forall p, 0 <= p < MAX_PROC ->
       exists pcb, array_get (PT s') p = Some pcb /\ boot_slot p pcb).
Proof.
  intros Hlen Hpos Hfit. unfold initialize_processes.
  destruct (initialize_PCBs_spec (Z.to_nat MAX_PROC) 0 s)
    as (s1 & Hrun1 & Hlen1 & Hinit & _); [lia|lia|assumption|].
  destruct (build_freelist_spec (Z.to_nat MAX_PROC) None s1)
    as (s2 & Hrun2 & Hlen2 & Hlist & _); [lia|].
  destruct (Z.to_nat MAX_PROC) as [|n] eqn:Hn; [lia|].
  rewrite <- Hn in *.
  assert (Hslot : forall p, 0 <= p < MAX_PROC ->
            exists pcb0 pcb1, array_get (PT s) p = Some pcb0 /\
              initialized pcb0 pcb1 /\
              array_get (PT s2) p =
                Some (PCB_set_parent
                        (if p + 1 <? MAX_PROC then Some (p + 1) else None)
                        pcb1)).
  { intros p Hp.
    destruct (Hinit p) as (pcb0 & pcb1 & Hp0 & Hp1 & Hi); [lia|].
    destruct (Hlist p) as (pcb1' & Hp1' & Hp2); [lia|].
    rewrite Hp1 in Hp1'. injection Hp1' as <-.
    exists pcb0, pcb1. rewrite Z2Nat.id in Hp2 by lia. auto. }
  destruct (Hslot 0) as (pcb0 & pcb1 & _ & Hi0 & Hget0); [lia|].
  simpl in Hget0.
  unfold sys_Exec, acquire_PCB. simpl pcb_freelist.
  destruct (update_PCB_run 0 (PCB_set_pstate ALIVE) s2 _ Hget0)
    as (s3 & Hrun3 & Hget3 & Hother3 & _).
  destruct (update_PCB_run 0 (PCB_set_parent None) s3 _ Hget3)
    as (s4 & Hrun4 & Hget4 & Hother4 & _).
  destruct (update_PCB_run 0 (PCB_set_argl 0) s4 _ Hget4)
    as (s5 & Hrun5 & Hget5 & Hother5 & _).
  destruct (update_PCB_run 0 (PCB_set_args None) s5 _ Hget5)
    as (s6 & Hrun6 & Hget6 & Hother6 & _).
  exists s6. split.
  { unfold bind. rewrite Hrun1, Hrun2, Hrun3. unfold load_PCB.
    rewrite Hget3. simpl. rewrite Hrun4, Hrun5, Hrun6. reflexivity. }
  intros p Hp. destruct (decide (p = 0)) as [->|Hne].
  - eexists. split; [exact Hget6|].
    destruct Hi0 as (_ & _ & Ha & Hb & Hc & Hd & He & Hf & Hg).
    unfold boot_slot. simpl. auto 10.
  - destruct (Hslot p Hp) as (pcbp & pcbp1 & _ & Hi & Hgetp).
    eexists. split.
    { rewrite Hother6, Hother5, Hother4, Hother3 by assumption. exact Hgetp. }
    destruct Hi as (Ha0 & _ & Ha & Hb & Hc & Hd & He & Hf & Hg).
    unfold boot_slot. simpl.
    destruct (Z.eqb_spec p 0) as [|_]; [contradiction|]. auto 10.
Qed.

End ProcessTable.

Lemma release_then_acquire_witness :
  exists g1 s1 s2,
    release_PCB (mk_globals (Some 5) 5) 4 orphaned = Return g1 s1 /\
    pcb_freelist g1 = Some 4 /\
    array_get (PT s1) 4 =
      Some (PCB_set_parent (Some 5)
              (PCB_set_pstate FREE (proc ALIVE (Some 1) [] [] [] 1))) /\
    acquire_PCB g1 s1 = Return (Some 4, mk_globals (Some 5) 5) s2 /\
    array_get (PT s2) 4 =
      Some (PCB_set_parent (Some 5)
              (PCB_set_pstate ALIVE (proc ALIVE (Some 1) [] [] [] 1))) /\
    (forall q, q <> 4 -> array_get (PT s2) q = array_get (PT orphaned) q).
Proof.
  apply (release_then_acquire (mk_globals (Some 5) 5) 4 orphaned
           (proc ALIVE (Some 1) [] [] [] 1)).
  - vm_compute. reflexivity.
  - vm_compute. split; [discriminate|reflexivity].
Defined.

Lemma initialize_processes_boot_witness :
  exists s',
    initialize_processes (H := small_config) (fun _ _ => 1%positive)
      orphaned = Return (mk_globals (Some 1) 1) s' /\
    (forall p, 0 <= p < 8 ->
       exists pcb, array_get (PT s') p = Some pcb /\
         boot_slot (H := small_config) p pcb).
Proof.
  apply (initialize_processes_boot (H := small_config)
           (fun _ _ => 1%positive) orphaned).
  - reflexivity.
  - reflexivity.
  - repeat constructor; discriminate.
Defined.

(** ** Processes: from exit to zombie to reaped *)

(** A step that leaves the process table and the thread handles
    alone. *)
Definition procs_kept (s s' : kernel) : Prop :=
  PT s' = PT s /\ CURPROC s' = CURPROC s /\ ptcbs s' = ptcbs s.

Lemma procs_kept_refl s : procs_kept s s.
Proof. unfold procs_kept. auto. Qed.

Lemma procs_kept_trans s1 s2 s3 :
  procs_kept s1 s2 -> procs_kept s2 s3 -> procs_kept s1 s3.
Proof. unfold procs_kept. intros (-> & -> & ->) (-> & -> & ->). auto. Qed.

Create HintDb kept.

Ltac kept_leaf :=
  first
    [ apply (steps_ret procs_kept procs_kept_refl)
    | apply (steps_raise procs_kept)
    | apply (steps_gets procs_kept procs_kept_refl)
    | apply (steps_deref procs_kept procs_kept_refl)
    | apply (steps_read procs_kept procs_kept_refl)
    | apply (steps_modify procs_kept); intros ?; unfold procs_kept; simpl;
      auto ].

Ltac kept_steps :=
  repeat first
    [ kept_leaf
    | solve [auto with kept]
    | apply (steps_bind procs_kept procs_kept_trans); [|intros ?]
    | match goal with
      | |- steps procs_kept (match ?x with _ => _ end) => destruct x
      | |- steps procs_kept (if ?b then _ else _) => destruct b
      end ].

Section ExitZombie.
Context `{KernelConfig}.

Lemma kept_pipe_reader_close o : steps procs_kept (pipe_reader_close o).
Proof.
  unfold pipe_reader_close, load_pipe, store_pipe, free_pipe, kernel_broadcast.
  kept_steps.
Qed.
#[local] Hint Resolve kept_pipe_reader_close : kept.

Lemma kept_pipe_writer_close o : steps procs_kept (pipe_writer_close o).
Proof.
  unfold pipe_writer_close, load_pipe, store_pipe, free_pipe, kernel_broadcast.
  kept_steps.
Qed.
#[local] Hint Resolve kept_pipe_writer_close : kept.

Lemma kept_shut_read p : steps procs_kept (shut_read p).
Proof.
  unfold shut_read, update_socket, load_socket, store_socket. kept_steps.
Qed.
#[local] Hint Resolve kept_shut_read : kept.

Lemma kept_shut_write p : steps procs_kept (shut_write p).
Proof.
  unfold shut_write, update_socket, load_socket, store_socket. kept_steps.
Qed.
#[local] Hint Resolve kept_shut_write : kept.

Lemma kept_port_map_set port v : steps procs_kept (port_map_set port v).
Proof.
  intros s. unfold port_map_set.
  destruct (array_set (PORT_MAP s) port v); [|exact I].
  unfold procs_kept. simpl. auto.
Qed.
#[local] Hint Resolve kept_port_map_set : kept.

Lemma kept_socket_close o : steps procs_kept (socket_close o).
Proof.
  unfold socket_close, load_socket, store_socket, free_socket,
    kernel_broadcast.
  kept_steps.
Qed.
#[local] Hint Resolve kept_socket_close : kept.

Lemma kept_FCB_decref f : steps procs_kept (FCB_decref f).
Proof.
  unfold FCB_decref, load_FCB, store_FCB, as_pipe, as_socket, as_info.
  kept_steps.
Qed.

(** The descriptors of the exiting process are all dropped. *)
Lemma close_fids_spec cur todo : forall i s s' pcb,
  close_fids cur todo i s = Return tt s' ->
  array_get (PT s) cur = Some pcb ->
  exists fidt,
    array_get (PT s') cur = Some (PCB_set_FIDT fidt pcb) /\
    (forall j, i <= j < i + Z.of_nat todo -> array_get fidt j = Some None) /\
    (forall j, j < i -> array_get fidt j = array_get (PCB.FIDT pcb) j) /\
    (forall q, q <> cur -> array_get (PT s') q = array_get (PT s) q) /\
    CURPROC s' = CURPROC s /\ ptcbs s' = ptcbs s.
Proof.
  induction todo as [|todo IH]; intros i s s' pcb Hrun Hpcb; simpl in Hrun.
  - injection Hrun as <-. exists (PCB.FIDT pcb).
    destruct pcb. simpl. repeat split; auto. intros j Hj. lia.
  - apply bind_Return in Hrun as (pcb0 & s0 & Hload & Hrun).
    apply load_PCB_spec in Hload as [-> Hload].
    rewrite Hpcb in Hload. injection Hload as <-.
    apply bind_Return in Hrun as (entry & s0 & Hentry & Hrun).
    assert (s0 = s /\ array_get (PCB.FIDT pcb) i = Some entry) as [-> Hi].
    { unfold deref in Hentry. destruct (array_get (PCB.FIDT pcb) i);
        [|discriminate]. injection Hentry as <- <-. auto. }
    clear Hentry.
    apply bind_Return in Hrun as ([] & s1 & Hstep & Hrun).
    assert (exists fidt1,
              array_get (PT s1) cur = Some (PCB_set_FIDT fidt1 pcb) /\
              array_get fidt1 i = Some None /\
              (forall j, j <> i -> array_get fidt1 j = array_get (PCB.FIDT pcb) j) /\
              (forall q, q <> cur -> array_get (PT s1) q = array_get (PT s) q) /\
              CURPROC s1 = CURPROC s /\ ptcbs s1 = ptcbs s)
      as (fidt1 & Hpcb1 & Hi1 & Hother1 & Hrest1 & Hcur1 & Hpt1).
    { destruct entry as [f|].
      - apply bind_Return in Hstep as (v & s0 & Hdec & Hstep).
        pose proof (steps_Return procs_kept _ _ _ _ (kept_FCB_decref f) Hdec)
          as (Hpt0 & Hcur0 & Hptcb0).
        kred_in Hstep. rewrite Hpt0, Hpcb in Hstep. kred_in Hstep.
        destruct (array_set (PCB.FIDT pcb) i None) as [fidt1|] eqn:Hset;
          kred_in Hstep; [|discriminate].
        rewrite Hpt0 in Hstep.
        destruct (array_set (PT s) cur (PCB_set_FIDT fidt1 pcb)) as [pt|] eqn:Hpt;
          [|discriminate].
        injection Hstep as <-. simpl.
        destruct (array_set_get _ _ _ _ Hset) as (Hg & Ho & _).
        destruct (array_set_get _ _ _ _ Hpt) as (Hg' & Ho' & _).
        exists fidt1. auto 10.
      - injection Hstep as <-. exists (PCB.FIDT pcb).
        destruct pcb. simpl in *. auto 10. }
    destruct (IH (i + 1) s1 s' _ Hrun Hpcb1)
      as (fidt & Hpcb' & Hnone & Hbelow & Hrest & Hcur & Hpt).
    exists fidt. split; [exact Hpcb'|]. split; [|split; [|split; [|split]]].
    + intros j Hj. destruct (decide (j = i)) as [->|Hne].
      * rewrite Hbelow by lia. exact Hi1.
      * apply Hnone. lia.
    + intros j Hj. rewrite Hbelow by lia. apply Hother1. lia.
    + intros q Hq. now rewrite Hrest, Hrest1.
    + congruence.
    + congruence.
Qed.

(** The thread handles of the exiting process are all freed. *)
Lemma free_ptcb_list_spec cur l : forall s s' pcb,
  free_ptcb_list cur l s = Return tt s' ->
  array_get (PT s) cur = Some pcb ->
  array_get (PT s') cur =
    Some (PCB_set_ptcb_list
            (match l with [] => PCB.ptcb_list pcb | _ => [] end) pcb) /\
  (forall T, T ∈ l -> ptcbs s' !! T = None) /\
  (forall q, q <> cur -> array_get (PT s') q = array_get (PT s) q) /\
  CURPROC s' = CURPROC s.
Proof.
  induction l as [|T rest IH]; intros s s' pcb Hrun Hpcb; simpl in Hrun.
  - injection Hrun as <-. destruct pcb. simpl. repeat split; auto.
    intros T HT. inversion HT.
  - apply bind_Return in Hrun as ([] & s1 & Hup & Hrun).
    apply update_PCB_spec in Hup
      as (pcb0 & Hget & Hnew & Hother & _ & Hptcbs & Hcur).
    rewrite Hpcb in Hget. injection Hget as <-.
    apply bind_Return in Hrun as ([] & s2 & Hfree & Hrun).
    unfold free_ptcb in Hfree. kred_in Hfree. injection Hfree as <-.
    destruct (IH _ s' (PCB_set_ptcb_list rest pcb) Hrun Hnew)
      as (Hpcb' & Hfreed & Hrest & Hcur').
    simpl in *. split.
    { rewrite Hpcb'. destruct rest; reflexivity. }
    split; [|split].
    + intros T' HT'. apply elem_of_cons in HT' as [->|HT']; [|auto].
      pose proof (steps_Return quiet _ _ _ _
                    (quiet_free_ptcb_list cur rest) Hrun) as (_ & _ & Hshrink & _).
      destruct (ptcbs s' !! T) as [t|] eqn:Ht; [|reflexivity].
      apply Hshrink in Ht. simpl in Ht. rewrite lookup_delete_eq in Ht.
      discriminate.
    + intros q Hq. now rewrite Hrest, Hother.
    + congruence.
Qed.

(** A slot as the last thread of a process leaves it. *)
Definition zombie_of (pcb z : PCB.t) : Prop :=
  PCB.pstate z = ZOMBIE /\ PCB.parent z = PCB.parent pcb /\
  PCB.exitval z = PCB.exitval pcb /\ PCB.argl z = PCB.argl pcb /\
  PCB.thread_count z = PCB.thread_count pcb /\
  PCB.main_thread z = None /\ PCB.args z = None /\
  PCB.children_list z = [] /\ PCB.exited_list z = [] /\
  PCB.ptcb_list z = [] /\
  (forall i, 0 <= i < MAX_FILEID -> array_get (PCB.FIDT z) i = Some None).

Lemma release_process_spec cur s s' pcb :
  release_process cur s = Return tt s' ->
  array_get (PT s) cur = Some pcb ->
  exists z,
    array_get (PT s') cur = Some z /\ zombie_of pcb z /\
    (forall T, T ∈ PCB.ptcb_list pcb -> ptcbs s' !! T = None) /\
    (forall q, q <> cur -> array_get (PT s') q = array_get (PT s) q) /\
    CURPROC s' = CURPROC s.
Proof.
  unfold release_process. intros Hrun Hpcb.
  apply bind_Return in Hrun as (pcb0 & s0 & Hload & Hrun).
  apply load_PCB_spec in Hload as [-> Hload].
  rewrite Hpcb in Hload. injection Hload as <-.
  apply bind_Return in Hrun as ([] & s0 & Hkids & Hrun).
  unfold assert in Hkids.
  destruct (bool_decide_reflect (PCB.children_list pcb = [])) as [Hnokids|];
    [|discriminate].
  injection Hkids as <-.
  apply bind_Return in Hrun as ([] & s0 & Hexited & Hrun).
  unfold assert in Hexited.
  destruct (bool_decide_reflect (PCB.exited_list pcb = [])) as [Hnoexited|];
    [|discriminate].
  injection Hexited as <-.
  apply bind_Return in Hrun as ([] & s1 & Hargs & Hrun).
  apply update_PCB_spec in Hargs
    as (pcb0 & Hget & Hpcb1 & Hother1 & _ & Hptcbs1 & Hcur1).
  rewrite Hpcb in Hget. injection Hget as <-.
  apply bind_Return in Hrun as ([] & s2 & Hclose & Hrun).
  destruct (close_fids_spec _ _ _ _ _ _ Hclose Hpcb1)
    as (fidt & Hpcb2 & Hnone & _ & Hother2 & Hcur2 & Hptcbs2).
  apply bind_Return in Hrun as (pcb2 & s0 & Hload & Hrun).
  apply load_PCB_spec in Hload as [-> Hload].
  rewrite Hpcb2 in Hload. injection Hload as <-.
  apply bind_Return in Hrun as ([] & s3 & Hfree & Hrun).
  destruct (free_ptcb_list_spec _ _ _ _ _ Hfree Hpcb2)
    as (Hpcb3 & Hfreed & Hother3 & Hcur3).
  apply bind_Return in Hrun as ([] & s4 & Hmain & Hrun).
  apply update_PCB_spec in Hmain
    as (pcb3 & Hget & Hpcb4 & Hother4 & _ & Hptcbs4 & Hcur4).
  rewrite Hpcb3 in Hget. injection Hget as <-.
  apply update_PCB_spec in Hrun
    as (pcb4 & Hget & Hpcb5 & Hother5 & _ & Hptcbs5 & Hcur5).
  rewrite Hpcb4 in Hget. injection Hget as <-.
  eexists. split; [exact Hpcb5|]. split.
  { unfold zombie_of. simpl. repeat split; try assumption.
    - destruct (PCB.ptcb_list pcb); reflexivity.
    - intros i Hi. apply Hnone. lia. }
  split; [|split].
  - intros T HT. rewrite Hptcbs5, Hptcbs4. apply Hfreed. exact HT.
  - intros q Hq. now rewrite Hother5, Hother4, Hother3, Hother2, Hother1.
  - congruence.
Qed.

(** What the hand-over of the children never writes. *)
Definition same_core (pcb pcb' : PCB.t) : Prop :=
  PCB.pstate pcb' = PCB.pstate pcb /\ PCB.exitval pcb' = PCB.exitval pcb /\
  PCB.main_thread pcb' = PCB.main_thread pcb /\
  PCB.argl pcb' = PCB.argl pcb /\ PCB.args pcb' = PCB.args pcb /\
  PCB.FIDT pcb' = PCB.FIDT pcb /\ PCB.ptcb_list pcb' = PCB.ptcb_list pcb /\
  PCB.thread_count pcb' = PCB.thread_count pcb.

(** A step of the hand-over by process [cur], whose children were
    [kids]: only the links between processes change; a process that is
    not one of [kids] keeps its parent, and a process other than [cur]
    keeps its children. *)
Definition handed (cur : Z) (kids : list Z) (s s' : kernel) : Prop :=
  CURPROC s' = CURPROC s /\ ptcbs s' = ptcbs s /\
  forall q pcb, array_get (PT s) q = Some pcb ->
    exists pcb', array_get (PT s') q = Some pcb' /\
      same_core pcb pcb' /\
      (q ∉ kids -> PCB.parent pcb' = PCB.parent pcb) /\
      (q <> cur ->
       forall c, c ∈ PCB.children_list pcb -> c ∈ PCB.children_list pcb').

Lemma same_core_refl pcb : same_core pcb pcb.
Proof. unfold same_core. auto 10. Qed.

Lemma same_core_trans a b c : same_core a b -> same_core b c -> same_core a c.
Proof. unfold same_core. intuition congruence. Qed.

Lemma handed_refl cur kids s : handed cur kids s s.
Proof.
  unfold handed. repeat split; auto. intros q pcb Hq. exists pcb.
  auto using same_core_refl.
Qed.

Lemma handed_trans cur kids s1 s2 s3 :
  handed cur kids s1 s2 -> handed cur kids s2 s3 -> handed cur kids s1 s3.
Proof.
  intros (Hc & Hp & Hq) (Hc' & Hp' & Hq').
  split; [congruence|]. split; [congruence|].
  intros q pcb Hget. destruct (Hq q pcb Hget) as (pcb1 & Hget1 & Hcore1 & Hpar1 & Hkids1).
  destruct (Hq' q pcb1 Hget1) as (pcb2 & Hget2 & Hcore2 & Hpar2 & Hkids2).
  exists pcb2. split; [assumption|].
  split; [eapply same_core_trans; eassumption|]. split.
  - intros Hout. rewrite Hpar2, Hpar1 by assumption. reflexivity.
  - intros Hne c Hin. auto.
Qed.

Lemma handed_update_PCB cur kids pid f :
  (forall pcb, same_core pcb (f pcb)) ->
  (pid ∉ kids -> forall pcb, PCB.parent (f pcb) = PCB.parent pcb) ->
  (pid <> cur -> forall pcb c,
     c ∈ PCB.children_list pcb -> c ∈ PCB.children_list (f pcb)) ->
  steps (handed cur kids) (update_PCB pid f).
Proof.
  intros Hcore Hpar Hkids s.
  destruct (update_PCB pid f s) as [[] s'|w s'|] eqn:Hrun; [| |exact I].
  - apply update_PCB_spec in Hrun
      as (pcb & Hget & Hnew & Hother & Ht & Hp & Hc).
    split; [assumption|]. split; [assumption|]. intros q pcbq Hq.
    destruct (decide (q = pid)) as [->|Hne].
    + rewrite Hget in Hq. injection Hq as <-. exists (f pcb). auto 10.
    + exists pcbq. rewrite Hother by assumption.
      auto using same_core_refl.
  - unfold update_PCB in Hrun. kred_in Hrun.
    destruct (array_get (PT s) pid) as [pcb|]; kred_in Hrun; [|discriminate].
    destruct (array_set (PT s) pid (f pcb)); discriminate.
Qed.

Lemma handed_reparent_children cur kids initpcb children :
  (forall c, c ∈ children -> c ∈ kids) ->
  steps (handed cur kids) (reparent_children cur initpcb children).
Proof.
  induction children as [|child rest IH]; intros Hsub; simpl.
  - apply (steps_ret _ (handed_refl cur kids)).
  - apply (steps_bind _ (handed_trans cur kids)).
    { apply handed_update_PCB; intros; simpl; auto using same_core_refl.
      - unfold same_core. simpl. auto 10.
      - contradiction. }
    intros _. apply (steps_bind _ (handed_trans cur kids)).
    { apply handed_update_PCB; intros; simpl; auto.
      - unfold same_core. simpl. auto 10.
      - exfalso. match goal with Hn : child ∉ kids |- _ => apply Hn end.
        apply Hsub. apply list_elem_of_here. }
    intros _. apply (steps_bind _ (handed_trans cur kids));
      [apply (steps_deref _ (handed_refl cur kids))|].
    intros init. apply (steps_bind _ (handed_trans cur kids)).
    { apply handed_update_PCB; intros; simpl; auto.
      - unfold same_core. simpl. auto 10.
      - now apply list_elem_of_further. }
    intros _. apply IH. intros c Hc. apply Hsub. now apply list_elem_of_further.
Qed.

Lemma handed_hand_over_exited cur kids initpcb curproc :
  steps (handed cur kids) (hand_over_exited cur initpcb curproc).
Proof.
  unfold hand_over_exited.
  destruct (negb _); [|apply (steps_ret _ (handed_refl cur kids))].
  apply (steps_bind _ (handed_trans cur kids));
    [apply (steps_deref _ (handed_refl cur kids))|].
  intros init. apply (steps_bind _ (handed_trans cur kids)).
  { apply handed_update_PCB; intros; simpl; auto.
    unfold same_core. simpl. auto 10. }
  intros _. apply (steps_bind _ (handed_trans cur kids)).
  { apply handed_update_PCB; intros; simpl; auto.
    unfold same_core. simpl. auto 10. }
  intros _. unfold kernel_broadcast. apply (steps_modify (handed cur kids)).
  intros s. unfold handed. simpl. repeat split; auto.
  intros q pcb Hq. exists pcb. auto using same_core_refl.
Qed.

(** The last step of the hand-over: the process enters, at the front,
    the exited list of the process its [parent] field names, whose
    [child_exit] is broadcast. *)
Lemma hand_over_children_front cur s s' pcb :
  hand_over_children cur s = Return tt s' ->
  array_get (PT s) cur = Some pcb ->
  exists s1 pcb1 p ppcb,
    handed cur (PCB.children_list pcb) s s1 /\
    array_get (PT s1) cur = Some pcb1 /\ PCB.parent pcb1 = Some p /\
    array_get (PT s1) p = Some ppcb /\
    array_get (PT s') p =
      Some (PCB_set_exited_list (cur :: PCB.exited_list ppcb) ppcb) /\
    (forall q, q <> p -> array_get (PT s') q = array_get (PT s1) q) /\
    trace s' = trace s1 ++ [Broadcast (child_exit p)] /\
    CURPROC s' = CURPROC s1 /\ ptcbs s' = ptcbs s1.
Proof.
  unfold hand_over_children. intros Hrun Hpcb.
  apply bind_Return in Hrun as (initpcb & s0 & Hinit & Hrun).
  apply get_pcb_spec in Hinit as [-> Hinit].
  apply bind_Return in Hrun as (curproc & s0 & Hload & Hrun).
  apply load_PCB_spec in Hload as [-> Hload].
  rewrite Hpcb in Hload. injection Hload as <-.
  apply bind_Return in Hrun as ([] & sa & Hrep & Hrun).
  pose proof (steps_Return _ _ _ _ _
                (handed_reparent_children cur (PCB.children_list pcb) initpcb
                   (PCB.children_list pcb) (fun c Hc => Hc)) Hrep) as Ha.
  apply bind_Return in Hrun as (curproc & s0 & Hload & Hrun).
  apply load_PCB_spec in Hload as [-> Hload].
  apply bind_Return in Hrun as ([] & sb & Hex & Hrun).
  pose proof (steps_Return _ _ _ _ _
                (handed_hand_over_exited cur (PCB.children_list pcb) initpcb
                   curproc) Hex) as Hb.
  apply bind_Return in Hrun as (pcb1 & s0 & Hload1 & Hrun).
  apply load_PCB_spec in Hload1 as [-> Hload1].
  apply bind_Return in Hrun as (p & s0 & Hparent & Hrun).
  assert (s0 = sb /\ PCB.parent pcb1 = Some p) as [-> Hp].
  { unfold deref in Hparent. destruct (PCB.parent pcb1); [|discriminate].
    injection Hparent as <- <-. auto. }
  apply bind_Return in Hrun as ([] & sc & Hpush & Hcast).
  apply update_PCB_spec in Hpush
    as (ppcb & Hget & Hnew & Hother & Htr & Hptcbs & Hcur).
  unfold kernel_broadcast in Hcast. kred_in Hcast. injection Hcast as <-.
  exists sb, pcb1, p, ppcb. simpl.
  split; [eapply handed_trans; eassumption|].
  rewrite Htr. auto 10.
Qed.

Lemma sys_ThreadExit_zombie v s s' pcb :
  array_get (PT s) (CURPROC s) = Some pcb ->
  PCB.thread_count pcb = 1 ->
  CURPROC s ∉ PCB.children_list pcb ->
  sys_ThreadExit v s = Suspended KSleepExited s' ->
  exists z,
    array_get (PT s') (CURPROC s) = Some z /\
    zombie_of (PCB_set_thread_count 0 pcb) z /\
    (forall T, T ∈ PCB.ptcb_list pcb -> ptcbs s' !! T = None) /\
    (CURPROC s <> 1 ->
     exists p ppcb rest,
       PCB.parent pcb = Some p /\ p <> CURPROC s /\
       array_get (PT s') p = Some ppcb /\
       PCB.exited_list ppcb = CURPROC s :: rest /\
       Broadcast (child_exit p) ∈ trace s' /\
       (forall ppcb0 c, array_get (PT s) p = Some ppcb0 ->
          c ∈ PCB.children_list ppcb0 -> c ∈ PCB.children_list ppcb)).
Proof.
  intros Hpcb Hlast Hself Hrun.
  apply sys_ThreadExit_inv in Hrun
    as (T & t & pcb0 & s1 & _ & _ & Hpcb0 & _ & Hnew & Hothers & _ & Hclean).
  rewrite Hpcb in Hpcb0. injection Hpcb0 as <-.
  rewrite Hlast in Hclean, Hnew. simpl in Hclean, Hnew.
  unfold process_cleanup in Hclean.
  apply bind_Return in Hclean as ([] & s2 & Hhand & Hrelease).
  destruct (Z.eqb_spec (CURPROC s) 1) as [Hinit|Hinit]; simpl in Hhand.
  - injection Hhand as <-.
    destruct (release_process_spec _ _ _ _ Hrelease Hnew)
      as (z & Hz & Hzombie & Hfreed & _).
    exists z. split; [assumption|]. split; [assumption|].
    split; [exact Hfreed|]. intros Hne. contradiction.
  - destruct (hand_over_children_front _ _ _ _ Hhand Hnew)
      as (sa & pcb1 & p & ppcb & Hhanded & Hpcb1 & Hp & Hppcb & Hpushed
          & Hrest & Htrace & _).
    destruct Hhanded as (_ & _ & Hslots).
    destruct (Hslots _ _ Hnew) as (pcb1' & Hget1 & Hcore & Hpar & _).
    rewrite Hpcb1 in Hget1. injection Hget1 as <-.
    simpl in Hpar. specialize (Hpar Hself).
    assert (Hcur2 : exists pcb2, array_get (PT s2) (CURPROC s) = Some pcb2 /\
              same_core (PCB_set_thread_count 0 pcb) pcb2 /\
              PCB.parent pcb2 = PCB.parent pcb).
    { destruct (decide (CURPROC s = p)) as [Heq|Hne].
      - rewrite <- Heq in Hpushed, Hppcb. rewrite Hpcb1 in Hppcb.
        injection Hppcb as <-. eexists. split; [exact Hpushed|].
        split; [|simpl; congruence].
        destruct Hcore as (? & ? & ? & ? & ? & ? & ? & ?).
        unfold same_core. simpl in *. auto 10.
      - exists pcb1. rewrite Hrest by assumption. auto. }
    destruct Hcur2 as (pcb2 & Hpcb2 & Hcore2 & Hpar2).
    destruct (release_process_spec _ _ _ _ Hrelease Hpcb2)
      as (z & Hz & Hzombie & Hfreed & Hkeep & _).
    exists z. split; [assumption|]. split.
    { destruct Hzombie as (? & ? & ? & ? & ? & ? & ? & ? & ? & ? & ?).
      destruct Hcore2 as (? & ? & ? & ? & ? & ? & ? & ?).
      unfold zombie_of. simpl in *. repeat split; try congruence; auto. }
    split.
    { intros T0 HT0. apply Hfreed.
      destruct Hcore2 as (_ & _ & _ & _ & _ & _ & Hlist & _).
      simpl in Hlist. rewrite Hlist. exact HT0. }
    intros _. rewrite Hpar in Hp.
    assert (p <> CURPROC s) as Hpc.
    { intros ->. rewrite Hpcb2 in Hpushed. injection Hpushed as Heq.
      apply (f_equal PCB.exited_list) in Heq. simpl in Heq.
      unfold release_process in Hrelease.
      apply bind_Return in Hrelease as (pcbx & sx & Hload & Hrelease).
      apply load_PCB_spec in Hload as [-> Hload].
      rewrite Hpcb2 in Hload. injection Hload as <-.
      apply bind_Return in Hrelease as ([] & sx & _ & Hrelease).
      apply bind_Return in Hrelease as ([] & sy & Hassert & _).
      unfold assert in Hassert. rewrite Heq in Hassert.
      rewrite bool_decide_eq_false_2 in Hassert by discriminate.
      discriminate. }
    exists p. eexists. exists (PCB.exited_list ppcb).
    split; [assumption|]. split; [assumption|]. split.
    { rewrite Hkeep by assumption. exact Hpushed. }
    split; [reflexivity|]. split.
    { pose proof (steps_Return quiet _ _ _ _
                    (quiet_release_process (CURPROC s)) Hrelease)
        as (_ & _ & _ & Hpre).
      eapply elem_of_prefix; [|exact Hpre]. rewrite Htrace.
      apply elem_of_app. right. apply list_elem_of_here. }
    intros ppcb0 c Hppcb0 Hc. simpl.
    rewrite <- Hothers in Hppcb0 by assumption.
    destruct (Hslots _ _ Hppcb0) as (ppcb' & Hget' & _ & _ & Hkids).
    rewrite Hppcb in Hget'. injection Hget' as <-. auto.
Qed.

(** When the last thread of a process exits, the process becomes a
    zombie: its slot keeps the parent, the exit value and the argument
    length and is otherwise emptied (no argument buffer, no main thread,
    no children, no exited children, no thread handle, every descriptor
    closed), and the thread handles it had are freed.  A process other
    than the initial task is then at the front of the exited list of its
    parent, whose [child_exit] has been broadcast. *)
Theorem exit_leaves_zombie v s s' pcb :
  array_get (PT s) (CURPROC s) = Some pcb ->
  PCB.thread_count pcb = 1 ->
  CURPROC s ∉ PCB.children_list pcb ->
  sys_ThreadExit v s = Suspended KSleepExited s' ->
  exists z,
    array_get (PT s') (CURPROC s) = Some z /\
    zombie_of (PCB_set_thread_count 0 pcb) z /\
    (forall T, T ∈ PCB.ptcb_list pcb -> ptcbs s' !! T = None) /\
    (CURPROC s <> 1 ->
     exists p ppcb rest,
       PCB.parent pcb = Some p /\
       array_get (PT s') p = Some ppcb /\
       PCB.exited_list ppcb = CURPROC s :: rest /\
       Broadcast (child_exit p) ∈ trace s').
Proof.
  intros Hpcb Hlast Hself Hrun.
  destruct (sys_ThreadExit_zombie v s s' pcb Hpcb Hlast Hself Hrun)
    as (z & Hz & Hzombie & Hfreed & Hparent).
  exists z. split; [assumption|]. split; [assumption|].
  split; [assumption|].
  intros Hne.
  destruct (Hparent Hne) as (p & ppcb & rest & ? & ? & ? & ? & ? & _).
  exists p, ppcb, rest. auto.
Qed.

(** The exit value reaches the parent: after a process other than the
    initial task has called [sys_Exit(v)] from its last thread, it is a
    zombie, and a [sys_WaitChild] of its parent, for this child or for
    any child, returns at once with its pid, stores [v] through a
    non-null [status] and frees the slot. *)
Theorem exit_value_reaches_parent fuel g v s g1 s1 pcb p ppcb :
  array_get (PT s) (CURPROC s) = Some pcb ->
  PCB.thread_count pcb = 1 ->
  CURPROC s <> 1 ->
  CURPROC s ∉ PCB.children_list pcb ->
  PCB.parent pcb = Some p ->
  array_get (PT s) p = Some ppcb ->
  CURPROC s ∈ PCB.children_list ppcb ->
  Z.of_nat (length (PT s)) <= MAX_PROC ->
  sys_Exit fuel g v s = Some (g1, Suspended KSleepExited s1) ->
  g1 = g /\
  exists z,
    array_get (PT s1) (CURPROC s) = Some z /\
    PCB.pstate z = ZOMBIE /\ PCB.exitval z = v /\
    forall gw (status : bool) s2,
      PT s2 = PT s1 -> CURPROC s2 = p ->
      let r := (CURPROC s, if status then Some v else None,
                mk_globals (Some (CURPROC s)) (uint (process_count gw - 1))) in
      exists s3,
        sys_WaitChild gw (CURPROC s) status s2 = Return r s3 /\
        sys_WaitChild gw NOPROC status s2 = Return r s3 /\
        reaped gw (CURPROC s) z s2 s3 (snd r).
Proof.
  intros Hpcb Hlast Hinit Hself Hparent Hppcb Hchild Hlen Hrun.
  assert (Hpc : p <> CURPROC s).
  { intros ->. rewrite Hpcb in Hppcb. injection Hppcb as <-. contradiction. }
  assert (Hrange : 0 <= CURPROC s < MAX_PROC).
  { apply array_get_lookup in Hpcb as [Hl Hpos].
    apply lookup_lt_Some in Hl. lia. }
  unfold sys_Exit in Hrun. unfold bind at 1, gets in Hrun.
  destruct (update_PCB_run (CURPROC s) (PCB_set_exitval v) s pcb Hpcb)
    as (s0 & Hup & Hget0 & Hother0 & _ & Hs0).
  unfold bind at 1 in Hrun. rewrite Hup in Hrun. unfold ret in Hrun.
  simpl get_pid in Hrun.
  destruct (Z.eqb_spec (CURPROC s) 1) as [|_]; [contradiction|].
  injection Hrun as <- Hexit. split; [reflexivity|].
  assert (Hcur0 : CURPROC s0 = CURPROC s) by (rewrite Hs0; reflexivity).
  rewrite <- Hcur0 in Hget0.
  destruct (sys_ThreadExit_zombie v s0 s1 _ Hget0)
    as (z & Hz & Hzombie & _ & Hpar);
    [assumption|rewrite Hcur0; assumption|assumption|].
  rewrite Hcur0 in *.
  destruct (Hpar Hinit)
    as (p' & ppcb' & rest & Hp' & _ & Hppcb' & Hfront & _ & Hkids).
  simpl in Hp'. rewrite Hparent in Hp'. injection Hp' as <-.
  rewrite Hother0 in Hkids by assumption.
  specialize (Hkids ppcb (CURPROC s) Hppcb Hchild).
  destruct Hzombie as (Hstate & Hzpar & Hzval & _). simpl in Hzpar, Hzval.
  exists z. split; [assumption|]. split; [assumption|]. split; [assumption|].
  intros gw status s2 HPT Hcur2 r.
  rewrite <- HPT in Hz, Hppcb'.
  destruct (cleanup_zombie_spec gw (CURPROC s) status s2 z Hz)
    as (s3 & Hclean & Hreaped).
  exists s3. rewrite Hzval in Hclean.
  split; [|split; [|exact Hreaped]].
  - unfold sys_WaitChild, wait_for_specific_child.
    destruct (Z.eqb_spec (CURPROC s) NOPROC) as [Hn|_];
      [unfold NOPROC in Hn; lia|]. simpl.
    destruct (Z.ltb_spec (CURPROC s) 0); [lia|].
    destruct (Z.leb_spec MAX_PROC (CURPROC s)); [lia|]. simpl.
    unfold get_pcb, wait_for_specific_child_wait. kred. rewrite Hz. kred.
    rewrite Hstate. simpl. kred. rewrite Hz. kred.
    rewrite Hzpar, Hparent, Hcur2.
    rewrite bool_decide_eq_false_2 by (intros Hne; now apply Hne).
    kred. rewrite Hz. kred. rewrite Hstate. simpl.
    rewrite Hclean. reflexivity.
  - unfold sys_WaitChild, wait_for_any_child. simpl. kred.
    rewrite Hcur2, Hppcb'. kred.
    rewrite bool_decide_eq_false_2
      by (intros Hnil; rewrite Hnil in Hkids; inversion Hkids).
    rewrite Hfront. kred. rewrite Hz. kred. rewrite Hstate. simpl.
    rewrite Hclean. reflexivity.
Qed.

End ExitZombie.

Lemma exit_leaves_zombie_witness :
  exists z,
    array_get (PT orphaned) 3 = Some z /\
    zombie_of (H := small_config) (PCB_set_thread_count 0 exiting_pcb) z /\
    (forall T, T ∈ [1%positive] -> ptcbs orphaned !! T = None) /\
    (3 <> 1 ->
     exists p ppcb rest,
       Some 2 = Some p /\
       array_get (PT orphaned) p = Some ppcb /\
       PCB.exited_list ppcb = 3 :: rest /\
       Broadcast (child_exit p) ∈ trace orphaned).
Proof.
  apply (exit_leaves_zombie (H := small_config) 0 orphaning orphaned
           exiting_pcb).
  - reflexivity.
  - reflexivity.
  - vm_compute. intros Hin. apply elem_of_cons in Hin as [Hin|Hin];
      [discriminate|inversion Hin].
  - vm_compute. reflexivity.
Defined.

(** Process 3 calls [sys_Exit(7)] from its only thread. *)
Definition boot_globals : proc_globals := mk_globals (Some 5) 5.
Definition exited_with_7 : kernel :=
  match sys_Exit (H := small_config) 0 boot_globals 7 orphaning with
  | Some (_, o) => after o orphaning
  | None => orphaning
  end.

Lemma exit_value_reaches_parent_witness :
  boot_globals = boot_globals /\
  exists z,
    array_get (PT exited_with_7) 3 = Some z /\
    PCB.pstate z = ZOMBIE /\ PCB.exitval z = 7 /\
    forall gw (status : bool) s2,
      PT s2 = PT exited_with_7 -> CURPROC s2 = 2 ->
      let r := (3, if status then Some 7 else None,
                mk_globals (Some 3) (uint (process_count gw - 1))) in
      exists s3,
        sys_WaitChild (H := small_config) gw 3 status s2 = Return r s3 /\
        sys_WaitChild (H := small_config) gw NOPROC status s2 = Return r s3 /\
        reaped gw 3 z s2 s3 (snd r).
Proof.
  apply (exit_value_reaches_parent (H := small_config) 0 boot_globals 7
           orphaning boot_globals exited_with_7 exiting_pcb 2
           (proc ALIVE (Some 1) [3] [] [] 1)).
  - reflexivity.
  - reflexivity.
  - discriminate.
  - vm_compute. intros Hin. apply elem_of_cons in Hin as [Hin|Hin];
      [discriminate|inversion Hin].
  - reflexivity.
  - reflexivity.
  - apply list_elem_of_here.
  - vm_compute. discriminate.
  - vm_compute. reflexivity.
Defined.

(** ** Processes: creation *)

Section ProcessCreation.
Context `{KernelConfig}.
Variable spawn_thread : kernel -> Z -> ptr.

Lemma update_PCB_only_PT pid f s s' :
  update_PCB pid f s = Return tt s' -> s' = with_PT (fun _ => PT s') s.
Proof.
  unfold update_PCB. intros Hrun. kred_in Hrun.
  destruct (array_get (PT s) pid) as [pcb|]; kred_in Hrun; [|discriminate].
  destruct (array_set (PT s) pid (f pcb)); [|discriminate].
  injection Hrun as <-. reflexivity.
Qed.

(** One more holder of an FCB, as [FCB_incref] records it. *)
Definition held_once_more (fcb : FCB.t) : FCB.t :=
  FCB.mk (uint (FCB.refcount fcb + 1)) (FCB.streamobj fcb)
    (FCB.streamfunc fcb).

(** The number of entries of a descriptor table that name the FCB [f],
    among the [todo] entries from [i] on. *)
Fixpoint fid_refs (fidt : list (option ptr)) (todo : nat) (i : Z) (f : ptr)
    : nat :=
  match todo with
  | O => O
  | S todo' =>
      ((if bool_decide (array_get fidt i = Some (Some f)) then 1 else 0)
       + fid_refs fidt todo' (i + 1) f)%nat
  end.

Lemma inherit_fids_spec cur new todo : forall i s s' cpcb npcb,
  inherit_fids cur new todo i s = Return tt s' ->
  cur <> new ->
  array_get (PT s) cur = Some cpcb ->
  array_get (PT s) new = Some npcb ->
  exists fidt,
    array_get (PT s') new = Some (PCB_set_FIDT fidt npcb) /\
    (forall j, i <= j < i + Z.of_nat todo ->
       array_get fidt j = array_get (PCB.FIDT cpcb) j) /\
    (forall j, j < i -> array_get fidt j = array_get (PCB.FIDT npcb) j) /\
    (forall q, q <> new -> array_get (PT s') q = array_get (PT s) q) /\
    (forall f, FT s' !! f =
       Nat.iter (fid_refs (PCB.FIDT cpcb) todo i f) held_once_more
         <$> FT s !! f) /\
    CURPROC s' = CURPROC s /\ ptcbs s' = ptcbs s /\ trace s' = trace s.
Proof.
  induction todo as [|todo IH]; intros i s s' cpcb npcb Hrun Hne Hcur Hnew;
    simpl in Hrun.
  - injection Hrun as <-. exists (PCB.FIDT npcb). destruct npcb. simpl.
    repeat split; auto; try (intros j Hj; lia).
    intros f. destruct (FT s !! f); reflexivity.
  - apply bind_Return in Hrun as (cpcb0 & s0 & Hload & Hrun).
    apply load_PCB_spec in Hload as [-> Hload].
    rewrite Hcur in Hload. injection Hload as <-.
    apply bind_Return in Hrun as (entry & s0 & Hentry & Hrun).
    assert (s0 = s /\ array_get (PCB.FIDT cpcb) i = Some entry) as [-> Hi].
    { unfold deref in Hentry. destruct (array_get (PCB.FIDT cpcb) i);
        [|discriminate]. injection Hentry as <- <-. auto. }
    clear Hentry.
    apply bind_Return in Hrun as (npcb0 & s0 & Hload & Hrun).
    apply load_PCB_spec in Hload as [-> Hload].
    rewrite Hnew in Hload. injection Hload as <-.
    apply bind_Return in Hrun as (fidt1 & s0 & Hset & Hrun).
    assert (s0 = s /\ array_set (PCB.FIDT npcb) i entry = Some fidt1)
      as [-> Hfidt1].
    { unfold deref in Hset. destruct (array_set (PCB.FIDT npcb) i entry);
        [|discriminate]. injection Hset as <- <-. auto. }
    clear Hset.
    apply bind_Return in Hrun as ([] & s1 & Hstore & Hrun).
    unfold store_PCB in Hstore.
    destruct (array_set (PT s) new (PCB_set_FIDT fidt1 npcb)) as [pt|] eqn:Hpt;
      [|discriminate].
    injection Hstore as <-.
    destruct (array_set_get _ _ _ _ Hpt) as (Hgetn & Hothern & _).
    destruct (array_set_get _ _ _ _ Hfidt1) as (Hgeti & Hotheri & _).
    apply bind_Return in Hrun as ([] & s2 & Hincref & Hrun).
    assert (PT s2 = pt /\ CURPROC s2 = CURPROC s /\ ptcbs s2 = ptcbs s /\
            trace s2 = trace s /\
            forall f, FT s2 !! f =
              Nat.iter (if bool_decide (Some entry = Some (Some f)) then 1 else 0)
                held_once_more <$> FT s !! f)
      as (Hpt2 & Hcur2 & Hptcbs2 & Htrace2 & Hft2).
    { destruct entry as [e|].
      - unfold FCB_incref in Hincref. kred_in Hincref.
        destruct (FT s !! e) as [fcb|] eqn:He; kred_in Hincref; [|discriminate].
        injection Hincref as <-.
        do 4 (split; [reflexivity|]).
        intros f. case_bool_decide as Heq; simpl.
        + injection Heq as ->. rewrite lookup_insert_eq, He. reflexivity.
        + rewrite lookup_insert_ne by congruence.
          destruct (FT s !! f); reflexivity.
      - injection Hincref as <-.
        do 4 (split; [reflexivity|]).
        intros f. case_bool_decide as Heq; [discriminate|]. simpl.
        destruct (FT s !! f); reflexivity. }
    destruct (IH (i + 1) s2 s' cpcb (PCB_set_FIDT fidt1 npcb) Hrun Hne)
      as (fidt & Hnew' & Hcopied & Hbelow & Hothers & Hft & Hcur' & Hptcbs' & Htr').
    { rewrite Hpt2, Hothern by assumption. exact Hcur. }
    { rewrite Hpt2. exact Hgetn. }
    exists fidt. split; [exact Hnew'|]. split; [|split; [|split; [|split]]].
    + intros j Hj. destruct (decide (j = i)) as [->|Hji].
      * rewrite Hbelow by lia. simpl. congruence.
      * apply Hcopied. lia.
    + intros j Hj. rewrite Hbelow by lia. simpl. apply Hotheri. lia.
    + intros q Hq. rewrite Hothers, Hpt2 by assumption. now apply Hothern.
    + intros f. rewrite Hft, Hft2. simpl. rewrite Hi.
      destruct (FT s !! f) as [fcb|]; simpl; [|reflexivity].
      f_equal. rewrite Nat.add_comm. symmetry. apply Nat.iter_add.
    + repeat split; congruence.
Qed.

Lemma update_PCB_effect pid f s s' :
  update_PCB pid f s = Return tt s' ->
  exists pcb,
    array_get (PT s) pid = Some pcb /\
    array_get (PT s') pid = Some (f pcb) /\
    (forall q, q <> pid -> array_get (PT s') q = array_get (PT s) q) /\
    FT s' = FT s /\ ptcbs s' = ptcbs s /\ CURPROC s' = CURPROC s.
Proof.
  intros Hrun. pose proof (update_PCB_only_PT _ _ _ _ Hrun) as Hs.
  apply update_PCB_spec in Hrun as (pcb & Hget & Hnew & Hother & _ & Hp & Hc).
  exists pcb. repeat split; try assumption. rewrite Hs. reflexivity.
Qed.

Lemma acquire_PCB_spec g s o g' s' :
  acquire_PCB g s = Return (o, g') s' ->
  (pcb_freelist g = None /\ o = None /\ g' = g /\ s' = s) \/
  (exists pid old,
     pcb_freelist g = Some pid /\ o = Some pid /\
     array_get (PT s) pid = Some old /\
     array_get (PT s') pid = Some (PCB_set_pstate ALIVE old) /\
     (forall q, q <> pid -> array_get (PT s') q = array_get (PT s) q) /\
     g' = mk_globals (PCB.parent old) (uint (process_count g + 1)) /\
     FT s' = FT s /\ ptcbs s' = ptcbs s /\ CURPROC s' = CURPROC s).
Proof.
  unfold acquire_PCB. destruct (pcb_freelist g) as [pid|].
  - intros Hrun. right.
    apply bind_Return in Hrun as ([] & s1 & Hup & Hrun).
    apply update_PCB_effect in Hup
      as (old & Hget & Hnew & Hother & Hft & Hptcbs & Hcur).
    apply bind_Return in Hrun as (p & s0 & Hload & Hrun).
    apply load_PCB_spec in Hload as [-> Hload].
    rewrite Hnew in Hload. injection Hload as <-.
    injection Hrun as <- <- <-. exists pid, old. auto 10.
  - intros [= <- <- <-]. auto.
Qed.

(** The slot and the handle [sys_Exec] sets up for the main thread of a
    new process, when it was given a task. *)
Definition main_thread_made (call : option ptr) (argl : Z) (old new : PCB.t)
    (s s' : kernel) : Prop :=
  match call with
  | Some _ =>
      exists tcb T,
        PCB.main_thread new = Some tcb /\
        PCB.ptcb_list new = PCB.ptcb_list old ++ [T] /\
        ptcbs s !! T = None /\
        ptcbs s' = <[T := PTCB.mk (Some tcb) argl 0 0 0 0]> (ptcbs s) /\
        PCB.thread_count new = PCB.thread_count old + 1
  | None =>
      PCB.main_thread new = PCB.main_thread old /\
      PCB.ptcb_list new = PCB.ptcb_list old /\
      ptcbs s' = ptcbs s /\
      PCB.thread_count new = PCB.thread_count old
  end.

(** The links and the descriptors of a new process: pids 0 and 1 are
    parentless and inherit nothing; any other process is a child of the
    current one, at the front of its children list, with a copy of its
    descriptor table, every FCB being held once more for each entry that
    names it. *)
Definition inherited (pid : Z) (old new : PCB.t) (s s' : kernel) : Prop :=
  if pid <=? 1 then
    PCB.parent new = None /\ PCB.FIDT new = PCB.FIDT old /\
    FT s' = FT s /\
    (forall q, q <> pid -> array_get (PT s') q = array_get (PT s) q)
  else
    exists cur,
      array_get (PT s) (CURPROC s) = Some cur /\
      PCB.parent new = Some (CURPROC s) /\
      array_get (PT s') (CURPROC s) =
        Some (PCB_set_children_list (pid :: PCB.children_list cur) cur) /\
      (forall i, 0 <= i < MAX_FILEID ->
         array_get (PCB.FIDT new) i = array_get (PCB.FIDT cur) i) /\
      (forall f, FT s' !! f =
         Nat.iter (fid_refs (PCB.FIDT cur) (Z.to_nat MAX_FILEID) 0 f)
           held_once_more <$> FT s !! f) /\
      (forall q, q <> pid -> q <> CURPROC s ->
         array_get (PT s') q = array_get (PT s) q).

Lemma sys_Exec_spec g call argl args s pid g' s' :
  pcb_freelist g <> Some (CURPROC s) ->
  sys_Exec spawn_thread g call argl args s = Return (pid, g') s' ->
  (pcb_freelist g = None /\ pid = NOPROC /\ g' = g /\ s' = s) \/
  (exists old new,
     pcb_freelist g = Some pid /\ array_get (PT s) pid = Some old /\
     g' = mk_globals (PCB.parent old) (uint (process_count g + 1)) /\
     array_get (PT s') pid = Some new /\
     PCB.pstate new = ALIVE /\ PCB.exitval new = PCB.exitval old /\
     PCB.argl new = argl /\
     PCB.args new = (take (Z.to_nat argl) <$> args) /\
     inherited pid old new s s' /\
     main_thread_made call argl old new s s').
Proof.
  intros Hfree Hrun. unfold sys_Exec in Hrun.
  apply bind_Return in Hrun as ([o g0] & s0 & Hacq & Hrun).
  apply acquire_PCB_spec in Hacq
    as [(Hnone & -> & -> & ->)
       |(new & old & Hhead & -> & Hold & Hp0 & Hother0 & -> & Hft0 & Hpt0 & Hcur0)].
  { injection Hrun as <- <-. auto. }
  right. rewrite Hhead in Hfree.
  assert (Hnc : new <> CURPROC s) by congruence.
  apply bind_Return in Hrun as ([] & s1 & Hlink & Hrun).
  apply bind_Return in Hrun as ([] & s2 & Hargl & Hrun).
  apply bind_Return in Hrun as ([] & s3 & Hargs & Hrun).
  apply bind_Return in Hrun as ([] & s4 & Hthread & Hrun).
  injection Hrun as <- <- <-. unfold get_pid in *.
  (* the links and the descriptors *)
  assert (exists p1,
            array_get (PT s1) new = Some p1 /\
            PCB.pstate p1 = ALIVE /\ PCB.exitval p1 = PCB.exitval old /\
            PCB.main_thread p1 = PCB.main_thread old /\
            PCB.ptcb_list p1 = PCB.ptcb_list old /\
            PCB.thread_count p1 = PCB.thread_count old /\
            inherited new old p1 s s1 /\ ptcbs s1 = ptcbs s)
    as (p1 & Hp1 & Hstate1 & Hval1 & Hmain1 & Hlist1 & Hcount1 & Hinh1 & Hptcbs1).
  { unfold inherited. destruct (Z.leb_spec new 1) as [Hle|Hgt].
    - apply update_PCB_effect in Hlink
        as (p & Hget & Hnew & Hother & Hft & Hptcbs & Hcur).
      rewrite Hp0 in Hget. injection Hget as <-.
      eexists. split; [exact Hnew|]. simpl. repeat split; try congruence.
      intros q Hq. now rewrite Hother, Hother0.
    - apply bind_Return in Hlink as (curproc & sx & Hgets & Hlink).
      unfold gets in Hgets. injection Hgets as <- <-. rewrite Hcur0 in Hlink.
      apply bind_Return in Hlink as ([] & sa & Hparent & Hlink).
      apply update_PCB_effect in Hparent
        as (p & Hget & Hnewa & Hothera & Hfta & Hptcbsa & Hcura).
      rewrite Hp0 in Hget. injection Hget as <-.
      apply bind_Return in Hlink as ([] & sb & Hpush & Hlink).
      apply update_PCB_effect in Hpush
        as (cur & Hgetc & Hnewb & Hotherb & Hftb & Hptcbsb & Hcurb).
      rewrite Hothera, Hother0 in Hgetc by congruence.
      destruct (inherit_fids_spec _ _ _ _ _ _ _
                  (PCB_set_parent (Some (CURPROC s)) (PCB_set_pstate ALIVE old))
                  Hlink (not_eq_sym Hnc) Hnewb)
        as (fidt & Hnewc & Hcopied & _ & Hotherc & Hftc & Hcurc & Hptcbsc & _).
      { rewrite Hotherb by assumption. exact Hnewa. }
      eexists. split; [exact Hnewc|]. simpl.
      do 5 (split; [reflexivity|]). split; [|congruence].
      exists cur. split; [assumption|]. split; [reflexivity|].
      split; [rewrite Hotherc by congruence; exact Hnewb|].
      split; [intros i Hi; apply Hcopied; lia|]. split.
      + intros f. rewrite Hftc, Hftb, Hfta, Hft0. reflexivity.
      + intros q Hq Hqc.
        now rewrite Hotherc, Hotherb, Hothera, Hother0. }
  (* argl and args *)
  apply update_PCB_effect in Hargl
    as (p & Hget & Hp2 & Hother2 & Hft2 & Hptcbs2 & Hcur2).
  rewrite Hp1 in Hget. injection Hget as <-.
  assert (exists p3,
            array_get (PT s3) new = Some p3 /\
            p3 = PCB_set_args (take (Z.to_nat argl) <$> args)
                   (PCB_set_argl argl p1) /\
            (forall q, q <> new -> array_get (PT s3) q = array_get (PT s2) q) /\
            FT s3 = FT s2 /\ ptcbs s3 = ptcbs s2 /\ CURPROC s3 = CURPROC s2)
    as (p3 & Hp3 & -> & Hother3 & Hft3 & Hptcbs3 & Hcur3).
  { destruct args as [bytes|].
    - apply bind_Return in Hargs as (copy & sx & Hcopy & Hargs).
      assert (sx = s2 /\ copy = take (Z.to_nat argl) bytes) as [-> ->].
      { unfold deref, copy_args in Hcopy.
        destruct ((argl <? 0) || (Z.of_nat (length bytes) <? argl));
          [discriminate|]. injection Hcopy as <- <-. auto. }
      apply update_PCB_effect in Hargs
        as (p & Hget & Hnew & Hother & Hft & Hptcbs & Hcur).
      rewrite Hp2 in Hget. injection Hget as <-. eauto 10.
    - apply update_PCB_effect in Hargs
        as (p & Hget & Hnew & Hother & Hft & Hptcbs & Hcur).
      rewrite Hp2 in Hget. injection Hget as <-. eauto 10. }
  (* the main thread *)
  assert (exists p4,
            array_get (PT s4) new = Some p4 /\
            PCB.pstate p4 = ALIVE /\ PCB.exitval p4 = PCB.exitval old /\
            PCB.argl p4 = argl /\
            PCB.args p4 = (take (Z.to_nat argl) <$> args) /\
            PCB.parent p4 = PCB.parent p1 /\ PCB.FIDT p4 = PCB.FIDT p1 /\
            main_thread_made call argl old p4 s s4 /\
            (forall q, q <> new -> array_get (PT s4) q = array_get (PT s3) q) /\
            FT s4 = FT s3 /\ CURPROC s4 = CURPROC s3)
    as (p4 & Hp4 & Hstate4 & Hval4 & Hargl4 & Hargs4 & Hpar4 & Hfidt4 & Hmade
        & Hother4 & Hft4 & Hcur4).
  { unfold main_thread_made. destruct call as [task|].
    - apply bind_Return in Hthread as (sx & sy & Hgets & Hthread).
      unfold gets in Hgets. injection Hgets as <- <-.
      apply bind_Return in Hthread as ([] & sa & Hmain & Hthread).
      apply update_PCB_effect in Hmain
        as (p & Hget & Hnewa & Hothera & Hfta & Hptcbsa & Hcura).
      rewrite Hp3 in Hget. injection Hget as <-.
      apply bind_Return in Hthread as (T & sb & Hacquire & Hthread).
      unfold aquire_PTCB in Hacquire.
      apply bind_Return in Hacquire as (ts & sx & Hgets & Hacquire).
      unfold gets in Hgets. injection Hgets as <- <-.
      apply bind_Return in Hacquire as ([] & sc & Hstore & Hacquire).
      unfold store_ptcb in Hstore. kred_in Hstore. injection Hstore as <-.
      apply bind_Return in Hacquire as ([] & sd & Hlist & Hret).
      injection Hret as <- <-.
      apply update_PCB_effect in Hlist
        as (p & Hget & Hnewd & Hotherd & Hftd & Hptcbsd & Hcurd).
      simpl in Hget, Hotherd, Hftd, Hptcbsd, Hcurd.
      rewrite Hnewa in Hget. injection Hget as <-.
      apply update_PCB_effect in Hthread
        as (p & Hget & Hnewe & Hothere & Hfte & Hptcbse & Hcure).
      rewrite Hnewd in Hget. injection Hget as <-.
      eexists. split; [exact Hnewe|]. simpl.
      do 6 (split; [auto|]). split.
      { eexists _, _. split; [reflexivity|]. rewrite Hlist1.
        split; [reflexivity|]. split.
        { rewrite Hptcbsa, Hptcbs3, Hptcbs2, Hptcbs1.
          apply not_elem_of_dom. apply is_fresh. }
        split; [|lia].
        rewrite Hptcbse, Hptcbsd, Hptcbsa, Hptcbs3, Hptcbs2, Hptcbs1.
        reflexivity. }
      split; [|split; congruence].
      intros q Hq. now rewrite Hothere, Hotherd, Hothera.
    - injection Hthread as <-. exists (PCB_set_args (take (Z.to_nat argl) <$> args)
                                        (PCB_set_argl argl p1)).
      simpl. repeat split; auto; congruence. }
  exists old, p4. do 8 (split; [first [assumption|reflexivity]|]).
  split; [|exact Hmade].
  revert Hinh1. unfold inherited. destruct (new <=? 1).
  - intros (Hpar & Hfidt & Hft & Hothers). repeat split; try congruence.
    intros q Hq. now rewrite Hother4, Hother3, Hother2, Hothers.
  - intros (cur & Hcur & Hpar & Hkids & Hcopied & Hrefs & Hothers).
    exists cur. split; [assumption|]. split; [congruence|]. split.
    { rewrite Hother4, Hother3, Hother2 by congruence. exact Hkids. }
    split; [intros i Hi; rewrite Hfidt4; now apply Hcopied|]. split.
    + intros f. rewrite Hft4, Hft3, Hft2. apply Hrefs.
    + intros q Hq Hqc. now rewrite Hother4, Hother3, Hother2, Hothers.
Qed.

(** [sys_Exec] either finds the free list empty and returns [NOPROC]
    with nothing changed, or returns the pid at the head of the free
    list: the slot is then alive, the free list advanced and
    [process_count] incremented; the slot holds [argl] and an own copy of
    the first [argl] bytes of the arguments; it has the links and the
    descriptors of [inherited], and a main thread with its handle when a
    task was given. *)
Theorem sys_Exec_creates g call argl args s pid g' s' :
  pcb_freelist g <> Some (CURPROC s) ->
  sys_Exec spawn_thread g call argl args s = Return (pid, g') s' ->
  (pcb_freelist g = None /\ pid = NOPROC /\ g' = g /\ s' = s) \/
  (exists old new,
     pcb_freelist g = Some pid /\ array_get (PT s) pid = Some old /\
     g' = mk_globals (PCB.parent old) (uint (process_count g + 1)) /\
     array_get (PT s') pid = Some new /\
     PCB.pstate new = ALIVE /\ PCB.exitval new = PCB.exitval old /\
     PCB.argl new = argl /\
     PCB.args new = (take (Z.to_nat argl) <$> args) /\
     inherited pid old new s s' /\
     main_thread_made call argl old new s s').
Proof. apply sys_Exec_spec. Qed.

(** A process created by [sys_Exec] with a pid above 1 knows who it is
    and who made it: when it runs, [sys_GetPid] returns the pid that
    [sys_Exec] returned to its creator and [sys_GetPPid] returns the pid
    of the creator; neither changes the state. *)
Theorem exec_child_identity g call argl args s pid g' s' s2 :
  pcb_freelist g <> Some (CURPROC s) ->
  sys_Exec spawn_thread g call argl args s = Return (pid, g') s' ->
  1 < pid ->
  PT s2 = PT s' -> CURPROC s2 = pid ->
  sys_GetPid s2 = Return pid s2 /\
  sys_GetPPid s2 = Return (CURPROC s) s2.
Proof.
  intros Hfree Hrun Hpid HPT Hcur.
  destruct (sys_Exec_spec _ _ _ _ _ _ _ _ Hfree Hrun)
    as [(_ & -> & _)|(old & new & _ & _ & _ & Hnew & _ & _ & _ & _ & Hinh & _)];
    [unfold NOPROC in Hpid; lia|].
  unfold inherited in Hinh.
  destruct (Z.leb_spec pid 1) as [|_]; [lia|].
  destruct Hinh as (cur & _ & Hparent & _).
  unfold sys_GetPid, sys_GetPPid. kred. rewrite Hcur. split; [reflexivity|].
  rewrite HPT, Hnew. kred. rewrite Hparent. reflexivity.
Qed.

End ProcessCreation.

(** Process 1, with the connection of [connected] open on its
    descriptors 0 to 2, creates a process with task 1 and three bytes of
    arguments; the free list holds the slot 2 only. *)
Definition connected_globals : proc_globals := mk_globals (Some 2) 2.
Definition child_made : kernel :=
  after (sys_Exec (H := small_config) (fun _ _ => 9%positive)
           connected_globals (Some 1%positive) 3 (Some [x61; x62; x63; x64])
           connected) connected.

Lemma sys_Exec_creates_witness :
  (pcb_freelist connected_globals = None /\ 2 = NOPROC /\
   mk_globals None 3 = connected_globals /\ child_made = connected) \/
  (exists old new,
     pcb_freelist connected_globals = Some 2 /\
     array_get (PT connected) 2 = Some old /\
     mk_globals None 3 =
       mk_globals (PCB.parent old)
         (uint (process_count connected_globals + 1)) /\
     array_get (PT child_made) 2 = Some new /\
     PCB.pstate new = ALIVE /\ PCB.exitval new = PCB.exitval old /\
     PCB.argl new = 3 /\
     PCB.args new = (take (Z.to_nat 3) <$> Some [x61; x62; x63; x64]) /\
     inherited (H := small_config) 2 old new connected child_made /\
     main_thread_made (Some 1%positive) 3 old new connected child_made).
Proof.
  apply (sys_Exec_creates (H := small_config) (fun _ _ => 9%positive)
           connected_globals (Some 1%positive) 3 (Some [x61; x62; x63; x64])
           connected 2 (mk_globals None 3) child_made).
  - vm_compute. discriminate.
  - vm_compute. reflexivity.
Defined.

(** The new process of [child_made] is running. *)
Definition child_running : kernel :=
  mkKernel (PT child_made) 2 None (ptcbs child_made) (FT child_made)
    (sockets child_made) (pipes child_made) (requests child_made)
    (infos child_made) (PORT_MAP child_made) (trace child_made).

Lemma exec_child_identity_witness :
  sys_GetPid child_running = Return 2 child_running /\
  sys_GetPPid child_running = Return (CURPROC connected) child_running.
Proof.
  apply (exec_child_identity (H := small_config) (fun _ _ => 9%positive)
           connected_globals (Some 1%positive) 3 (Some [x61; x62; x63; x64])
           connected 2 (mk_globals None 3) child_made child_running).
  - vm_compute. discriminate.
  - vm_compute. reflexivity.
  - lia.
  - vm_compute. reflexivity.
  - vm_compute. reflexivity.
Defined.

(** ** Reserved descriptors *)

Lemma free_fids_lookup fidt : forall i fid,
  fid ∈ free_fids fidt i -> fidt !! Z.to_nat (fid - i) = Some None.
Proof.
  induction fidt as [|[f|] rest IH]; intros i fid; simpl.
  - intros Hin. inversion Hin.
  - intros Hin. pose proof (free_fids_lower _ _ _ Hin) as Hlow.
    apply IH in Hin.
    replace (Z.to_nat (fid - i)) with (S (Z.to_nat (fid - (i + 1)))) by lia.
    exact Hin.
  - intros Hin. apply elem_of_cons in Hin as [->|Hin].
    + now rewrite Z.sub_diag.
    + pose proof (free_fids_lower _ _ _ Hin) as Hlow. apply IH in Hin.
      replace (Z.to_nat (fid - i)) with (S (Z.to_nat (fid - (i + 1)))) by lia.
      exact Hin.
Qed.

Lemma free_fids_free fidt fid :
  fid ∈ free_fids fidt 0 -> array_get fidt fid = Some None.
Proof.
  intros Hin. pose proof (free_fids_lower _ _ _ Hin) as Hlow.
  apply free_fids_lookup in Hin. unfold array_get.
  destruct (Z.ltb_spec fid 0); [lia|]. now rewrite Z.sub_0_r in Hin.
Qed.

Lemma free_fids_increasing fidt : forall i fid rest,
  free_fids fidt i = fid :: rest -> forall x, x ∈ rest -> fid < x.
Proof.
  induction fidt as [|[f|] more IH]; intros i fid rest; simpl.
  - discriminate.
  - apply IH.
  - intros [= <- <-] x Hx. apply free_fids_lower in Hx. lia.
Qed.

(** ** Pipes: creation *)

Section PipeCreation.
Context `{KernelConfig}.

(** The state [s'] holds a new pipe on the descriptors [r] and [w] of the
    current process of [s]: both were free and now name two new FCBs,
    each held once, the first with the reader's operations and the
    second with the writer's, on the same new control block, which is
    empty and has the two FCBs as its reader and writer.  No other
    descriptor, FCB or process differs. *)
Definition pipe_created (s : kernel) (r w : Z) (s' : kernel) : Prop :=
  exists fr fw P pcb pcb',
    r < w /\
    array_get (PT s) (CURPROC s) = Some pcb /\
    array_get (PCB.FIDT pcb) r = Some None /\
    array_get (PCB.FIDT pcb) w = Some None /\
    fr <> fw /\ FT s !! fr = None /\ FT s !! fw = None /\
    pipes s !! P = None /\
    array_get (PT s') (CURPROC s) = Some pcb' /\
    array_get (PCB.FIDT pcb') r = Some (Some fr) /\
    array_get (PCB.FIDT pcb') w = Some (Some fw) /\
    (forall i, i <> r -> i <> w ->
       array_get (PCB.FIDT pcb') i = array_get (PCB.FIDT pcb) i) /\
    (forall q, q <> CURPROC s -> array_get (PT s') q = array_get (PT s) q) /\
    FT s' !! fr = Some (FCB.mk 1 (Some (PipeObj P)) (Some reader_file_ops)) /\
    FT s' !! fw = Some (FCB.mk 1 (Some (PipeObj P)) (Some writer_file_ops)) /\
    (forall f, f <> fr -> f <> fw -> FT s' !! f = FT s !! f) /\
    pipes s' = <[P := new_pipe (Some fr) (Some fw)]> (pipes s).

(** [sys_Pipe] either finds fewer than two free descriptors, returns -1
    and changes nothing, or returns 0 and two descriptors [r < w] that
    hold a new, empty pipe: [r] its read end and [w] its write end. *)
Theorem sys_Pipe_creates s v fids s' :
  sys_Pipe s = Return (v, fids) s' ->
  (v = -1 /\ fids = None /\ s' = s) \/
  exists r w, v = 0 /\ fids = Some (r, w) /\ pipe_created s r w s'.
Proof.
  unfold sys_Pipe. intros Hrun.
  apply bind_Return in Hrun as (res & s1 & Hres & Hrun).
  unfold FCB_reserve in Hres. kred_in Hres.
  destruct (array_get (PT s) (CURPROC s)) as [pcb|] eqn:Hpcb; kred_in Hres;
    [|discriminate].
  destruct (take 2 (free_fids (PCB.FIDT pcb) 0)) as [|r [|w [|? ?]]] eqn:Hfree;
    simpl in Hres.
  - injection Hres as <- <-. kred_in Hrun. injection Hrun as <- <- <-. auto.
  - injection Hres as <- <-. kred_in Hrun. injection Hrun as <- <- <-. auto.
  - kred_in Hres. rewrite Hpcb in Hres. kred_in Hres.
    set (fr := xmalloc (FT s)) in *.
    destruct (array_set (PCB.FIDT pcb) r (Some fr)) as [fidt1|] eqn:Hfidt1;
      kred_in Hres; [|discriminate].
    destruct (array_set (PT s) (CURPROC s) (PCB_set_FIDT fidt1 pcb))
      as [pt1|] eqn:Hpt1; kred_in Hres; [|discriminate].
    destruct (array_set_get _ _ _ _ Hpt1) as (Hget1 & Hother1 & _).
    rewrite Hget1 in Hres. kred_in Hres.
    set (fw := xmalloc (<[fr := FCB.mk 1 None None]> (FT s))) in *.
    destruct (array_set fidt1 w (Some fw)) as [fidt2|] eqn:Hfidt2;
      kred_in Hres; [|discriminate].
    destruct (array_set pt1 (CURPROC s)
                (PCB_set_FIDT fidt2 (PCB_set_FIDT fidt1 pcb)))
      as [pt2|] eqn:Hpt2; kred_in Hres; [|discriminate].
    destruct (array_set_get _ _ _ _ Hpt2) as (Hget2 & Hother2 & _).
    injection Hres as <- <-.
    assert (Hfr : FT s !! fr = None) by apply not_elem_of_dom, is_fresh.
    assert (Hfw' : <[fr := FCB.mk 1 None None]> (FT s) !! fw = None)
      by apply not_elem_of_dom, is_fresh.
    assert (Hne : fr <> fw).
    { intros Heq. rewrite <- Heq, lookup_insert_eq in Hfw'. discriminate. }
    assert (Hfw : FT s !! fw = None)
      by now rewrite lookup_insert_ne in Hfw' by assumption.
    kred_in Hrun. rewrite lookup_insert_ne, lookup_insert_eq in Hrun
      by congruence.
    kred_in Hrun. rewrite lookup_insert_ne, lookup_insert_eq in Hrun
      by congruence.
    kred_in Hrun. injection Hrun as <- <- <-. right.
    assert (Hlist : free_fids (PCB.FIDT pcb) 0 =
                    r :: w :: drop 2 (free_fids (PCB.FIDT pcb) 0)).
    { rewrite <- (take_drop 2 (free_fids (PCB.FIDT pcb) 0)) at 1.
      now rewrite Hfree. }
    assert (Hrw : r < w).
    { apply (free_fids_increasing _ _ _ _ Hlist). apply list_elem_of_here. }
    assert (Hrfree : array_get (PCB.FIDT pcb) r = Some None).
    { apply free_fids_free. rewrite Hlist. apply list_elem_of_here. }
    assert (Hwfree : array_get (PCB.FIDT pcb) w = Some None).
    { apply free_fids_free. rewrite Hlist.
      apply list_elem_of_further, list_elem_of_here. }
    destruct (array_set_get _ _ _ _ Hfidt1) as (Hr1 & Hfo1 & _).
    destruct (array_set_get _ _ _ _ Hfidt2) as (Hw2 & Hfo2 & _).
    exists r, w. split; [reflexivity|]. split; [reflexivity|].
    exists fr, fw, (xmalloc (pipes s)), pcb,
      (PCB_set_FIDT fidt2 (PCB_set_FIDT fidt1 pcb)).
    simpl.
    split; [assumption|]. split; [assumption|]. split; [assumption|].
    split; [assumption|]. split; [assumption|]. split; [assumption|].
    split; [assumption|]. split; [apply not_elem_of_dom, is_fresh|].
    split; [assumption|].
    split; [rewrite Hfo2 by lia; assumption|]. split; [assumption|].
    split; [intros i Hir Hiw; now rewrite Hfo2, Hfo1|].
    split; [intros q Hq; now rewrite Hother2, Hother1|].
    split; [now rewrite lookup_insert_ne, lookup_insert_eq by congruence|].
    split; [now rewrite lookup_insert_eq|].
    split; [|reflexivity].
    intros f Hf1 Hf2. now rewrite !lookup_insert_ne by congruence.
  - assert (Hlen : (length (take 2 (free_fids (PCB.FIDT pcb) 0)) <= 2)%nat)
      by (rewrite length_take; lia).
    rewrite Hfree in Hlen. simpl in Hlen. lia.
Qed.

End PipeCreation.

(** ** Process information streams *)

Section ProcessInfo.
Context `{KernelConfig}.
Variable PROCINFO_MAX_ARGS_SIZE : Z.








(** The state [s'] holds a new information stream on the descriptor
    [fid] of the current process of [s]: the descriptor was free and now
    names a new FCB, held once, whose operations are those of the
    information streams and whose stream object is a new cursor at slot
    0; [procinfo_close] on that cursor returns 0 and frees it again. *)
Definition info_opened (s : kernel) (fid : Z) (s' : kernel) : Prop :=
  exists pcb fidt f info,
    array_get (PT s) (CURPROC s) = Some pcb /\
    array_get (PCB.FIDT pcb) fid = Some None /\
    FT s !! f = None /\ infos s !! info = None /\
    array_set (PCB.FIDT pcb) fid (Some f) = Some fidt /\
    array_get (PT s') (CURPROC s) = Some (PCB_set_FIDT fidt pcb) /\
    (forall q, q <> CURPROC s -> array_get (PT s') q = array_get (PT s) q) /\
    FT s' = <[f := FCB.mk 1 (Some (InfoObj info)) (Some procinfo_file_ops)]>
              (FT s) /\
    infos s' = <[info := 0]> (infos s) /\
    procinfo_close (Some info) s' =
      Return 0 (with_infos (fun _ => infos s) s').

(** [sys_OpenInfo] either finds no free descriptor, returns -1 and
    changes nothing, or returns a descriptor that holds a new
    information stream, which starts at slot 0 of the process table. *)
Theorem sys_OpenInfo_opens s fid s' :
  sys_OpenInfo s = Return fid s' ->
  (fid = -1 /\ s' = s) \/ info_opened s fid s'.
Proof.
  unfold sys_OpenInfo. intros Hrun.
  apply bind_Return in Hrun as (r & s1 & Hres & Hrun).
  unfold FCB_reserve in Hres. kred_in Hres.
  destruct (array_get (PT s) (CURPROC s)) as [pcb|] eqn:Hpcb; kred_in Hres;
    [|discriminate].
  destruct (take 1 (free_fids (PCB.FIDT pcb) 0)) as [|fid0 [|? ?]] eqn:Hfree;
    simpl in Hres.
  - injection Hres as <- <-. injection Hrun as <- <-. auto.
  - kred_in Hres. rewrite Hpcb in Hres. kred_in Hres.
    destruct (array_set (PCB.FIDT pcb) fid0 (Some (xmalloc (FT s))))
      as [fidt|] eqn:Hfidt; kred_in Hres; [|discriminate].
    destruct (array_set (PT s) (CURPROC s) (PCB_set_FIDT fidt pcb))
      as [pt|] eqn:Hpt; kred_in Hres; [|discriminate].
    injection Hres as <- <-.
    kred_in Hrun. rewrite lookup_insert_eq in Hrun. kred_in Hrun.
    injection Hrun as <- <-. right.
    exists pcb, fidt, (xmalloc (FT s)), (xmalloc (infos s)).
    assert (Hin : fid0 ∈ [fid0]) by (apply list_elem_of_singleton; reflexivity).
    rewrite <- Hfree in Hin. apply elem_of_take in Hin as (i & Hin & _).
    apply list_elem_of_lookup_2 in Hin.
    destruct (array_set_get _ _ _ _ Hpt) as (Hgetpt & Hotherpt & _).
    simpl. split; [assumption|]. split; [now apply free_fids_free|].
    split; [apply not_elem_of_dom, is_fresh|].
    assert (Hfresh : infos s !! xmalloc (infos s) = None)
      by apply not_elem_of_dom, is_fresh.
    split; [assumption|]. split; [assumption|]. split; [assumption|].
    split; [assumption|]. split; [now rewrite insert_insert_eq|].
    split; [reflexivity|].
    unfold procinfo_close. kred. rewrite delete_insert_eq.
    now rewrite delete_id.
  - assert (Hlen : (length (take 1 (free_fids (PCB.FIDT pcb) 0)) <= 1)%nat)
      by (rewrite length_take; lia).
    rewrite Hfree in Hlen. simpl in Hlen. lia.
Qed.

End ProcessInfo.

(** ** Threads: creation *)

Section ThreadCreation.
Context `{KernelConfig}.
Variable spawn_thread : kernel -> Z -> ptr.

(** The state [s'] holds the new thread handle [T] of the current
    process of [s]: [T] was not allocated and is now the PTCB of the
    spawned thread with [argl], not exited, not detached and held by
    nobody, linked last in the list of the process, whose thread count
    is one more.  The handle can be used at once: any other thread of
    the process that joins it suspends on its [exit_cv] holding the
    first reference, and [sys_ThreadDetach] on it returns 0. *)
Definition thread_created (argl : Z) (s : kernel) (T : ptr) (s' : kernel)
    : Prop :=
  exists pcb,
    array_get (PT s) (CURPROC s) = Some pcb /\
    ptcbs s !! T = None /\
    ptcbs s' =
      <[T := PTCB.mk (Some (spawn_thread s (CURPROC s))) argl 0 0 0 0]>
        (ptcbs s) /\
    array_get (PT s') (CURPROC s) =
      Some (PCB_set_thread_count (PCB.thread_count pcb + 1)
              (PCB_set_ptcb_list (PCB.ptcb_list pcb ++ [T]) pcb)) /\
    (forall q, q <> CURPROC s -> array_get (PT s') q = array_get (PT s) q) /\
    (forall out, cur_thread_ptcb s <> Some T ->
       sys_ThreadJoin (Some T) out s' =
         Suspended (KWait (exit_cv T))
           (with_ptcbs
              (insert T
                 (PTCB.mk (Some (spawn_thread s (CURPROC s))) argl 0 0 0 1))
              s')) /\
    sys_ThreadDetach (Some T) s' =
      Return 0
        (with_trace (fun tr => tr ++ [Broadcast (exit_cv T)])
           (with_ptcbs
              (insert T
                 (PTCB.mk (Some (spawn_thread s (CURPROC s))) argl 0 0 1 0))
              s')).

(** [sys_CreateThread] returns a new handle of the current process, for
    the thread it spawned; the handle is ready to be joined or detached
    by the other threads of the process. *)
Theorem sys_CreateThread_joinable argl s T s' :
  sys_CreateThread spawn_thread argl s = Return T s' ->
  thread_created argl s T s'.
Proof.
  unfold sys_CreateThread, aquire_PTCB, update_PCB. intros Hrun.
  kred_in Hrun.
  destruct (array_get (PT s) (CURPROC s)) as [pcb|] eqn:Hpcb; kred_in Hrun;
    [|discriminate].
  destruct (array_set (PT s) (CURPROC s)
              (PCB_set_ptcb_list (PCB.ptcb_list pcb ++ [xmalloc (ptcbs s)])
                 pcb)) as [pt1|] eqn:Hpt1; kred_in Hrun; [|discriminate].
  destruct (array_set_get _ _ _ _ Hpt1) as (Hget1 & Hother1 & _).
  rewrite Hget1 in Hrun. kred_in Hrun.
  destruct (array_set pt1 (CURPROC s) _) as [pt2|] eqn:Hpt2; kred_in Hrun;
    [|discriminate].
  destruct (array_set_get _ _ _ _ Hpt2) as (Hget2 & Hother2 & _).
  injection Hrun as <- <-. exists pcb. simpl.
  split; [assumption|]. split; [apply not_elem_of_dom, is_fresh|].
  split; [reflexivity|]. split; [assumption|].
  split; [intros q Hq; now rewrite Hother2, Hother1|].
  assert (Hlinked : xmalloc (ptcbs s) ∈
                    PCB.ptcb_list pcb ++ [xmalloc (ptcbs s)]).
  { apply elem_of_app. right. apply list_elem_of_here. }
  split.
  - intros out Hme. unfold sys_ThreadJoin, sys_ThreadJoin_wait. kred.
    rewrite Hget2. kred.
    rewrite bool_decide_eq_false_2 by (intros Hne; now apply Hne).
    kred. rewrite bool_decide_eq_false_2 by congruence.
    kred. rewrite lookup_insert_eq. kred. rewrite lookup_insert_eq. kred.
    reflexivity.
  - unfold sys_ThreadDetach. kred. rewrite Hget2. kred.
    rewrite bool_decide_eq_false_2 by (intros Hne; now apply Hne).
    kred. rewrite lookup_insert_eq. kred. reflexivity.
Qed.

End ThreadCreation.

(** ** Exit of the initial process *)

Section InitExit.
Context `{KernelConfig}.

(** Where the loop of [sys_Exit] leaves the initial process: suspended
    on its [child_exit] with children but no zombie left, or out of the
    loop at a state [s1] without children. *)
Definition init_waits (exitval : Z) (o : outcome unit) : Prop :=
  exists s' pcb',
    o = Suspended (KWait (child_exit 1)) s' /\
    array_get (PT s') 1 = Some pcb' /\ PCB.exitval pcb' = exitval /\
    PCB.children_list pcb' <> [] /\ PCB.exited_list pcb' = [].
Definition init_childless (exitval : Z) (s1 : kernel) : Prop :=
  exists pcb1,
    CURPROC s1 = 1 /\ array_get (PT s1) 1 = Some pcb1 /\
    PCB.exitval pcb1 = exitval /\ PCB.children_list pcb1 = [].

Lemma sys_ThreadExit_no_return v s x s' : sys_ThreadExit v s <> Return x s'.
Proof.
  unfold sys_ThreadExit. intros Hrun.
  repeat (apply bind_Return in Hrun as (? & ? & _ & Hrun)).
  discriminate.
Qed.

Lemma sys_Exit_reap_spec exitval : forall fuel g s pcb,
  CURPROC s = 1 -> array_get (PT s) 1 = Some pcb ->
  PCB.exitval pcb = exitval ->
  (length (PCB.exited_list pcb) <= fuel)%nat ->
  exists g' o,
    sys_Exit_reap fuel g s = Some (g', o) /\
    (init_waits exitval o \/
     (exists s1, o = Return tt s1 /\ init_childless exitval s1) \/
     exists f, o = Fault f).
Proof.
  induction fuel as [|fuel IH]; intros g s pcb Hcur Hpcb Hval Hfuel.
  all: simpl sys_Exit_reap; unfold sys_WaitChild, wait_for_any_child;
    simpl negb; cbv iota; kred; rewrite Hcur, Hpcb; kred.
  all: case_bool_decide as Hkids;
    [kred; eexists _, _; split; [reflexivity|]; right; left;
     eexists; split; [reflexivity|]; exists pcb; auto|].
  all: destruct (PCB.exited_list pcb) as [|child rest] eqn:Hexited;
    [kred; eexists _, _; split; [reflexivity|]; left;
     exists s, pcb; auto|].
  - simpl in Hfuel. lia.
  - destruct (array_get (PT s) child) as [cp|] eqn:Hcp; kred;
      [|eexists _, _; split; [reflexivity|]; right; right; eauto].
    case_bool_decide as Hzombie; kred;
      [|eexists _, _; split; [reflexivity|]; right; right; eauto].
    destruct (cleanup_zombie_spec g child false s cp Hcp)
      as (s' & Hrun & Hreaped).
    rewrite Hrun. kred.
    destruct (Z.eqb_spec child NOPROC) as [->|_];
      [unfold array_get, NOPROC in Hcp; simpl in Hcp; discriminate|].
    destruct Hreaped as (_ & Hslot & Hothers & Hcur' & _).
    assert (exists pcb', array_get (PT s') 1 = Some pcb' /\
              PCB.exitval pcb' = exitval /\
              PCB.exited_list pcb' =
                filter (fun x => x <> child) (PCB.exited_list pcb))
      as (pcb' & Hpcb' & Hval' & Hexited').
    { destruct (decide (child = 1)) as [->|Hne].
      - eexists. split; [exact Hslot|].
        assert (cp = pcb) as -> by congruence. auto.
      - eexists. rewrite Hothers, Hpcb by congruence.
        split; [reflexivity|]. auto. }
    apply (IH _ s' pcb'); [congruence|assumption|assumption|].
    rewrite Hexited', Hexited.
    rewrite filter_cons_False by (intros Hne; now apply Hne).
    pose proof (length_filter (fun x => x <> child) rest) as Hle.
    simpl in Hfuel. lia.
Qed.

(** [sys_Exit] of the initial process with enough rounds for the zombies
    of its exited list runs its loop to an end: it stores the exit value
    and reaps zombies until it either suspends on its [child_exit], with
    children left but no zombie, or has no child left; only then does it
    proceed to [sys_ThreadExit].  It never returns to its caller. *)
Theorem init_exit_waits_for_children fuel g exitval s pcb :
  CURPROC s = 1 -> array_get (PT s) 1 = Some pcb ->
  (length (PCB.exited_list pcb) <= fuel)%nat ->
  exists g' o,
    sys_Exit fuel g exitval s = Some (g', o) /\
    (forall x s', o <> Return x s') /\
    (init_waits exitval o \/
     (exists s1, init_childless exitval s1 /\ o = sys_ThreadExit exitval s1) \/
     exists f, o = Fault f).
Proof.
  intros Hcur Hpcb Hfuel.
  destruct (update_PCB_run 1 (PCB_set_exitval exitval) s pcb Hpcb)
    as (s1 & Hrun & Hget1 & _ & _ & Hs1).
  unfold sys_Exit. kred. rewrite Hcur.
  unfold bind in Hrun |- *. rewrite Hrun. kred.
  destruct (sys_Exit_reap_spec exitval fuel g s1 (PCB_set_exitval exitval pcb))
    as (g' & o & Hloop & Hcases);
    [rewrite Hs1; exact Hcur|assumption|reflexivity|exact Hfuel|].
  unfold sys_Exit_loop. rewrite Hloop.
  destruct Hcases as [Hwait|[(s2 & -> & Hnone)|(f & ->)]].
  - pose proof Hwait as (s' & pcb' & -> & _).
    eexists _, _. split; [reflexivity|]. split; [discriminate|]. auto.
  - eexists _, _. split; [reflexivity|]. split.
    + intros x s' Hret. now apply sys_ThreadExit_no_return in Hret.
    + right. left. eauto.
  - eexists _, _. split; [reflexivity|]. split; [discriminate|]. eauto.
Qed.

End InitExit.

(** ** Concrete runs *)

Lemma sys_Pipe_creates_witness :
  (0 = -1 /\ Some (0, 1) = None /\ pipe_fresh = boot 1 None) \/
  exists r w,
    0 = 0 /\ Some (0, 1) = Some (r, w) /\
    pipe_created (H := small_config) (boot 1 None) r w pipe_fresh.
Proof.
  apply (sys_Pipe_creates (H := small_config) (boot 1 None) 0 (Some (0, 1))
           pipe_fresh).
  vm_compute. reflexivity.
Defined.

(** Process 1 opens an information stream in the boot state. *)
Definition info_fresh : kernel :=
  after (sys_OpenInfo (boot 1 None)) (boot 1 None).

Lemma sys_OpenInfo_opens_witness :
  (0 = -1 /\ info_fresh = boot 1 None) \/
  info_opened (boot 1 None) 0 info_fresh.
Proof.
  apply (sys_OpenInfo_opens (boot 1 None) 0 info_fresh).
  vm_compute. reflexivity.
Defined.



(** The running thread of process 3 in [orphaning] creates a thread. *)
Definition thread_made : kernel :=
  after (sys_CreateThread (fun _ _ => 9%positive) 0 orphaning) orphaning.

Lemma sys_CreateThread_joinable_witness :
  thread_created (fun _ _ => 9%positive) 0 orphaning 2%positive thread_made.
Proof.
  apply (sys_CreateThread_joinable (fun _ _ => 9%positive) 0 orphaning
           2%positive thread_made).
  vm_compute. reflexivity.
Defined.

(** The initial process calls [sys_Exit] with a living child, 2, and an
    exited one, 3. *)
Definition init_exiting : kernel :=
  mkKernel
    [proc ALIVE None [] [] [] 1;
     proc ALIVE None [2; 3] [3] [1%positive] 1;
     proc ALIVE (Some 1) [] [] [] 1;
     proc ZOMBIE (Some 1) [] [] [] 0;
     proc FREE None [] [] [] 0;
     proc FREE None [] [] [] 0;
     proc FREE None [] [] [] 0;
     proc FREE None [] [] [] 0]
    1 (Some 1%positive) {[1%positive := PTCB.mk None 0 0 0 0 0]}
    ∅ ∅ ∅ ∅ ∅ (replicate 1023 None) [].

Lemma init_exit_waits_for_children_witness :
  exists g' o,
    sys_Exit (H := small_config) 1 (mk_globals (Some 4) 4) 0 init_exiting =
      Some (g', o) /\
    (forall x s', o <> Return x s') /\
    (init_waits 0 o \/
     (exists s1,
        init_childless 0 s1 /\ o = sys_ThreadExit (H := small_config) 0 s1) \/
     exists f, o = Fault f).
Proof.
  apply (init_exit_waits_for_children (H := small_config) 1
           (mk_globals (Some 4) 4) 0 init_exiting
           (proc ALIVE None [2; 3] [3] [1%positive] 1)).
  - reflexivity.
  - reflexivity.
  - simpl. lia.
Defined.

(** ** Sockets: the end of the handshake *)

Section Handshake.
Context `{KernelConfig}.






End Handshake.

